(** * Transcript verification pipeline of the attachment-management backend

    A shallow embedding of the decision logic found in
    [core/services/transcript_data_extractor.py],
    [core/services/comprehensive_enhanced_ocr.py] and
    [core/views/document_verification_views.py].

    Python [str] values are lists of Unicode code points.  The tables of the
    Unicode database that the code consults through [unicodedata], [re] and
    the [str] methods are gathered in the class [UnicodeData]; the instance
    [AsciiData] gives them for texts in the ASCII range and is the one used
    whenever a definition is run on a concrete text.  Python floats that
    only carry scores and thresholds are exact rationals. *)

From Stdlib Require Import String Ascii List ZArith NArith QArith Bool Lia Permutation.
From Stdlib Require Import DecimalString Sorted Lqa.
From Stdlib.Strings Require Import Byte.
Import ListNotations.

Close Scope Q_scope.
Local Open Scope nat_scope.

(** ** Strings *)

Definition char := N.
Definition str := list char.

(** [lit "abc"] is the Python literal ['abc']. *)
Definition lit (s : String.string) : str :=
  map N_of_ascii (String.list_ascii_of_string s).
Arguments lit s%_string.

Definition chr (a : ascii) : char := N_of_ascii a.

Definition char_eqb (x y : char) : bool := N.eqb x y.

Fixpoint str_eqb (s t : str) : bool :=
  match s, t with
  | [], [] => true
  | x :: s', y :: t' => char_eqb x y && str_eqb s' t'
  | _, _ => false
  end.

Definition str_eq_dec (s t : str) : {s = t} + {s <> t} :=
  list_eq_dec N.eq_dec s t.

(** Python truthiness of a string: [not s] holds exactly for the empty one. *)
Definition is_empty (s : str) : bool :=
  match s with [] => true | _ => false end.

(** [x in xs] for a list or set of strings. *)
Definition mem_str (x : str) (xs : list str) : bool := existsb (str_eqb x) xs.

(** [s.startswith(p)] *)
Fixpoint starts_with (p s : str) : bool :=
  match p, s with
  | [], _ => true
  | x :: p', y :: s' => char_eqb x y && starts_with p' s'
  | _ :: _, [] => false
  end.

(** [sub in s] *)
Fixpoint contains (sub s : str) : bool :=
  starts_with sub s ||
  match s with
  | [] => false
  | _ :: s' => contains sub s'
  end.

(** [sep.join(parts)] *)
Fixpoint join (sep : str) (parts : list str) : str :=
  match parts with
  | [] => []
  | [p] => p
  | p :: ps => p ++ sep ++ join sep ps
  end.

(** [s.replace(old, new)]: the occurrences of [old] are replaced from left
    to right and do not overlap; [skip] counts the characters of the
    occurrence just replaced that are still to be passed over. *)
Fixpoint replace_from (old new : str) (s : str) (skip : nat) : str :=
  match s with
  | [] => []
  | c :: s' =>
      match skip with
      | S k => replace_from old new s' k
      | O =>
          if starts_with old s
          then new ++ replace_from old new s' (pred (length old))
          else c :: replace_from old new s' 0
      end
  end.

(** The code only replaces non-empty strings. *)
Definition replace (old new : str) (s : str) : str :=
  replace_from old new s 0.

(** [s.split(sep)] for a one-character separator. *)
Fixpoint split_on (sep : char) (s : str) : list str :=
  match s with
  | [] => [[]]
  | c :: s' =>
      if char_eqb c sep then [] :: split_on sep s'
      else match split_on sep s' with
           | [] => [[c]]
           | l :: ls => (c :: l) :: ls
           end
  end.

(** ** The Unicode tables *)

Definition ascii_space (c : char) : bool :=
  ((9 <=? c) && (c <=? 13) || (28 <=? c) && (c <=? 32))%N.

Definition ascii_digit (c : char) : bool := ((48 <=? c) && (c <=? 57))%N.
Definition ascii_upper_letter (c : char) : bool := ((65 <=? c) && (c <=? 90))%N.
Definition ascii_lower_letter (c : char) : bool := ((97 <=? c) && (c <=? 122))%N.
Definition ascii_letter (c : char) : bool :=
  ascii_upper_letter c || ascii_lower_letter c.

Definition ascii_to_lower (c : char) : char :=
  if ascii_upper_letter c then (c + 32)%N else c.
Definition ascii_to_upper (c : char) : char :=
  if ascii_lower_letter c then (c - 32)%N else c.

Definition is_ascii (c : char) : Prop := (c < 128)%N.

Class UnicodeData : Type := {
  (** [unicodedata.normalize('NFD', s)] *)
  nfd : str -> str;
  (** [unicodedata.category(c) == 'Mn'] *)
  is_Mn : char -> bool;
  (** [c.isspace()], which is also the class [\s] of [re] *)
  is_space : char -> bool;
  (** the class [\d] of [re] and the value [int] gives the digit *)
  is_decimal : char -> bool;
  decimal_value : char -> Z;
  (** the class [\w] of [re] *)
  is_word : char -> bool;
  (** the simple lower-case mapping that [re.IGNORECASE] compares with *)
  lower1 : char -> char;
  (** [c.upper()], [c.lower()] and whether [c] is cased *)
  upper : char -> str;
  lower : char -> str;
  is_cased : char -> bool;
  (** On ASCII the tables are the ASCII ones. *)
  nfd_ascii : forall s, Forall is_ascii s -> nfd s = s;
  is_Mn_ascii : forall c, is_ascii c -> is_Mn c = false;
  is_space_ascii : forall c, is_ascii c -> is_space c = ascii_space c;
  lower_ascii : forall c, is_ascii c -> lower c = [ascii_to_lower c];
  upper_ascii : forall c, is_ascii c -> upper c = [ascii_to_upper c];
  (** No upper-case expansion produces an ASCII digit out of anything else. *)
  upper_digit : forall c d, In d (upper c) -> ascii_digit d = true -> c = d
}.

#[export, refine] Instance AsciiData : UnicodeData := {|
  nfd := fun s => s;
  is_Mn := fun _ => false;
  is_space := ascii_space;
  is_decimal := ascii_digit;
  decimal_value := fun c => (Z.of_N c - 48)%Z;
  is_word := fun c => ascii_letter c || ascii_digit c || char_eqb c 95%N;
  lower1 := ascii_to_lower;
  upper := fun c => [ascii_to_upper c];
  lower := fun c => [ascii_to_lower c];
  is_cased := ascii_letter
|}.
Proof.
  all: try reflexivity.
  intros c d [Hd|[]] H. subst d. symmetry. revert H.
  unfold ascii_to_upper, ascii_digit, ascii_lower_letter.
  destruct ((97 <=? c)%N && (c <=? 122)%N) eqn:E; [|reflexivity].
  intros H. exfalso.
  apply andb_true_iff in E as [E1 E2]. apply andb_true_iff in H as [H1 H2].
  apply N.leb_le in E1, E2, H1, H2. lia.
Defined.

(** ** Python string methods that consult the Unicode tables *)

Section PythonStrings.
Context {U : UnicodeData}.

(** [s.upper()] and [s.lower()] *)
Definition py_upper (s : str) : str := flat_map upper s.
Definition py_lower (s : str) : str := flat_map lower s.

(** [s.lstrip()], [s.rstrip()] and [s.strip()] *)
Fixpoint lstrip (s : str) : str :=
  match s with
  | [] => []
  | c :: s' => if is_space c then lstrip s' else s
  end.

Definition rstrip (s : str) : str := rev (lstrip (rev s)).

Definition strip (s : str) : str := rstrip (lstrip s).

(** [s.split()]: the maximal runs of characters that are not white space.
    [cur] holds the run being read, last character first. *)
Fixpoint split_from (cur : str) (s : str) : list str :=
  match s with
  | [] => if is_empty cur then [] else [rev cur]
  | c :: s' =>
      if is_space c
      then (if is_empty cur then split_from [] s'
            else rev cur :: split_from [] s')
      else split_from (c :: cur) s'
  end.

Definition split (s : str) : list str := split_from [] s.

(** [s.title()]: a character that follows a cased one is lower-cased, any
    other is upper-cased. *)
Fixpoint title_from (previous_is_cased : bool) (s : str) : str :=
  match s with
  | [] => []
  | c :: s' =>
      (if previous_is_cased then lower c else upper c)
        ++ title_from (is_cased c) s'
  end.

Definition title (s : str) : str := title_from false s.

(** [int(s)] on a run of decimal digits. *)
Definition int_of (s : str) : Z :=
  fold_left (fun acc c => (10 * acc + decimal_value c)%Z) s 0%Z.

End PythonStrings.

(** ** The regular expressions of [re]

    A backtracking matcher with the priorities of Python's engine: the
    alternatives of [|] are tried from left to right, repetitions are greedy
    and give characters back one at a time.  Every unbounded repetition in
    the patterns of the code is over one character class ([Star]); the
    bounded ones ([Rep]) may repeat any expression. *)

Inductive cset : Type :=
| CChar (c : char)
| CRange (lo hi : char)
| CSpace
| CDigit
| CWord
| CNot (a : cset)
| COr (a b : cset).

Inductive regex : Type :=
| Eps
| Chr (cs : cset)
| Seq (a b : regex)
| Alt (a b : regex)
| Rep (a : regex) (lo hi : nat)
| Star (cs : cset)
| Group (i : nat) (a : regex)
| WordB
| Bol
| Eol.

(** The spans of the groups captured so far, the latest first, counted in
    characters from the start of the match. *)
Definition caps := list (nat * (nat * nat)).

Definition char_range (lo hi : char) : list char :=
  map N.of_nat (seq (N.to_nat lo) (S (N.to_nat hi) - N.to_nat lo)).

Section Matcher.
Context {U : UnicodeData}.

(** [ic] is the flag [re.IGNORECASE]: a literal or a range then also takes
    the characters whose lower-case form is that of one of its own. *)
Fixpoint cset_mem (ic : bool) (cs : cset) (x : char) : bool :=
  match cs with
  | CChar c => char_eqb x c || (ic && char_eqb (lower1 x) (lower1 c))
  | CRange lo hi =>
      ((lo <=? x)%N && (x <=? hi)%N)
      || (ic && existsb (fun i => char_eqb (lower1 x) (lower1 i))
                        (char_range lo hi))
  | CSpace => is_space x
  | CDigit => is_decimal x
  | CWord => is_word x
  | CNot a => negb (cset_mem ic a x)
  | COr a b => cset_mem ic a x || cset_mem ic b x
  end.

(** What is left to match: the character before the position, the rest of
    the subject, the offset from the start of the match and the captures. *)
Definition kont : Type :=
  option char -> str -> nat -> caps -> option (nat * caps).

Definition at_word (c : option char) : bool :=
  match c with Some x => is_word x | None => false end.

Fixpoint star (ic : bool) (cs : cset) (prev : option char) (s : str)
    (pos : nat) (g : caps) (k : kont) {struct s} : option (nat * caps) :=
  match s with
  | c :: s' =>
      if cset_mem ic cs c then
        match star ic cs (Some c) s' (S pos) g k with
        | Some r => Some r
        | None => k prev s pos g
        end
      else k prev s pos g
  | [] => k prev s pos g
  end.

Fixpoint rep (m : option char -> str -> nat -> caps -> kont -> option (nat * caps))
    (lo hi : nat) (prev : option char) (s : str) (pos : nat) (g : caps)
    (k : kont) {struct hi} : option (nat * caps) :=
  match hi with
  | O => if Nat.eqb lo 0 then k prev s pos g else None
  | S hi' =>
      match m prev s pos g (fun p s' pos' g' => rep m (pred lo) hi' p s' pos' g' k) with
      | Some r => Some r
      | None => if Nat.eqb lo 0 then k prev s pos g else None
      end
  end.

Fixpoint rmatch (ic : bool) (r : regex) (prev : option char) (s : str)
    (pos : nat) (g : caps) (k : kont) {struct r} : option (nat * caps) :=
  match r with
  | Eps => k prev s pos g
  | Chr cs =>
      match s with
      | c :: s' => if cset_mem ic cs c then k (Some c) s' (S pos) g else None
      | [] => None
      end
  | Seq a b =>
      rmatch ic a prev s pos g (fun p s' pos' g' => rmatch ic b p s' pos' g' k)
  | Alt a b =>
      match rmatch ic a prev s pos g k with
      | Some r => Some r
      | None => rmatch ic b prev s pos g k
      end
  | Rep a lo hi => rep (rmatch ic a) lo hi prev s pos g k
  | Star cs => star ic cs prev s pos g k
  | Group i a =>
      rmatch ic a prev s pos g
        (fun p s' pos' g' => k p s' pos' ((i, (pos, pos')) :: g'))
  | WordB =>
      if xorb (at_word prev) (at_word (hd_error s)) then k prev s pos g
      else None
  | Bol => match prev with None => k prev s pos g | Some _ => None end
  | Eol =>
      match s with
      | [] => k prev s pos g
      | [c] => if char_eqb c 10%N then k prev s pos g else None
      | _ => None
      end
  end.

(** One attempt at one position: the length of the match and its captures.
    With [must_advance] an empty match is refused, as the engine does at the
    position where the previous match was empty. *)
Definition match_here (ic : bool) (r : regex) (prev : option char) (s : str)
    (must_advance : bool) : option (nat * caps) :=
  rmatch ic r prev s 0 []
    (fun _ _ pos g =>
       if must_advance && Nat.eqb pos 0 then None else Some (pos, g)).

End Matcher.

(** ** Scanning a subject: [re.search], [re.findall], [re.sub] *)

(** A match object: [found_text] is [m.group(0)] and [found_groups] holds
    [m.group(1)], [m.group(2)], ...; a group that took no part is [None]. *)
Record found : Type := {
  found_text : str;
  found_groups : list (option str)
}.

(** What a scan meets from left to right: a character outside every match,
    or a match. *)
Inductive piece : Type :=
| Outside (c : char)
| Inside (m : found).

Fixpoint group_count (r : regex) : nat :=
  match r with
  | Seq a b | Alt a b => Nat.max (group_count a) (group_count b)
  | Rep a _ _ => group_count a
  | Group i a => Nat.max i (group_count a)
  | _ => 0
  end.

Fixpoint span_of (i : nat) (g : caps) : option (nat * nat) :=
  match g with
  | [] => None
  | (j, sp) :: g' => if Nat.eqb i j then Some sp else span_of i g'
  end.

Definition slice (s : str) (sp : nat * nat) : str :=
  firstn (snd sp - fst sp) (skipn (fst sp) s).

Definition found_at (r : regex) (s : str) (res : nat * caps) : found :=
  {| found_text := firstn (fst res) s;
     found_groups :=
       map (fun i => option_map (slice s) (span_of i (snd res)))
           (seq 1 (group_count r)) |}.

Section Scan.
Context {U : UnicodeData}.
Variable ic : bool.
Variable r : regex.

(** The matches of [r] in [s], never overlapping, with the characters
    between them.  After a match the scan resumes where the match ended; it
    first passes over the [skip] characters of the match that are left.
    After an empty match the same position is tried again for a match that
    is not empty, and then the scan moves on by one character. *)
Fixpoint scan (prev : option char) (s : str) (skip : nat) : list piece :=
  let move_on (n : nat) :=
    match s with
    | [] => []
    | c :: s' => scan (Some c) s' n
    end in
  let step_over :=
    match s with
    | [] => []
    | c :: s' => Outside c :: scan (Some c) s' 0
    end in
  match skip with
  | S k => move_on k
  | O =>
      match match_here ic r prev s false with
      | Some (S n, g) => Inside (found_at r s (S n, g)) :: move_on n
      | Some (O, g) =>
          Inside (found_at r s (O, g)) ::
          match match_here ic r prev s true with
          | Some (S n, g') => Inside (found_at r s (S n, g')) :: move_on n
          | _ => step_over
          end
      | None => step_over
      end
  end.

Fixpoint matches_of (ps : list piece) : list found :=
  match ps with
  | [] => []
  | Outside _ :: ps' => matches_of ps'
  | Inside m :: ps' => m :: matches_of ps'
  end.

(** [re.finditer(r, s)] *)
Definition finditer (s : str) : list found := matches_of (scan None s 0).

(** [re.search(r, s)] *)
Definition search (s : str) : option found := hd_error (finditer s).

(** [re.match(r, s)] *)
Definition match_start (s : str) : option found :=
  option_map (found_at r s) (match_here ic r None s false).

(** [re.sub(r, repl, s)] for a replacement without group references. *)
Definition sub (repl : str) (s : str) : str :=
  flat_map (fun p => match p with Outside c => [c] | Inside _ => repl end)
           (scan None s 0).

End Scan.

(** [m.group(i)], with [None] for a group that took no part. *)
Definition group (m : found) (i : nat) : option str :=
  match i with
  | O => Some (found_text m)
  | S j => nth j (found_groups m) None
  end.

(** [m.group(i)] where the pattern makes the group take part in every match. *)
Definition group_str (m : found) (i : nat) : str :=
  match group m i with Some s => s | None => [] end.

(** An item of [re.findall] for a pattern with two groups or more: the tuple
    of the groups, the empty string standing for a group that took no part. *)
Definition groups_tuple (m : found) : list str :=
  map (fun g => match g with Some s => s | None => [] end) (found_groups m).

(** ** Notation for patterns *)

Definition Plus (cs : cset) : regex := Seq (Chr cs) (Star cs).
Definition Opt (a : regex) : regex := Rep a 0 1.
Definition Times (cs : cset) (lo hi : nat) : regex := Rep (Chr cs) lo hi.

Fixpoint seqs (rs : list regex) : regex :=
  match rs with
  | [] => Eps
  | [a] => a
  | a :: rs' => Seq a (seqs rs')
  end.

Fixpoint alts (rs : list regex) : regex :=
  match rs with
  | [] => Eps
  | [a] => a
  | a :: rs' => Alt a (alts rs')
  end.

(** A literal word of a pattern. *)
Definition Str (s : String.string) : regex :=
  seqs (map (fun c => Chr (CChar c)) (lit s)).
Arguments Str s%_string.

(** A bracketed set of literal characters. *)
Definition OneOf (s : String.string) : cset :=
  match lit s with
  | [] => CNot (COr CSpace (CNot CSpace))
  | c :: cs => fold_left (fun acc d => COr acc (CChar d)) cs (CChar c)
  end.
Arguments OneOf s%_string.

Definition c_AZ : cset := CRange 65%N 90%N.
Definition c_az : cset := CRange 97%N 122%N.
Definition c_09 : cset := CRange 48%N 57%N.
Definition c_AF : cset := CRange 65%N 70%N.
Definition c_Aa : cset := COr c_AZ c_az.

(** ** transcript_data_extractor.py: the records *)

(** The values the code gives to [CleanedUnit.status]. *)
Inductive unit_status : Type := complete | incomplete | failed | exempt.

Definition unit_status_eqb (a b : unit_status) : bool :=
  match a, b with
  | complete, complete | incomplete, incomplete
  | failed, failed | exempt, exempt => true
  | _, _ => false
  end.

Record CleanedUnit : Type := {
  code : str;
  unit_title : str;
  grade : str;
  units_count : Z;
  status : unit_status;
  confidence : Q
}.

(** [TranscriptData], with the fields that are computed from the text on
    their own ([student_name], [program], [gpa], [confidence_scores],
    [raw_data]) left out: no other field depends on them. *)
Record TranscriptData : Type := {
  student_id : str;
  year : Z;
  semester : Z;
  units : list CleanedUnit;
  total_units : nat;
  completed_units : nat
}.

(** ** TextCleaner *)

Section TextCleaner.
Context {U : UnicodeData}.

(** The dictionary [replacements] of [clean_text], in insertion order. *)
Definition replacements : list (str * str) :=
  [ (lit "rn", lit "m");
    (lit "cl", lit "d");
    (lit "0", lit "O");
    (lit "1", lit "I");
    (lit "vv", lit "w");
    (lit "ii", lit "n") ].

Definition strip_marks (s : str) : str :=
  filter (fun c => negb (is_Mn c)) (nfd s).

Definition apply_replacements (s : str) : str :=
  fold_left (fun t p => replace (fst p) (snd p) t) replacements s.

Definition clean_text (text : str) : str :=
  if is_empty text then []
  else
    let text := strip_marks text in
    let text := apply_replacements text in
    let text := sub false (Plus CSpace) (lit " ") text in
    strip text.

(** [\b([A-Z]{2,4})\s*(\d{3,4}[A-Z]?)\b] *)
Definition course_code_re : regex :=
  seqs [ WordB; Group 1 (Times c_AZ 2 4); Star CSpace;
         Group 2 (Seq (Times CDigit 3 4) (Opt (Chr c_AZ))); WordB ].

Definition extract_course_code (text : str) : option str :=
  match search false course_code_re (py_upper text) with
  | Some m => Some (group_str m 1 ++ group_str m 2)
  | None => None
  end.

Definition grade_map : list (str * str) :=
  [ (lit "PASS", lit "P");
    (lit "FAIL", lit "F");
    (lit "INCOMPLETE", lit "I");
    (lit "WITHDRAWN", lit "W");
    (lit "CREDIT", lit "CR");
    (lit "NO CREDIT", lit "NC") ].

(** [d.get(k, default)] on a dictionary with string keys. *)
Fixpoint dict_get (d : list (str * str)) (k : str) (default : str) : str :=
  match d with
  | [] => default
  | (k', v) :: d' => if str_eqb k k' then v else dict_get d' k default
  end.

Definition normalize_grade (grade : str) : str :=
  if is_empty grade then []
  else
    let grade := strip (py_upper grade) in
    dict_get grade_map grade grade.

End TextCleaner.

(** ** NameMatcher *)

(** The order of [str] values: by code points, a proper prefix first. *)
Fixpoint str_leb (s t : str) : bool :=
  match s, t with
  | [], _ => true
  | _ :: _, [] => false
  | x :: s', y :: t' =>
      if (x <? y)%N then true
      else if (y <? x)%N then false
      else str_leb s' t'
  end.

(** [sorted(parts)]: the order on strings is total and two strings that
    compare equal are the same string, so every sorting algorithm gives the
    list that insertion gives. *)
Fixpoint insert_sorted (x : str) (l : list str) : list str :=
  match l with
  | [] => [x]
  | y :: l' => if str_leb x y then x :: l else y :: insert_sorted x l'
  end.

Fixpoint sorted (l : list str) : list str :=
  match l with
  | [] => []
  | x :: l' => insert_sorted x (sorted l')
  end.

(** [set(parts)] as a list without repetition, and the set operations the
    code uses. *)
Definition to_set (l : list str) : list str := nodup str_eq_dec l.

Definition issubset (p q : list str) : bool :=
  forallb (fun x => mem_str x q) p.

Definition intersection (p q : list str) : list str :=
  filter (fun x => mem_str x q) p.

Definition qmax (a b : Q) : Q := if Qle_bool a b then b else a.

(** [difflib.SequenceMatcher(None, a, b)], with the default [autojunk]. *)
Module SequenceMatcher.

(** [b2j]: the positions of [c] in [b], in increasing order; a "popular"
    element of a sequence of 200 elements or more has none. *)
Fixpoint positions (c : char) (b : str) (j : nat) : list nat :=
  match b with
  | [] => []
  | x :: b' =>
      if char_eqb x c then j :: positions c b' (S j) else positions c b' (S j)
  end.

Definition b2j (b : str) (c : char) : list nat :=
  let n := length b in
  let idxs := positions c b 0 in
  if (200 <=? n) && (n / 100 + 1 <? length idxs) then [] else idxs.

(** The dictionaries [j2len] and [newj2len]. *)
Fixpoint j2len_get (d : list (nat * nat)) (j : nat) : nat :=
  match d with
  | [] => 0
  | (j', k) :: d' => if Nat.eqb j j' then k else j2len_get d' j
  end.

Record best : Type := { besti : nat; bestj : nat; bestsize : nat }.

(** The loop over [b2j.get(a[i])]: indices below [blo] are passed,
    the first one that reaches [bhi] ends the loop. *)
Fixpoint inner (i blo bhi : nat) (j2len : list (nat * nat)) (js : list nat)
    (newj2len : list (nat * nat)) (bst : best) : list (nat * nat) * best :=
  match js with
  | [] => (newj2len, bst)
  | j :: js' =>
      if j <? blo then inner i blo bhi j2len js' newj2len bst
      else if bhi <=? j then (newj2len, bst)
      else
        let k := (match j with O => 0 | S j1 => j2len_get j2len j1 end) + 1 in
        let bst' :=
          if bestsize bst <? k
          then {| besti := i + 1 - k; bestj := j + 1 - k; bestsize := k |}
          else bst in
        inner i blo bhi j2len js' ((j, k) :: newj2len) bst'
  end.

Fixpoint outer (a b : str) (blo bhi : nat) (rows : list nat)
    (j2len : list (nat * nat)) (bst : best) : best :=
  match rows with
  | [] => bst
  | i :: rows' =>
      match nth_error a i with
      | Some c =>
          let '(newj2len, bst') := inner i blo bhi j2len (b2j b c) [] bst in
          outer a b blo bhi rows' newj2len bst'
      | None => bst
      end
  end.

Definition same_at (a b : str) (i j : nat) : bool :=
  match nth_error a i, nth_error b j with
  | Some x, Some y => char_eqb x y
  | _, _ => false
  end.

(** The two loops that stretch the block over equal neighbours; there is
    no junk, so the two later loops over junk neighbours do nothing. *)
Fixpoint extend_left (a b : str) (alo blo : nat) (fuel : nat) (bst : best) : best :=
  match fuel with
  | O => bst
  | S fuel' =>
      if (alo <? besti bst) && (blo <? bestj bst)
         && same_at a b (besti bst - 1) (bestj bst - 1)
      then extend_left a b alo blo fuel'
             {| besti := besti bst - 1; bestj := bestj bst - 1;
                bestsize := bestsize bst + 1 |}
      else bst
  end.

Fixpoint extend_right (a b : str) (ahi bhi : nat) (fuel : nat) (bst : best) : best :=
  match fuel with
  | O => bst
  | S fuel' =>
      if (besti bst + bestsize bst <? ahi) && (bestj bst + bestsize bst <? bhi)
         && same_at a b (besti bst + bestsize bst) (bestj bst + bestsize bst)
      then extend_right a b ahi bhi fuel'
             {| besti := besti bst; bestj := bestj bst;
                bestsize := bestsize bst + 1 |}
      else bst
  end.

Definition find_longest_match (a b : str) (alo ahi blo bhi : nat) : best :=
  let bst := outer a b blo bhi (seq alo (ahi - alo)) []
               {| besti := alo; bestj := blo; bestsize := 0 |} in
  let bst := extend_left a b alo blo (besti bst) bst in
  extend_right a b ahi bhi ahi bst.

(** The sum of the sizes of the blocks of [get_matching_blocks]: the
    longest block of the window, then the blocks of the windows to its
    left and to its right.  A window of [a] is shorter at each level, so
    the length of [a] is fuel enough. *)
Fixpoint matched (fuel : nat) (a b : str) (alo ahi blo bhi : nat) : nat :=
  match fuel with
  | O => 0
  | S fuel' =>
      let x := find_longest_match a b alo ahi blo bhi in
      let i := besti x in
      let j := bestj x in
      let k := bestsize x in
      if Nat.eqb k 0 then 0
      else
        k
        + (if (alo <? i) && (blo <? j)
           then matched fuel' a b alo i blo j else 0)
        + (if (i + k <? ahi) && (j + k <? bhi)
           then matched fuel' a b (i + k) ahi (j + k) bhi else 0)
  end.

(** [ratio()] *)
Definition ratio (a b : str) : Q :=
  let la := length a in
  let lb := length b in
  let matches := matched (S la) a b 0 la 0 lb in
  match (la + lb)%nat with
  | O => 1%Q
  | S n => (Z.of_nat (2 * matches) # Pos.of_succ_nat n)%Q
  end.

End SequenceMatcher.

Section NameMatcher.
Context {U : UnicodeData}.

(** The value of [name] when [normalize_name] splits it into parts. *)
Definition name_cleaned (name : str) : str :=
  let name := strip_marks name in
  let name := sub false (Chr (CNot (COr c_Aa CSpace))) [] name in
  let name := sub false (Plus CSpace) (lit " ") name in
  py_lower (strip name).

Definition longer_than_one (part : str) : bool := 1 <? length part.

Definition normalize_name (name : str) : str :=
  if is_empty name then []
  else
    let parts := filter longer_than_one (split (name_cleaned name)) in
    join (lit " ") (sorted parts).

Definition calculate_similarity (name1 name2 : str) : Q :=
  if is_empty name1 || is_empty name2 then 0%Q
  else
    let norm1 := normalize_name name1 in
    let norm2 := normalize_name name2 in
    if str_eqb norm1 norm2 then 1%Q
    else
      let seq_sim := SequenceMatcher.ratio norm1 norm2 in
      let parts1 := to_set (split norm1) in
      let parts2 := to_set (split norm2) in
      if issubset parts1 parts2 || issubset parts2 parts1
      then qmax (8 # 10) seq_sim
      else
        let common_parts := intersection parts1 parts2 in
        if negb (Nat.eqb (length common_parts) 0)
        then
          let coverage :=
            (Z.of_nat (length common_parts)
               # Pos.of_nat (Nat.max (length parts1) (length parts2)))%Q in
          qmax seq_sim (coverage * (7 # 10))%Q
        else seq_sim.

(** The dictionary [match_names] returns, without the two texts
    ['method'] and ['explanation']. *)
Record NameMatch : Type := {
  is_match : bool;
  match_confidence : Q;
  normalized_registered : str;
  normalized_extracted : str
}.

Definition match_names (registered_name extracted_name : str) : NameMatch :=
  let similarity := calculate_similarity registered_name extracted_name in
  {| is_match := Qle_bool (7 # 10) similarity;
     match_confidence := similarity;
     normalized_registered := normalize_name registered_name;
     normalized_extracted := normalize_name extracted_name |}.

End NameMatcher.

(** ** TranscriptDataExtractor *)

Section TranscriptDataExtractor.
Context {U : UnicodeData}.

(** *** [_extract_student_id] *)

Definition c_colon_space : cset := COr (CChar 58%N) CSpace.
Definition c_AZ09 : cset := COr c_AZ c_09.

Definition student_id_patterns : list regex :=
  [ (* (?:Student\s+No|Admission\s+Number):\s*(\d{6,8}) *)
    seqs [ Alt (seqs [Str "Student"; Plus CSpace; Str "No"])
               (seqs [Str "Admission"; Plus CSpace; Str "Number"]);
           Str ":"; Star CSpace; Group 1 (Times CDigit 6 8) ];
    (* #(\d{6,8})\s+Page *)
    seqs [ Str "#"; Group 1 (Times CDigit 6 8); Plus CSpace; Str "Page" ];
    (* (?:student\s+id|id\s+number|registration)[:\s]+([A-Z0-9]{6,15}) *)
    seqs [ alts [ seqs [Str "student"; Plus CSpace; Str "id"];
                  seqs [Str "id"; Plus CSpace; Str "number"];
                  Str "registration" ];
           Plus c_colon_space; Group 1 (Times c_AZ09 6 15) ];
    (* (?:id)[:\s]+([A-Z0-9]{6,15}) *)
    seqs [ Str "id"; Plus c_colon_space; Group 1 (Times c_AZ09 6 15) ];
    (* \b([A-Z]{2,3}\d{6,10})\b *)
    seqs [ WordB; Group 1 (Seq (Times c_AZ 2 3) (Times CDigit 6 10)); WordB ];
    (* \b(\d{6,8})\b *)
    seqs [ WordB; Group 1 (Times CDigit 6 8); WordB ] ].

(** The loop over [patterns]: the first pattern found in the text decides. *)
Fixpoint first_search (patterns : list regex) (text : str) : option found :=
  match patterns with
  | [] => None
  | p :: ps =>
      match search true p text with
      | Some m => Some m
      | None => first_search ps text
      end
  end.

Definition _extract_student_id (text : str) : str :=
  match first_search student_id_patterns text with
  | Some m => py_upper (group_str m 1)
  | None => []
  end.

(** *** [_extract_academic_period] *)

Definition year_patterns : list regex :=
  [ (* Stage:\s*Y(\d+)S\d+ *)
    seqs [ Str "Stage:"; Star CSpace; Str "Y"; Group 1 (Plus CDigit);
           Str "S"; Plus CDigit ];
    (* year[:\s]*(\d+) *)
    seqs [ Str "year"; Star c_colon_space; Group 1 (Plus CDigit) ];
    (* (?:level|class)[:\s]*(\d+) *)
    seqs [ Alt (Str "level") (Str "class"); Star c_colon_space;
           Group 1 (Plus CDigit) ];
    (* (\d+)(?:st|nd|rd|th)\s+year *)
    seqs [ Group 1 (Plus CDigit);
           alts [Str "st"; Str "nd"; Str "rd"; Str "th"];
           Plus CSpace; Str "year" ] ].

Definition sem_patterns : list regex :=
  [ (* Stage:\s*Y\d+S(\d+) *)
    seqs [ Str "Stage:"; Star CSpace; Str "Y"; Plus CDigit; Str "S";
           Group 1 (Plus CDigit) ];
    (* semester[:\s]*(\d+) *)
    seqs [ Str "semester"; Star c_colon_space; Group 1 (Plus CDigit) ];
    (* sem[:\s]*(\d+) *)
    seqs [ Str "sem"; Star c_colon_space; Group 1 (Plus CDigit) ];
    (* term[:\s]*(\d+) *)
    seqs [ Str "term"; Star c_colon_space; Group 1 (Plus CDigit) ] ].

(** (JAN-APR|SEPT-DEC|MAY-AUG)(\d{2}) *)
Definition semester_entry_re : regex :=
  seqs [ Group 1 (alts [Str "JAN-APR"; Str "SEPT-DEC"; Str "MAY-AUG"]);
         Group 2 (Times CDigit 2 2) ].

(** One turn of the loops over [year_patterns] and [sem_patterns]: a value
    the pattern finds within [lo..hi] raises the running maximum. *)
Definition raise_with (lo hi : Z) (text : str) (acc : Z) (p : regex) : Z :=
  match search true p text with
  | Some m =>
      let n := int_of (group_str m 1) in
      if ((lo <=? n) && (n <=? hi))%Z then Z.max acc n else acc
  | None => acc
  end.

(** [sorted(entries, key=lambda x: int(x[1]), reverse=True)]: a stable sort
    by decreasing key. *)
Fixpoint insert_desc (x : list str) (l : list (list str)) : list (list str) :=
  match l with
  | [] => [x]
  | y :: l' =>
      if (int_of (nth 1 y []) <? int_of (nth 1 x []))%Z
      then x :: l
      else y :: insert_desc x l'
  end.

Definition sorted_entries (entries : list (list str)) : list (list str) :=
  fold_left (fun acc x => insert_desc x acc) entries [].

Definition _extract_academic_period (text : str) : Z * Z :=
  let year := fold_left (raise_with 1 6 text) year_patterns 0%Z in
  let semester := fold_left (raise_with 1 2 text) sem_patterns 2%Z in
  let semester_entries :=
    map groups_tuple (finditer false semester_entry_re text) in
  let year :=
    match sorted_entries semester_entries with
    | [] => year
    | latest_entry :: _ =>
        let latest_year := (2000 + int_of (nth 1 latest_entry []))%Z in
        let current_year := 2025%Z in
        let estimated_year :=
          Z.min 6 (Z.max 1 (current_year - latest_year + 4)) in
        Z.max year estimated_year
    end in
  (year, semester).

(** *** The helpers of [_extract_units] *)

(** [_clean_title] *)
Definition _clean_title (t : str) : str :=
  let t := sub false (Chr (CNot (COr (COr c_Aa c_09) CSpace))) (lit " ") t in
  let t := sub false (Plus CSpace) (lit " ") t in
  title (strip t).

Definition valid_grades : list str :=
  map (fun s => lit s)
      [ "A"; "B"; "C"; "D"; "E"; "F"; "I"; "X"; "Z"; "P"; "PASS"; "FAIL";
        "F*"; "AU"; "EX"; "N/A" ]%string.

(** ^[A-F][+-]?$ *)
Definition letter_grade_re : regex :=
  seqs [ Bol; Chr c_AF; Opt (Chr (OneOf "+-")); Eol ].

Definition _is_valid_grade (g : str) : bool :=
  mem_str g valid_grades
  || match match_start false letter_grade_re g with
     | Some _ => true
     | None => false
     end.

Definition _determine_unit_status (g : str) : unit_status :=
  if mem_str g [lit "I"; lit "X"; lit "Z"; lit "F*"] then incomplete
  else if mem_str g [lit "F"; lit "FAIL"] then failed
  else if mem_str g [lit "AU"; lit "N/A"; lit "EX"] then exempt
  else complete.

Definition invalid_codes : list str :=
  [lit "PAGE"; lit "YEAR"; lit "SEMESTER"; lit "GRADE"].

Definition _is_valid_unit (u : CleanedUnit) : bool :=
  if is_empty (code u) || (length (code u) <? 5) || (10 <? length (code u))
  then false
  else if is_empty (unit_title u) || (length (unit_title u) <? 3)
  then false
  else if existsb (fun invalid => contains invalid (py_upper (code u)))
                  invalid_codes
  then false
  else true.

(** [extract_course_code(x) or x.replace(' ', '').upper()] *)
Definition code_of (x : str) : str :=
  match extract_course_code x with
  | Some c => if is_empty c then py_upper (replace (lit " ") [] x) else c
  | None => py_upper (replace (lit " ") [] x)
  end.

(** [_parse_unit_match]: a tuple of three groups is (code, title, grade), a
    tuple of four is read as (code, title, credits, grade). *)
Definition _parse_unit_match (m : list str) : option CleanedUnit :=
  let build (c t g : str) : option CleanedUnit :=
    let code := code_of c in
    let title := _clean_title t in
    let grade := normalize_grade g in
    if negb (_is_valid_grade grade) then None
    else Some {| code := code; unit_title := title; grade := grade;
                 units_count := 1; status := _determine_unit_status grade;
                 confidence := 9 # 10 |} in
  match m with
  | [c; t; g] => build c t g
  | [c; t; _; g] => build c t g
  | _ => None
  end.

End TranscriptDataExtractor.

Section ExtractUnits.
Context {U : UnicodeData}.

Definition c_dash : cset := COr (CChar 8211%N) (CChar 45%N).

(** [A-F][+-]? *)
Definition letter_grade : regex := Seq (Chr c_AF) (Opt (Chr (OneOf "+-"))).

(** [A-Z]{2,4}\s+\d{3,4} and [A-Z]{2,4}\s*\d{3,4} *)
Definition spaced_code : regex :=
  seqs [Times c_AZ 2 4; Plus CSpace; Times CDigit 3 4].
Definition loose_code : regex :=
  seqs [Times c_AZ 2 4; Star CSpace; Times CDigit 3 4].

(** The list [patterns] of [_extract_units]. *)
Definition unit_patterns : list regex :=
  [ (* ([A-Z]{2,4}\s+\d{3,4})\s+([A-Z][A-Z\s\.\&]{8,60})\s+\d+\s+\d+\s+\d+\s+([A-F][+-]?|[DIXZ])\s+(\d+) *)
    seqs [ Group 1 spaced_code; Plus CSpace;
           Group 2 (Seq (Chr c_AZ)
                        (Times (COr (COr c_AZ CSpace) (OneOf ".&")) 8 60));
           Plus CSpace; Plus CDigit; Plus CSpace; Plus CDigit; Plus CSpace;
           Plus CDigit; Plus CSpace;
           Group 3 (Alt letter_grade (Chr (OneOf "DIXZ")));
           Plus CSpace; Group 4 (Plus CDigit) ];
    (* ([A-Z]{2,4}\s+\d{3,4})\s+([A-Z][A-Z\s\.\&/]{5,50})\s+(?:\d+\s+){2,3}([A-F][+-]?|[DIXZ])\s+(\d+) *)
    seqs [ Group 1 spaced_code; Plus CSpace;
           Group 2 (Seq (Chr c_AZ)
                        (Times (COr (COr c_AZ CSpace) (OneOf ".&/")) 5 50));
           Plus CSpace; Rep (Seq (Plus CDigit) (Plus CSpace)) 2 3;
           Group 3 (Alt letter_grade (Chr (OneOf "DIXZ")));
           Plus CSpace; Group 4 (Plus CDigit) ];
    (* ([A-Z]{2,4}\s*\d{3,4}[A-Z]?)\s*[–-]\s*([^–-]+)\s*[–-]\s*([A-F][+-]?|[IXZ]|PASS|FAIL) *)
    seqs [ Group 1 (Seq loose_code (Opt (Chr c_AZ)));
           Star CSpace; Chr c_dash; Star CSpace;
           Group 2 (Plus (CNot c_dash));
           Star CSpace; Chr c_dash; Star CSpace;
           Group 3 (alts [ letter_grade; Chr (OneOf "IXZ");
                           Str "PASS"; Str "FAIL" ]) ];
    (* ([A-Z]{2,4}\d{3,4})\s*\|\s*([^|]+)\s*\|\s*(\d+)\s*\|\s*([A-F][+-]?|[IXZ]) *)
    seqs [ Group 1 (Seq (Times c_AZ 2 4) (Times CDigit 3 4));
           Star CSpace; Str "|"; Star CSpace;
           Group 2 (Plus (CNot (OneOf "|")));
           Star CSpace; Str "|"; Star CSpace; Group 3 (Plus CDigit);
           Star CSpace; Str "|"; Star CSpace;
           Group 4 (Alt letter_grade (Chr (OneOf "IXZ"))) ];
    (* ([A-Z]{2,4}\s*\d{3,4})\s+([A-Za-z\s]{10,50})\s+([A-F][+-]?|[IXZ]) *)
    seqs [ Group 1 loose_code; Plus CSpace;
           Group 2 (Times (COr c_Aa CSpace) 10 50); Plus CSpace;
           Group 3 (Alt letter_grade (Chr (OneOf "IXZ"))) ];
    (* ([A-Z]{2,4}\s*\d{3,4})\s+([^()]+)\s*\((\d+)\)\s*([A-F][+-]?|[IXZ]) *)
    seqs [ Group 1 loose_code; Plus CSpace;
           Group 2 (Plus (CNot (OneOf "()")));
           Star CSpace; Str "("; Group 3 (Plus CDigit); Str ")"; Star CSpace;
           Group 4 (Alt letter_grade (Chr (OneOf "IXZ"))) ] ].

(** \b([A-Z]{2,4}\s*\d{3,4}[A-Z]?)\b *)
Definition course_code_pattern : regex :=
  seqs [ WordB; Group 1 (Seq loose_code (Opt (Chr c_AZ))); WordB ].

(** \b[A-Z]{2,4}\d{3,4}\b and \b[A-Z]{3,4}\s+\d{3,4}\b *)
Definition simple_course_patterns : list regex :=
  [ seqs [ WordB; Times c_AZ 2 4; Times CDigit 3 4; WordB ];
    seqs [ WordB; Times c_AZ 3 4; Plus CSpace; Times CDigit 3 4; WordB ] ].

Definition skip_words : list str :=
  map (fun s => lit s)
      [ "UNIT CODE"; "UNIT DESCRIPTION"; "GRADE CREDIT"; "PAGE";
        "PROGRESSIVE"; "SIGNATURE"; "ACADEMIC REGISTRAR"; "KEY:"; "MEAN";
        "BALANCE" ]%string.

(** The two accumulators of the loop: the list [units] and the set
    [found_courses]. *)
Definition acc : Type := (list CleanedUnit * list str)%type.

(** [code.replace(' ', '').upper()] *)
Definition normalized (c : str) : str := py_upper (replace (lit " ") [] c).

Definition add (x : str) (found_courses : list str) : list str :=
  if mem_str x found_courses then found_courses else x :: found_courses.

(** The body of [for match in matches]: a unit that parses and is valid is
    appended, and its code is recorded. *)
Definition take_match (st : acc) (m : found) : acc :=
  match _parse_unit_match (groups_tuple m) with
  | Some unit =>
      if _is_valid_unit unit
      then (fst st ++ [unit], add (normalized (code unit)) (snd st))
      else st
  | None => st
  end.

(** The body of [for pattern in patterns]. *)
Definition take_pattern (line : str) (st : acc) (pattern : regex) : acc :=
  fold_left take_match (finditer true pattern line) st.

(** A unit made for counting, with the code as it stands in the text. *)
Definition counted_unit (c : str) (conf : Q) : CleanedUnit :=
  {| code := c; unit_title := lit "Course"; grade := lit "A";
     units_count := 1; status := complete; confidence := conf |}.

(** The body of [for course_code in course_matches]. *)
Definition take_course_code (st : acc) (course_code : str) : acc :=
  let normalized_code := normalized course_code in
  if negb (mem_str normalized_code (snd st)) && (5 <=? length normalized_code)
  then (fst st ++ [counted_unit course_code (5 # 10)],
        add normalized_code (snd st))
  else st.

(** The body of [for line in lines]. *)
Definition take_line (st : acc) (line : str) : acc :=
  let line := strip line in
  if length line <? 5 then st
  else if existsb (fun skip_word => contains skip_word (py_upper line))
                  skip_words
  then st
  else
    let st := fold_left (take_pattern line) unit_patterns st in
    if negb (existsb (fun pattern =>
                        match search true pattern line with
                        | Some _ => true
                        | None => false
                        end) unit_patterns)
    then
      let course_matches :=
        map (fun m => group_str m 1) (finditer false course_code_pattern line) in
      fold_left take_course_code course_matches st
    else st.

(** The body of the loop of the last resort. *)
Definition take_simple (st : acc) (m : str) : acc :=
  let normalized_code := normalized m in
  if negb (mem_str normalized_code (snd st))
  then (fst st ++ [counted_unit m (3 # 10)], add normalized_code (snd st))
  else st.

Definition _extract_units (text : str) : list CleanedUnit :=
  let lines := split_on 10%N text in
  let st := fold_left take_line lines ([], []) in
  let st :=
    if Nat.eqb (length (fst st)) 0
    then
      let all_text := join (lit " ") lines in
      fold_left
        (fun st pattern =>
           fold_left take_simple
                     (map found_text (finditer false pattern all_text)) st)
        simple_course_patterns st
    else st in
  fst st.

(** *** [extract_structured_data] *)

Definition extract_structured_data (text : str) : TranscriptData :=
  let cleaned_text := clean_text text in
  let student_id := _extract_student_id cleaned_text in
  let '(year, semester) := _extract_academic_period cleaned_text in
  let units := _extract_units cleaned_text in
  let countable_units :=
    filter (fun u => negb (unit_status_eqb (status u) exempt)) units in
  let total_units := length countable_units in
  let completed_units :=
    length (filter (fun u => unit_status_eqb (status u) complete)
                   countable_units) in
  {| student_id := student_id; year := year; semester := semester;
     units := units; total_units := total_units;
     completed_units := completed_units |}.

End ExtractUnits.

(** ** document_verification_views.py: the eligibility rules *)

Module Eligibility.
Section Rules.
Context {U : UnicodeData}.

(** [str(n)] for an integer. *)
Definition show_int (n : Z) : str := lit (NilZero.string_of_int (Z.to_int n)).

(** An element of [transcript_data.units]: an object with an attribute
    [status], a dictionary that may hold the key ['status'], or anything
    else. *)
Inductive unit_like : Type :=
| AsObject (status : str)
| AsDict (status : option str)
| Neither.

(** The transcript the view hands over, with the fields the rules read. *)
Record Transcript : Type := {
  student_name : str;
  program : str;
  year : Z;
  semester : Z;
  completed_units : Z;
  units : list unit_like
}.

(** [student.program] *)
Record Student : Type := { student_program : str }.

Record Verdict : Type := {
  overall : bool;
  name_matched : bool;
  has_required_units : bool;
  no_incompletes : bool;
  meets_year_requirement : bool;
  required_units : Z;
  verdict_completed_units : Z;
  incomplete_count : nat;
  summary : str
}.

Definition unit_status_of (u : unit_like) : str :=
  match u with
  | AsObject st => st
  | AsDict (Some st) => st
  | AsDict None => lit "complete"
  | Neither => lit "complete"
  end.

Definition _calculate_eligibility (student : Student)
    (transcript_data : Transcript) (name_match_result : NameMatch)
    (required_units : Z) (is_degree : bool) : Verdict :=
  let name_matched := is_match name_match_result in
  let has_required_units :=
    (required_units <=? completed_units transcript_data)%Z in
  let eligibility_year := if is_degree then 3%Z else 2%Z in
  let eligibility_semester := 2%Z in
  let incomplete_units :=
    filter (fun u => str_eqb (unit_status_of u) (lit "incomplete"))
           (units transcript_data) in
  let current_year := year transcript_data in
  let current_semester := semester transcript_data in
  let past_eligibility :=
    ((eligibility_year <? current_year)
     || ((current_year =? eligibility_year)
         && (eligibility_semester <=? current_semester)))%Z in
  let no_incompletes :=
    if past_eligibility then true
    else Nat.eqb (length incomplete_units) 0 in
  let year_requirement :=
    if is_degree
    then (((year transcript_data =? 3) && (2 <=? semester transcript_data))
          || (3 <? year transcript_data))%Z
    else (((year transcript_data =? 2) && (2 <=? semester transcript_data))
          || (2 <? year transcript_data))%Z in
  let overall_eligible :=
    name_matched && has_required_units && no_incompletes && year_requirement in
  let summary_parts :=
    (if negb name_matched
     then [lit "Name mismatch (extracted: '"
             ++ student_name transcript_data ++ lit "')"]
     else [])
    ++ (if negb has_required_units
        then [lit "Insufficient units ("
                ++ show_int (completed_units transcript_data) ++ lit "/"
                ++ show_int required_units ++ lit ")"]
        else [])
    ++ (if negb no_incompletes && negb past_eligibility
        then [show_int (Z.of_nat (length incomplete_units))
                ++ lit " incomplete units before eligibility period"]
        else [])
    ++ (if negb year_requirement
        then
          let year_desc :=
            if is_degree then lit "Year 3 Sem 2" else lit "Year 2 Sem 2" in
          [lit "Must reach " ++ year_desc ++ lit " (currently Year "
             ++ show_int (year transcript_data) ++ lit ", Sem "
             ++ show_int (semester transcript_data) ++ lit ")"]
        else []) in
  let summary :=
    if Nat.eqb (length summary_parts) 0 then lit "All requirements met"
    else join (lit "; ") summary_parts in
  {| overall := overall_eligible;
     name_matched := name_matched;
     has_required_units := has_required_units;
     no_incompletes := no_incompletes;
     meets_year_requirement := year_requirement;
     required_units := required_units;
     verdict_completed_units := completed_units transcript_data;
     incomplete_count :=
       if past_eligibility then 0 else length incomplete_units;
     summary := summary |}.

End Rules.
End Eligibility.

(** ** comprehensive_enhanced_ocr.py: analysis and choice of the text *)

Module EnhancedOCR.

Definition bytes : Type := list byte.

(** A Python exception is the text [str(e)] gives. *)
Inductive result (A : Type) : Type :=
| Ok (a : A)
| Raised (e : str).
Arguments Ok {A} a.
Arguments Raised {A} e.

Record ExtractionMethod : Type := {
  name : str;
  description : str;
  confidence : Q;
  text_length : nat;
  success : bool;
  error : option str
}.

(** What one of the methods [_extract_with_...] did: the record it returns
    and the text it had extracted, which the record does not carry. *)
Record Attempt : Type := {
  outcome : ExtractionMethod;
  extracted : str
}.

Record EnhancedExtractionResult : Type := {
  text : str;
  primary_method : str;
  result_confidence : Q;
  page_count : nat;
  errors : list str;
  methods_tried : list ExtractionMethod;
  successful_count : nat
}.

(** The result of [_analyze_page]. *)
Record PageAnalysis : Type := {
  text_blocks : Z;
  image_blocks : Z;
  table_candidates : Z;
  page_text_coverage : Q;
  digital_score : Z;
  scanned_score : Z;
  table_score : Z;
  complex_layout_score : Z
}.

Record DocumentAnalysis : Type := {
  is_digital : bool;
  is_scanned : bool;
  has_tables : bool;
  has_complex_layout : bool;
  text_coverage : Q;
  image_coverage : Q;
  doc_page_count : Z;
  recommended_method : str;
  analysis_confidence : Q;
  analysis_error : option str
}.

(** The PDF libraries, as far as the code looks at them.  [fitz_open] is
    [fitz.open(stream=pdf_bytes, filetype="pdf")] followed by
    [_analyze_page] on each page; the two [..._texts] give [page.get_text()]
    and [page.extract_text() or ""] for every page. *)
Record Backends : Type := {
  fitz_open : bytes -> result (list PageAnalysis);
  fitz_texts : bytes -> result (list str);
  pdfplumber_texts : bytes -> result (list str);
  _extract_with_pymupdf_enhanced : bytes -> Attempt;
  _extract_with_pdfplumber_enhanced : bytes -> Attempt;
  _extract_with_pdfminer_enhanced : bytes -> Attempt
}.

Section Processor.
Variable lib : Backends.

Definition sumZ (l : list Z) : Z := fold_left Z.add l 0%Z.
Definition sumQ (l : list Q) : Q := fold_left Qplus l 0%Q.

Definition pessimistic (e : str) : DocumentAnalysis :=
  {| is_digital := false;
     is_scanned := true;
     has_tables := false;
     has_complex_layout := false;
     text_coverage := 0%Q;
     image_coverage := 100%Q;
     doc_page_count := 1%Z;
     recommended_method := lit "advanced_ocr";
     analysis_confidence := (5 # 10)%Q;
     analysis_error := Some e |}.

(** The body of the [try] of [analyze_document]. *)
Definition analyze_opened (doc : list PageAnalysis) : result DocumentAnalysis :=
  let page_count := Z.of_nat (length doc) in
  let pages_to_analyze := Z.min 5 page_count in
  let pages := firstn (Z.to_nat pages_to_analyze) doc in
  let total_image_blocks := sumZ (map image_blocks pages) in
  let total_text_coverage := sumQ (map page_text_coverage pages) in
  let digital_indicators := sumZ (map digital_score pages) in
  let scanned_indicators := sumZ (map scanned_score pages) in
  let table_indicators := sumZ (map table_score pages) in
  let complex_layout_indicators := sumZ (map complex_layout_score pages) in
  if (pages_to_analyze =? 0)%Z then Raised (lit "division by zero")
  else
    let avg_text_coverage :=
      (total_text_coverage / inject_Z pages_to_analyze)%Q in
    let avg_image_coverage :=
      ((inject_Z total_image_blocks / inject_Z pages_to_analyze) * 10)%Q in
    let is_digital := (scanned_indicators <? digital_indicators)%Z in
    let is_scanned := (digital_indicators <? scanned_indicators)%Z in
    let has_tables := (pages_to_analyze * 2 <? table_indicators)%Z in
    let has_complex_layout :=
      (pages_to_analyze <? complex_layout_indicators)%Z in
    let recommended_method :=
      if is_digital && has_tables then lit "digital_with_tables"
      else if is_digital then lit "digital_text"
      else if is_scanned && has_tables then lit "ocr_with_tables"
      else if is_scanned then lit "advanced_ocr"
      else lit "hybrid" in
    let total_indicators := (digital_indicators + scanned_indicators)%Z in
    let confidence :=
      (inject_Z (Z.max digital_indicators scanned_indicators)
       / inject_Z (Z.max total_indicators 1))%Q in
    Ok {| is_digital := is_digital;
          is_scanned := is_scanned;
          has_tables := has_tables;
          has_complex_layout := has_complex_layout;
          text_coverage := avg_text_coverage;
          image_coverage := avg_image_coverage;
          doc_page_count := page_count;
          recommended_method := recommended_method;
          analysis_confidence := confidence;
          analysis_error := None |}.

(** [analyze_document]: whatever the [try] raises is caught. *)
Definition analyze_document (pdf_bytes : bytes) : DocumentAnalysis :=
  match fitz_open lib pdf_bytes with
  | Raised e => pessimistic e
  | Ok doc =>
      match analyze_opened doc with
      | Ok analysis => analysis
      | Raised e => pessimistic e
      end
  end.

(** [text += page_text + "\n"] over the pages. *)
Definition pages_text (pages : list str) : str :=
  flat_map (fun p => p ++ lit (String (ascii_of_nat 10) EmptyString)) pages.

Definition or_empty (r : result (list str)) : str :=
  match r with
  | Ok pages => pages_text pages
  | Raised _ => []
  end.

(** [_get_method_text] *)
Definition _get_method_text (pdf_bytes : bytes) (method_name : str)
    (is_ocr : bool) : str :=
  if contains (lit "pymupdf") method_name && negb is_ocr
  then or_empty (fitz_texts lib pdf_bytes)
  else if contains (lit "pdfplumber") method_name
  then or_empty (pdfplumber_texts lib pdf_bytes)
  else or_empty (fitz_texts lib pdf_bytes).

(** [_get_page_count] *)
Definition _get_page_count (pdf_bytes : bytes) : nat :=
  match fitz_texts lib pdf_bytes with
  | Ok pages => length pages
  | Raised _ => 1
  end.

(** [max(ms, key=lambda x: x.confidence)]: the first of the greatest. *)
Definition best_of (first : ExtractionMethod) (rest : list ExtractionMethod)
    : ExtractionMethod :=
  fold_left
    (fun best m =>
       if Qle_bool (confidence m) (confidence best) then best else m)
    rest first.

Definition qualifies (m : ExtractionMethod) : bool :=
  success m && negb (Qle_bool (confidence m) (1 # 10)).

(** The text the fallback branch builds in [combined_text]: it joins the
    names of the methods that succeeded, and is not used afterwards. *)
Definition fallback_combined_text (tried : list ExtractionMethod) : str :=
  let all_texts := map name (filter success tried) in
  join (lit (String (ascii_of_nat 10) EmptyString))
       (filter (fun t => negb (is_empty t)) all_texts).

Definition attempts (pdf_bytes : bytes) : list Attempt :=
  [ _extract_with_pymupdf_enhanced lib pdf_bytes;
    _extract_with_pdfplumber_enhanced lib pdf_bytes;
    _extract_with_pdfminer_enhanced lib pdf_bytes ].

Definition extract_digital_text_enhanced (pdf_bytes : bytes)
    : EnhancedExtractionResult :=
  let methods_tried := map outcome (attempts pdf_bytes) in
  let successful_methods := filter qualifies methods_tried in
  let '(primary_method, confidence) :=
    match successful_methods with
    | m :: ms =>
        let best_method := best_of m ms in
        (name best_method, confidence best_method)
    | [] => (lit "combined", (1 # 10)%Q)
    end in
  let final_text := _get_method_text pdf_bytes primary_method false in
  {| text := final_text;
     primary_method := primary_method;
     result_confidence := confidence;
     page_count := _get_page_count pdf_bytes;
     errors := [];
     methods_tried := methods_tried;
     successful_count := length successful_methods |}.

(** The text the orchestrator is meant to fall back on: the texts the
    methods extracted, the empty ones left out, one per line. *)
Definition attempted_texts (pdf_bytes : bytes) : str :=
  join (lit (String (ascii_of_nat 10) EmptyString))
       (filter (fun t => negb (is_empty t))
               (map extracted (attempts pdf_bytes))).

End Processor.
End EnhancedOCR.

(** ** comprehensive_enhanced_ocr.py: the OCR family and the entry point *)

Module Orchestrator.
Import EnhancedOCR.

(** What an OCR method found, besides its name and description, which the
    method sets itself. *)
Record Outcome : Type := {
  o_confidence : Q;
  o_text_length : nat;
  o_success : bool;
  o_error : option str
}.

(** The OCR engines: whether pdf2image could be imported, whether the DocTR
    model was loaded, and what each method ends with. *)
Record OcrBackends : Type := {
  PDF2IMAGE_AVAILABLE : bool;
  doctr_model : bool;
  tesseract_outcome : bytes -> Outcome;
  doctr_outcome : bytes -> Outcome;
  pymupdf_ocr_outcome : bytes -> Outcome
}.

Definition method_of (n d : str) (o : Outcome) : ExtractionMethod :=
  {| name := n; description := d; confidence := o_confidence o;
     text_length := o_text_length o; success := o_success o;
     error := o_error o |}.

(** What [process_document_comprehensive] returns: the fields of
    [EnhancedExtractionResult] that both families fill, with the strategy
    and the analysis its metadata holds. *)
Record Extraction : Type := {
  text : str;
  primary_method : str;
  confidence : Q;
  page_count : nat;
  methods_tried : list ExtractionMethod;
  extraction_strategy : str;
  document_analysis : option DocumentAnalysis
}.

Section Entry.
Variable lib : Backends.
Variable ocr : OcrBackends.

Definition _extract_with_tesseract_enhanced (pdf_bytes : bytes) : ExtractionMethod :=
  method_of (lit "tesseract_enhanced")
            (lit "Tesseract OCR with pdf2image and preprocessing")
            (tesseract_outcome ocr pdf_bytes).

Definition _extract_with_doctr (pdf_bytes : bytes) : ExtractionMethod :=
  method_of (lit "doctr") (lit "DocTR deep learning OCR")
            (doctr_outcome ocr pdf_bytes).

Definition _extract_with_pymupdf_ocr (pdf_bytes : bytes) : ExtractionMethod :=
  method_of (lit "pymupdf_ocr") (lit "PyMuPDF image conversion + Tesseract")
            (pymupdf_ocr_outcome ocr pdf_bytes).

Definition ocr_qualifies (m : ExtractionMethod) : bool :=
  success m && negb (Qle_bool (EnhancedOCR.confidence m) (5 # 100)).

Definition ocr_methods_tried (pdf_bytes : bytes) : list ExtractionMethod :=
  (if PDF2IMAGE_AVAILABLE ocr
   then [_extract_with_tesseract_enhanced pdf_bytes] else [])
  ++ (if doctr_model ocr then [_extract_with_doctr pdf_bytes] else [])
  ++ [_extract_with_pymupdf_ocr pdf_bytes].

Definition extract_with_advanced_ocr (pdf_bytes : bytes) : Extraction :=
  let methods_tried := ocr_methods_tried pdf_bytes in
  let successful_methods := filter ocr_qualifies methods_tried in
  let '(primary_method, confidence) :=
    match successful_methods with
    | m :: ms =>
        let best_method := best_of m ms in
        (name best_method, EnhancedOCR.confidence best_method)
    | [] => (lit "ocr_failed", 0%Q)
    end in
  let final_text := _get_method_text lib pdf_bytes primary_method true in
  {| text := final_text;
     primary_method := primary_method;
     confidence := confidence;
     page_count := _get_page_count lib pdf_bytes;
     methods_tried := methods_tried;
     extraction_strategy := lit "advanced_ocr";
     document_analysis := None |}.

(** The result of [extract_digital_text_enhanced] in the same record. *)
Definition digital_extraction (pdf_bytes : bytes) : Extraction :=
  let r := extract_digital_text_enhanced lib pdf_bytes in
  {| text := EnhancedOCR.text r;
     primary_method := EnhancedOCR.primary_method r;
     confidence := result_confidence r;
     page_count := EnhancedOCR.page_count r;
     methods_tried := EnhancedOCR.methods_tried r;
     extraction_strategy := lit "digital_enhanced";
     document_analysis := None |}.

Definition with_analysis (a : DocumentAnalysis) (r : Extraction) : Extraction :=
  {| text := text r; primary_method := primary_method r;
     confidence := confidence r; page_count := page_count r;
     methods_tried := methods_tried r;
     extraction_strategy := extraction_strategy r;
     document_analysis := Some a |}.

Definition process_document_comprehensive (pdf_bytes : bytes) : Extraction :=
  let analysis := analyze_document lib pdf_bytes in
  let result :=
    if mem_str (recommended_method analysis)
               [lit "digital_text"; lit "digital_with_tables"]
    then digital_extraction pdf_bytes
    else if mem_str (recommended_method analysis)
                    [lit "advanced_ocr"; lit "ocr_with_tables"]
    then extract_with_advanced_ocr pdf_bytes
    else
      let digital_result := digital_extraction pdf_bytes in
      if negb (Qle_bool (3 # 10) (confidence digital_result))
      then extract_with_advanced_ocr pdf_bytes
      else digital_result in
  with_analysis analysis result.

(** The start of [HybridDocumentParser.parse_transcript] (with [threshold]
    100) and of [HybridFeeStatementParser.parse_fee_statement] (with 50):
    the list [all_texts].  [method_result.text] reads an attribute that
    [ExtractionMethod] does not have. *)
Definition method_text (m : ExtractionMethod) : result str :=
  Raised (lit "'ExtractionMethod' object has no attribute 'text'").

Fixpoint more_texts (threshold : nat) (tried : list ExtractionMethod)
    (all_texts : list str) : result (list str) :=
  match tried with
  | [] => Ok all_texts
  | m :: tried' =>
      if success m && (threshold <? text_length m)
      then match method_text m with
           | Ok t => more_texts threshold tried' (all_texts ++ [t])
           | Raised e => Raised e
           end
      else more_texts threshold tried' all_texts
  end.

Definition all_texts_of (threshold : nat) (ocr_result : Extraction)
    : result (list str) :=
  more_texts threshold (methods_tried ocr_result) [text ocr_result].

End Entry.
End Orchestrator.

(** ** hybrid_document_parser.py: the period and the courses *)

Module Hybrid.
Section Parser.
Context {U : UnicodeData}.

(** Y(\d+)S(\d+) *)
Definition stage_token : regex :=
  seqs [ Str "Y"; Group 1 (Plus CDigit); Str "S"; Group 2 (Plus CDigit) ].

(** Stage\s*(\d+)\s*Semester\s*(\d+) *)
Definition stage_semester : regex :=
  seqs [ Str "Stage"; Star CSpace; Group 1 (Plus CDigit); Star CSpace;
         Str "Semester"; Star CSpace; Group 2 (Plus CDigit) ].

(** Year\s*(\d+) and Semester\s*(\d+) *)
Definition year_re : regex :=
  seqs [ Str "Year"; Star CSpace; Group 1 (Plus CDigit) ].
Definition semester_re : regex :=
  seqs [ Str "Semester"; Star CSpace; Group 1 (Plus CDigit) ].

(** (?:Year|Stage|Y)\s*(\d+) and (?:Semester|Sem|S)\s*(\d+) *)
Definition any_year_re : regex :=
  seqs [ alts [Str "Year"; Str "Stage"; Str "Y"]; Star CSpace;
         Group 1 (Plus CDigit) ].
Definition any_semester_re : regex :=
  seqs [ alts [Str "Semester"; Str "Sem"; Str "S"]; Star CSpace;
         Group 1 (Plus CDigit) ].

(** [re.findall] for a pattern with one group. *)
Definition findall1 (ic : bool) (r : regex) (text : str) : list str :=
  map (fun m => group_str m 1) (finditer ic r text).

(** [int(m.group(1)) if m else max(int(x) for x in all) if all else d] *)
Definition first_or_highest (m : option found) (all : list str) (d : Z) : Z :=
  match m with
  | Some m => int_of (group_str m 1)
  | None =>
      match all with
      | [] => d
      | x :: xs => fold_left Z.max (map int_of xs) (int_of x)
      end
  end.

Definition _extract_academic_period_hybrid (text : str) : Z * Z :=
  match search false stage_token text with
  | Some stage_match =>
      (int_of (group_str stage_match 1), int_of (group_str stage_match 2))
  | None =>
      match search true stage_semester text with
      | Some stage_pattern =>
          (int_of (group_str stage_pattern 1),
           int_of (group_str stage_pattern 2))
      | None =>
          let year_match := search true year_re text in
          let sem_match := search true semester_re text in
          let all_years := findall1 true any_year_re text in
          let all_semesters := findall1 true any_semester_re text in
          let year := first_or_highest year_match all_years 4 in
          let semester := first_or_highest sem_match all_semesters 2 in
          (Z.max 1 (Z.min 6 year), Z.max 1 (Z.min 2 semester))
      end
  end.

(** Student\s*No:\s*(\d{6,8}), ID:\s*(\d{6,8}) and (\d{7}) *)
Definition hybrid_id_patterns : list regex :=
  [ seqs [ Str "Student"; Star CSpace; Str "No:"; Star CSpace;
           Group 1 (Times CDigit 6 8) ];
    seqs [ Str "ID:"; Star CSpace; Group 1 (Times CDigit 6 8) ];
    Group 1 (Times CDigit 7 7) ].

(** The first pattern that [re.search] finds in the text, without flags. *)
Fixpoint first_match (patterns : list regex) (text : str) : option found :=
  match patterns with
  | [] => None
  | p :: ps =>
      match search false p text with
      | Some m => Some m
      | None => first_match ps text
      end
  end.

Definition _extract_student_id_hybrid (text : str) : str :=
  match first_match hybrid_id_patterns text with
  | Some m => group_str m 1
  | None => []
  end.

(** ([A-Z]{2,4}\s+\d{3,4})\s+([A-Z][A-Z\s\.\&/]{5,80})\s+\d+\s+\d+\s+\d+\s+([A-F][+-]?)\s+\d+ *)
Definition course_row : regex :=
  seqs [ Group 1 spaced_code; Plus CSpace;
         Group 2 (Seq (Chr c_AZ)
                      (Times (COr (COr c_AZ CSpace) (OneOf ".&/")) 5 80));
         Plus CSpace; Plus CDigit; Plus CSpace; Plus CDigit; Plus CSpace;
         Plus CDigit; Plus CSpace; Group 3 letter_grade; Plus CSpace;
         Plus CDigit ].

(** The course method 1 appends. *)
Definition row_course (code title grade : str) : CleanedUnit :=
  {| code := code; unit_title := title; grade := grade; units_count := 1;
     status := if negb (is_empty grade) && negb (str_eqb grade (lit "F"))
               then complete else incomplete;
     confidence := 9 # 10 |}.

(** The body of the loop of method 1. *)
Definition take_row (st : acc) (line : str) : acc :=
  let line := strip line in
  if length line <? 10 then st
  else
    match search false course_row line with
    | Some m =>
        let code := strip (group_str m 1) in
        let title := strip (group_str m 2) in
        let grade := strip (group_str m 3) in
        if negb (mem_str code (snd st))
        then (fst st ++ [row_course code title grade], add code (snd st))
        else st
    | None => st
    end.

(** The body of the loop of method 2. *)
Definition take_code (st : acc) (code : str) : acc :=
  let normalized_code := normalized code in
  if negb (mem_str normalized_code (snd st)) && (5 <=? length normalized_code)
  then (fst st ++ [counted_unit code (6 # 10)],
        add normalized_code (snd st))
  else st.

Definition rows_of (text : str) : acc :=
  fold_left take_row (split_on 10%N text) ([], []).

Definition simple_codes_of (text : str) : list str :=
  findall1 false course_code_pattern (join (lit " ") (split_on 10%N text)).

Definition _extract_courses_hybrid (text : str) : list CleanedUnit :=
  fst (fold_left take_code (simple_codes_of text) (rows_of text)).

(** The body of the inner loop of [_comprehensive_course_detection]. *)
Definition take_course (st : acc) (course : CleanedUnit) : acc :=
  let normalized_code := normalized (code course) in
  if negb (mem_str normalized_code (snd st))
  then (fst st ++ [course], add normalized_code (snd st))
  else st.

Definition _comprehensive_course_detection (all_texts : list str)
    : list CleanedUnit :=
  fst (fold_left
         (fun st text => fold_left take_course (_extract_courses_hybrid text) st)
         all_texts ([], [])).

End Parser.
End Hybrid.

(** ** intelligent_pdf_processor.py *)

Module IntelligentPDF.
Import EnhancedOCR.

Record PDFAnalysisResult : Type := {
  is_digital : bool;
  text_coverage : Q;
  has_fonts : bool;
  has_images : bool;
  page_count : nat;
  extraction_method : str;
  confidence : Q;
  analysis_error : option str
}.

Record ExtractionResult : Type := {
  text : str;
  method : str;
  result_confidence : Q;
  result_page_count : nat;
  errors : list str
}.

(** What [analyze_pdf_structure] reads of a page: the number of blocks of
    [page.get_text("dict")], whether a block holds a span, for every image
    the width and the height of its [fitz.Pixmap] (or the exception it
    raises), [page.get_text()], which is read twice, and the area of
    [page.rect]. *)
Record Page : Type := {
  text_block_count : nat;
  font_info : bool;
  image_list : list (result (Z * Z));
  page_text : str;
  page_area : Q
}.

(** The libraries.  [fitz_document] is the document as the analysis reads
    it, [fitz_len] is [len(doc)], [fitz_texts] and [pdfplumber_texts] give
    [page.get_text()] and [page.extract_text()], empty when it gives [None],
    for every page;
    [pdfminer_text] is [pdfminer_extract_text].  [ocr_pages] gives for every
    page the pairs of [ocr_result['text']] and [int(conf)] of
    [ocr_result['conf']], or the exception met on the way to them. *)
Record Libraries : Type := {
  fitz_document : bytes -> result (list Page);
  fitz_len : bytes -> result nat;
  fitz_texts : bytes -> result (list str);
  pdfplumber_texts : bytes -> result (list str);
  pdfminer_text : bytes -> result str;
  ocr_pages : bytes -> result (list (result (list (str * Z))))
}.

(** [min(a, b)] *)
Definition qmin (a b : Q) : Q := if Qle_bool a b then a else b.

Definition of_nat (n : nat) : Q := inject_Z (Z.of_nat n).

Section Processor.
Context {U : UnicodeData}.
Variable lib : Libraries.

Definition academic_keywords : list str :=
  map (fun s => lit s)
      [ "transcript"; "student"; "course"; "unit"; "grade"; "semester";
        "program"; "degree"; "university"; "college"; "gpa"; "credit"
      ]%string.

(** The number of keywords with [keyword.lower() in text.lower()]. *)
Definition keyword_count (text : str) : nat :=
  length (filter (fun keyword => contains (py_lower keyword) (py_lower text))
                 academic_keywords).

(** The counters of [analyze_pdf_structure]. *)
Record Tally : Type := {
  total_text_coverage : Q;
  seen_fonts : bool;
  seen_images : bool;
  digital_indicators : nat;
  scanned_indicators : nat
}.

Definition large_image (pix : result (Z * Z)) : bool :=
  match pix with
  | Ok (width, height) => (1000 <? width)%Z && (1000 <? height)%Z
  | Raised _ => false
  end.

(** The body of the loop over the pages. *)
Definition analyze_page (t : Tally) (page : Page) : Tally :=
  let d1 := if 5 <? text_block_count page then 2 else 0 in
  let d2 := if font_info page then 1 else 0 in
  let s3 := 2 * length (filter large_image (image_list page)) in
  let text_density :=
    if negb (Qle_bool (page_area page) 0)
    then (of_nat (length (page_text page)) / page_area page)%Q
    else 0%Q in
  let d4 := if negb (Qle_bool text_density (1 # 100)) then 1 else 0 in
  let s4 :=
    if negb (Qle_bool text_density (1 # 100))
    then 0
    else if negb (Qle_bool (1 # 1000) text_density) then 1 else 0 in
  let meaningful :=
    (100 <? length (strip (page_text page)))
    && (2 <=? keyword_count (page_text page)) in
  let d5 := if meaningful then 2 else 0 in
  {| total_text_coverage :=
       if meaningful
       then (total_text_coverage t
             + of_nat (length (page_text page)) / 1000)%Q
       else total_text_coverage t;
     seen_fonts := seen_fonts t || font_info page;
     seen_images :=
       seen_images t || negb (Nat.eqb (length (image_list page)) 0);
     digital_indicators := digital_indicators t + d1 + d2 + d4 + d5;
     scanned_indicators := scanned_indicators t + s3 + s4 |}.

Definition no_tally : Tally :=
  {| total_text_coverage := 0; seen_fonts := false; seen_images := false;
     digital_indicators := 0; scanned_indicators := 0 |}.

Definition fallback_analysis (e : str) : PDFAnalysisResult :=
  {| is_digital := false;
     text_coverage := 0;
     has_fonts := false;
     has_images := true;
     page_count := 1;
     extraction_method := lit "ocr_only";
     confidence := 5 # 10;
     analysis_error := Some e |}.

(** The body of the [try] of [analyze_pdf_structure]. *)
Definition analyze_opened (doc : list Page) : result PDFAnalysisResult :=
  let page_count := length doc in
  let pages_to_analyze := Nat.min 5 page_count in
  let t := fold_left analyze_page (firstn pages_to_analyze doc) no_tally in
  let is_digital := scanned_indicators t <? digital_indicators t in
  let total_indicators := digital_indicators t + scanned_indicators t in
  let confidence :=
    (of_nat (Nat.max (digital_indicators t) (scanned_indicators t))
     / of_nat (Nat.max total_indicators 1))%Q in
  if Nat.eqb pages_to_analyze 0 then Raised (lit "division by zero")
  else
    let text_coverage :=
      qmin (total_text_coverage t / of_nat pages_to_analyze) 100 in
    let extraction_method :=
      if is_digital && negb (Qle_bool text_coverage 20)
      then lit "digital_text"
      else if is_digital && negb (Qle_bool text_coverage 5)
      then lit "hybrid"
      else lit "ocr_only" in
    Ok {| is_digital := is_digital;
          text_coverage := text_coverage;
          has_fonts := seen_fonts t;
          has_images := seen_images t;
          page_count := page_count;
          extraction_method := extraction_method;
          confidence := confidence;
          analysis_error := None |}.

Definition analyze_pdf_structure (pdf_bytes : bytes) : PDFAnalysisResult :=
  match fitz_document lib pdf_bytes with
  | Raised e => fallback_analysis e
  | Ok doc =>
      match analyze_opened doc with
      | Ok analysis => analysis
      | Raised e => fallback_analysis e
      end
  end.

(** The patterns of [_calculate_text_quality]:
    [A-Z]{2,4}\s*\d{3,4}, [A-F][+-]?|\bPass\b|\bFail\b,
    \d+\s*(?:units?|credits?), GPA|CGPA and Semester|Year|Program. *)
Definition quality_patterns : list regex :=
  [ loose_code;
    alts [ letter_grade; seqs [WordB; Str "Pass"; WordB];
           seqs [WordB; Str "Fail"; WordB] ];
    seqs [ Plus CDigit; Star CSpace;
           Alt (Seq (Str "unit") (Opt (Str "s")))
               (Seq (Str "credit") (Opt (Str "s"))) ];
    Alt (Str "GPA") (Str "CGPA");
    alts [Str "Semester"; Str "Year"; Str "Program"] ].

Definition found_in (text : str) (pattern : regex) : bool :=
  match search true pattern text with Some _ => true | None => false end.

Definition _calculate_text_quality (text : str) : Q :=
  if is_empty text || (length (strip text) <? 50) then 0%Q
  else
    let academic_keyword_count := keyword_count text in
    let score := qmin (of_nat academic_keyword_count * (1 # 10)) (5 # 10) in
    let lines := split_on 10%N text in
    let non_empty_lines :=
      map strip (filter (fun line => negb (is_empty (strip line))) lines) in
    let score :=
      if 10 <? length non_empty_lines then (score + (2 # 10))%Q else score in
    let pattern_matches := length (filter (found_in text) quality_patterns) in
    let score :=
      (score + qmin (of_nat pattern_matches * (5 # 100)) (3 # 10))%Q in
    qmin score 1.

(** [f"\n--- Page {n} ---\n{page_text}"] added for every page, [n] counting
    from [first]. *)
Fixpoint paged (first : nat) (pages : list str) : str :=
  match pages with
  | [] => []
  | page_text :: pages' =>
      [10%N] ++ lit "--- Page " ++ Eligibility.show_int (Z.of_nat first)
      ++ lit " ---" ++ [10%N] ++ page_text ++ paged (S first) pages'
  end.

(** [best_text], [best_method], [best_confidence] and [errors]. *)
Record Best : Type := {
  best_text : str;
  best_method : str;
  best_confidence : Q;
  best_errors : list str
}.

(** One of the three [try] blocks of [extract_digital_text]. *)
Definition try_method (method_name failure : str) (read : result str)
    (b : Best) : Best :=
  match read with
  | Ok method_text =>
      let method_confidence := _calculate_text_quality method_text in
      if negb (Qle_bool method_confidence (best_confidence b))
      then {| best_text := method_text; best_method := method_name;
              best_confidence := method_confidence;
              best_errors := best_errors b |}
      else b
  | Raised e =>
      {| best_text := best_text b; best_method := best_method b;
         best_confidence := best_confidence b;
         best_errors := best_errors b ++ [failure ++ e] |}
  end.

Definition first_pages (n : nat) (r : result (list str)) : result str :=
  match r with
  | Ok pages => Ok (paged 1 (firstn n pages))
  | Raised e => Raised e
  end.

Definition digital_reads (pdf_bytes : bytes) : list (str * str * result str) :=
  [ (lit "pymupdf", lit "PyMuPDF failed: ",
     first_pages 20 (fitz_texts lib pdf_bytes));
    (lit "pdfplumber", lit "pdfplumber failed: ",
     first_pages 20 (pdfplumber_texts lib pdf_bytes));
    (lit "pdfminer", lit "pdfminer failed: ", pdfminer_text lib pdf_bytes) ].

Definition nothing_yet : Best :=
  {| best_text := []; best_method := []; best_confidence := 0;
     best_errors := [] |}.

Definition extract_digital_text (pdf_bytes : bytes) : ExtractionResult :=
  let b :=
    fold_left (fun b '(method_name, failure, read) =>
                 try_method method_name failure read b)
              (digital_reads pdf_bytes) nothing_yet in
  {| text := best_text b;
     method := lit "digital_" ++ best_method b;
     result_confidence := best_confidence b;
     result_page_count :=
       match fitz_len lib pdf_bytes with Ok n => n | Raised _ => 1 end;
     errors := best_errors b |}.

(** The state of the loop of [extract_with_ocr]; [page_num] counts from 0. *)
Record OcrState : Type := {
  full_text : str;
  total_confidence : Q;
  pages_processed : nat;
  ocr_errors : list str;
  page_num : nat
}.

Definition sum_of (l : list Z) : Z := fold_right Z.add 0%Z l.

(** [np.mean] *)
Definition mean (l : list Z) : Q :=
  (inject_Z (sum_of l) / of_nat (length l))%Q.

Definition kept_word (w : str * Z) : bool :=
  (30 <? snd w)%Z && negb (is_empty (strip (fst w))).

Definition ocr_page (st : OcrState) (page : result (list (str * Z)))
    : OcrState :=
  match page with
  | Ok words =>
      let page_text := join (lit " ") (map fst (filter kept_word words)) in
      if negb (is_empty (strip page_text))
      then
        let page_confidence :=
          mean (filter (fun conf => (0 <? conf)%Z) (map snd words)) in
        {| full_text := full_text st ++ paged (S (page_num st)) [page_text];
           total_confidence := (total_confidence st + page_confidence)%Q;
           pages_processed := S (pages_processed st);
           ocr_errors := ocr_errors st;
           page_num := S (page_num st) |}
      else
        {| full_text := full_text st;
           total_confidence := total_confidence st;
           pages_processed := pages_processed st;
           ocr_errors := ocr_errors st;
           page_num := S (page_num st) |}
  | Raised e =>
      {| full_text := full_text st;
         total_confidence := total_confidence st;
         pages_processed := pages_processed st;
         ocr_errors :=
           ocr_errors st
           ++ [lit "OCR failed for page "
               ++ Eligibility.show_int (Z.of_nat (S (page_num st)))
               ++ lit ": " ++ e];
         page_num := S (page_num st) |}
  end.

Definition ocr_start : OcrState :=
  {| full_text := []; total_confidence := 0; pages_processed := 0;
     ocr_errors := []; page_num := 0 |}.

Definition extract_with_ocr (pdf_bytes : bytes) : ExtractionResult :=
  match ocr_pages lib pdf_bytes with
  | Ok pages =>
      let st := fold_left ocr_page (firstn 15 pages) ocr_start in
      let overall_confidence :=
        if 0 <? pages_processed st
        then (total_confidence st / of_nat (pages_processed st) / 100)%Q
        else 0%Q in
      {| text := full_text st;
         method := lit "ocr_tesseract";
         result_confidence := overall_confidence;
         result_page_count := pages_processed st;
         errors := ocr_errors st |}
  | Raised e =>
      {| text := [];
         method := lit "ocr_failed";
         result_confidence := 0;
         result_page_count := 0;
         errors := [lit "OCR extraction failed: " ++ e] |}
  end.

Definition process_document (pdf_bytes : bytes)
    : ExtractionResult * PDFAnalysisResult :=
  let analysis := analyze_pdf_structure pdf_bytes in
  let extraction :=
    if str_eqb (extraction_method analysis) (lit "digital_text")
    then extract_digital_text pdf_bytes
    else if str_eqb (extraction_method analysis) (lit "hybrid")
    then
      let extraction := extract_digital_text pdf_bytes in
      if negb (Qle_bool (3 # 10) (result_confidence extraction))
      then extract_with_ocr pdf_bytes
      else extraction
    else extract_with_ocr pdf_bytes in
  (extraction, analysis).

End Processor.
End IntelligentPDF.

(** ** ocr_views.py: the name check of the transcript view *)

Module OcrViews.
Section NameCheck.
Context {U : UnicodeData}.

(** [len(a & b) / max(len(a), len(b)) >= 0.6] for two sets of words. *)
Definition enough_words (provided_words extracted_words : list str) : bool :=
  Qle_bool (6 # 10)
    (Z.of_nat (length (intersection provided_words extracted_words))
     # Pos.of_nat (Nat.max (length provided_words) (length extracted_words))).

Definition check_name_match (provided_name extracted_name : str) : bool :=
  if is_empty provided_name || is_empty extracted_name then false
  else
    let provided_lower := strip (py_lower provided_name) in
    let extracted_lower := strip (py_lower extracted_name) in
    if str_eqb provided_lower extracted_lower then true
    else if contains provided_lower extracted_lower
            || contains extracted_lower provided_lower
    then true
    else
      let provided_words := to_set (split provided_lower) in
      let extracted_words := to_set (split extracted_lower) in
      if negb (Nat.eqb (length provided_words) 0)
         && negb (Nat.eqb (length extracted_words) 0)
      then enough_words provided_words extracted_words
      else false.

End NameCheck.
End OcrViews.

(** * Properties *)

(** ** Strings and sets of strings *)

Lemma str_eqb_eq (s t : str) : str_eqb s t = true <-> s = t.
Proof.
  revert t; induction s as [|x s IH]; intros [|y t]; simpl; split;
    try congruence; try reflexivity.
  - intros H. apply andb_true_iff in H as [Hx Hs].
    apply N.eqb_eq in Hx. apply IH in Hs. congruence.
  - intros H. injection H as -> ->. apply andb_true_iff. split.
    + apply N.eqb_refl.
    + now apply IH.
Qed.

Lemma str_eqb_refl (s : str) : str_eqb s s = true.
Proof. now apply str_eqb_eq. Qed.

Lemma str_eqb_sym (s t : str) : str_eqb s t = str_eqb t s.
Proof.
  destruct (str_eqb s t) eqn:E.
  - apply str_eqb_eq in E. subst. symmetry. apply str_eqb_refl.
  - destruct (str_eqb t s) eqn:E'; [|reflexivity].
    apply str_eqb_eq in E'. subst. rewrite str_eqb_refl in E. discriminate.
Qed.

Lemma mem_str_In (x : str) (xs : list str) : mem_str x xs = true <-> In x xs.
Proof.
  unfold mem_str. rewrite existsb_exists. split.
  - intros [y [Hy E]]. apply str_eqb_eq in E. now subst.
  - intros H. exists x. split; [assumption|apply str_eqb_refl].
Qed.

Lemma intersection_In (p q : list str) (x : str) :
  In x (intersection p q) <-> In x p /\ In x q.
Proof.
  unfold intersection. rewrite filter_In, mem_str_In. reflexivity.
Qed.

Lemma intersection_length (p q : list str) :
  NoDup p -> NoDup q ->
  length (intersection p q) = length (intersection q p).
Proof.
  intros Hp Hq. apply Permutation_length, NoDup_Permutation.
  - now apply NoDup_filter.
  - now apply NoDup_filter.
  - intros x. rewrite !intersection_In. tauto.
Qed.

(** ** Scores *)

Lemma Qle_bool_qmax (c x y : Q) :
  Qle_bool c (qmax x y) = Qle_bool c x || Qle_bool c y.
Proof.
  unfold qmax. destruct (Qle_bool x y) eqn:Exy.
  - destruct (Qle_bool c x) eqn:Ecx; [|reflexivity].
    simpl. apply Qle_bool_iff. apply Qle_bool_iff in Exy, Ecx.
    now apply Qle_trans with x.
  - destruct (Qle_bool c y) eqn:Ecy; [|now rewrite orb_false_r].
    rewrite orb_true_r. apply Qle_bool_iff. apply Qle_bool_iff in Ecy.
    apply Qle_trans with y; [assumption|].
    apply Qlt_le_weak, Qnot_le_lt. intros H.
    apply Qle_bool_iff in H. congruence.
Qed.

(** ** The eligibility rules *)

Section EligibilityFacts.
Import Eligibility.

(** C4: for a degree program, that is called with 39 required units and
    [is_degree] true, the calculation returns 39 as the required units,
    compares the completed units with 39, asks for year 3 semester 2 or
    later, and gives the conjunction of the four conditions as the verdict;
    45 completed units in year 4 semester 2 meet the units and the year
    conditions, and 30 completed units fail the units condition and the
    verdict. *)
Theorem degree_eligibility (student : Student) (td : Transcript)
    (nm : NameMatch) :
  let v := _calculate_eligibility student td nm 39 true in
  required_units v = 39%Z
  /\ has_required_units v = (39 <=? completed_units td)%Z
  /\ meets_year_requirement v
     = (((year td =? 3) && (2 <=? semester td)) || (3 <? year td))%Z
  /\ overall v
     = name_matched v && has_required_units v && no_incompletes v
       && meets_year_requirement v
  /\ name_matched v = is_match nm
  /\ (completed_units td = 45%Z -> year td = 4%Z -> semester td = 2%Z ->
      has_required_units v = true /\ meets_year_requirement v = true)
  /\ (completed_units td = 30%Z ->
      has_required_units v = false /\ overall v = false).
Proof.
  intros v. subst v. unfold _calculate_eligibility.
  cbn [required_units has_required_units meets_year_requirement overall
    name_matched no_incompletes].
  split; [reflexivity|]. split; [reflexivity|]. split; [reflexivity|].
  split; [reflexivity|]. split; [reflexivity|]. split.
  - intros -> -> ->. split; reflexivity.
  - intros ->. split; [reflexivity|]. cbn. now rewrite andb_false_r.
Qed.

End EligibilityFacts.

(** ** The document analyzer and the digital orchestrator *)

Section EnhancedOCRFacts.
Import EnhancedOCR.

(** C8: when the bytes cannot be opened as a PDF, [analyze_document] raises
    nothing and returns the pessimistic analysis: scanned, not digital,
    confidence 0.5, with the OCR method recommended. *)
Theorem analyze_document_unreadable (lib : Backends) (pdf_bytes : bytes)
    (e : str) :
  fitz_open lib pdf_bytes = Raised e ->
  let a := analyze_document lib pdf_bytes in
  a = pessimistic e
  /\ is_scanned a = true
  /\ is_digital a = false
  /\ analysis_confidence a = (5 # 10)%Q
  /\ recommended_method a = lit "advanced_ocr".
Proof.
  intros Hopen a. subst a. unfold analyze_document. rewrite Hopen.
  repeat split.
Qed.

(** A document of no page is caught in the same way: the averages divide by
    the number of pages looked at. *)
Lemma analyze_document_no_page (lib : Backends) (pdf_bytes : bytes) :
  fitz_open lib pdf_bytes = Ok [] ->
  analyze_document lib pdf_bytes = pessimistic (lit "division by zero").
Proof.
  intros Hopen. unfold analyze_document. rewrite Hopen. reflexivity.
Qed.

Definition newline : str := lit (String (ascii_of_nat 10) EmptyString).

(** The libraries on bytes that are no PDF: every one of them raises. *)
Definition unreadable : Backends :=
  let failure (n : str) : Attempt :=
    {| outcome := {| name := n; description := []; confidence := 0;
                     text_length := 0; success := false;
                     error := Some (lit "cannot open broken document") |};
       extracted := [] |} in
  {| fitz_open := fun _ => Raised (lit "cannot open broken document");
     fitz_texts := fun _ => Raised (lit "cannot open broken document");
     pdfplumber_texts := fun _ => Raised (lit "No /Root object!");
     _extract_with_pymupdf_enhanced := fun _ => failure (lit "pymupdf_enhanced");
     _extract_with_pdfplumber_enhanced :=
       fun _ => failure (lit "pdfplumber_enhanced");
     _extract_with_pdfminer_enhanced :=
       fun _ => failure (lit "pdfminer_enhanced") |}.

Lemma analyze_document_unreadable_witness :
  is_scanned (analyze_document unreadable [x00; x01]) = true
  /\ analysis_confidence (analyze_document unreadable [x00; x01]) = (5 # 10)%Q.
Proof.
  destruct (analyze_document_unreadable unreadable [x00; x01]
              (lit "cannot open broken document") eq_refl)
    as (_ & Hs & _ & Hc & _).
  split; assumption.
Defined.

(** The libraries on a PDF of one page that reads "xyz": PyMuPDF and
    pdfplumber succeed with a text of less than 20 characters, which scores
    0.0; pdfminer keeps no text, since no text scored above 0. *)
Definition one_short_page : Backends :=
  let page_text := newline ++ lit "--- Page 1 ---" ++ newline ++ lit "xyz" in
  {| fitz_open := fun _ =>
       Ok [ {| text_blocks := 1; image_blocks := 0; table_candidates := 0;
               page_text_coverage := 0; digital_score := 0;
               scanned_score := 0; table_score := 0;
               complex_layout_score := 0 |} ];
     fitz_texts := fun _ => Ok [lit "xyz" ++ newline];
     pdfplumber_texts := fun _ => Ok [lit "xyz"];
     _extract_with_pymupdf_enhanced := fun _ =>
       {| outcome := {| name := lit "pymupdf_enhanced";
                        description := lit "PyMuPDF with layout preservation";
                        confidence := 0; text_length := length page_text;
                        success := true; error := None |};
          extracted := page_text |};
     _extract_with_pdfplumber_enhanced := fun _ =>
       {| outcome := {| name := lit "pdfplumber_enhanced";
                        description := lit "pdfplumber with table extraction";
                        confidence := 0; text_length := length page_text;
                        success := true; error := None |};
          extracted := page_text |};
     _extract_with_pdfminer_enhanced := fun _ =>
       {| outcome := {| name := lit "pdfminer_enhanced";
                        description :=
                          lit "pdfminer with optimized layout parameters";
                        confidence := 0; text_length := 0;
                        success := false; error := None |};
          extracted := [] |} |}.

(** C5: when no method qualifies, the result is reported as "combined" with
    confidence 0.1, but its text is what a plain PyMuPDF reading gives, not
    the texts of the attempts joined; on the one-page document the two
    differ. *)
Theorem digital_fallback_text :
  let r := extract_digital_text_enhanced one_short_page [] in
  successful_count r = 0
  /\ primary_method r = lit "combined"
  /\ result_confidence r = (1 # 10)%Q
  /\ text r = lit "xyz" ++ newline ++ newline
  /\ attempted_texts one_short_page []
     = newline ++ lit "--- Page 1 ---" ++ newline ++ lit "xyz" ++ newline
       ++ newline ++ lit "--- Page 1 ---" ++ newline ++ lit "xyz"
  /\ text r <> attempted_texts one_short_page [].
Proof.
  vm_compute. repeat split. discriminate.
Qed.

(** In the fallback branch the text never depends on what the attempts
    extracted: it is the plain PyMuPDF reading, or empty when that fails. *)
Lemma digital_fallback_reads_again (lib : Backends) (pdf_bytes : bytes) :
  filter qualifies (map outcome (attempts lib pdf_bytes)) = [] ->
  let r := extract_digital_text_enhanced lib pdf_bytes in
  primary_method r = lit "combined"
  /\ result_confidence r = (1 # 10)%Q
  /\ text r = or_empty (fitz_texts lib pdf_bytes).
Proof.
  intros Hnone r. subst r. unfold extract_digital_text_enhanced.
  rewrite Hnone. repeat split.
Qed.

End EnhancedOCRFacts.

(** ** The extractor on concrete texts *)

Definition cmt_row : str :=
  lit "CMT 108 INTRO. TO WEB DEVELOPMENT 24 50 74 A 3".

(** C1: on the row of the example the cleaned text reads "CMT IO8 ... 5O
    ...", no pattern finds a course code in it, and the list of units is
    empty. *)
Theorem cmt_row_yields_no_unit :
  clean_text cmt_row = lit "CMT IO8 INTRO. TO WEB DEVELOPMENT 24 5O 74 A 3"
  /\ units (extract_structured_data cmt_row) = [].
Proof. vm_compute. split; reflexivity. Qed.

Definition repeated_lines : str :=
  lit "CIT 3235 - Data Mining - A" ++ [10%N]
  ++ lit "CIT 3235 - Data Mining - A".

Definition two_patterns_line : str := lit "CIT 3235 Data Mining Basics (3) A".

(** C3: a course that stands on two lines, or on one line that two patterns
    match, is listed twice. *)
Theorem repeated_course_listed_twice :
  map code (units (extract_structured_data repeated_lines))
    = [lit "CIT3235"; lit "CIT3235"]
  /\ map (fun u => (code u, grade u))
         (units (extract_structured_data two_patterns_line))
     = [(lit "CIT3235", lit "B"); (lit "CIT3235", lit "A")]
  /\ ~ NoDup (map (fun u => normalized (code u))
                  (units (extract_structured_data repeated_lines))).
Proof.
  split; [vm_compute; reflexivity|]. split; [vm_compute; reflexivity|].
  intros H. vm_compute in H. inversion H as [|x l Hin _]. apply Hin. now left.
Qed.

(** C6, as stated, fails on the empty text: the year is 0. *)
Lemma academic_period_of_empty_text :
  ~ (forall text : str,
       (1 <= fst (_extract_academic_period text) <= 6)%Z
       /\ (1 <= snd (_extract_academic_period text) <= 2)%Z).
Proof.
  intros H. destruct (H []) as [[H1 _] _]. vm_compute in H1. now apply H1.
Qed.

(** C7, as stated, fails on "Anna" and "Nana": the ratio of the sequence
    matcher is 0.75 one way and 0.5 the other. *)
Lemma anna_nana_not_symmetric :
  is_match (match_names (lit "Anna") (lit "Nana"))
    <> is_match (match_names (lit "Nana") (lit "Anna"))
  /\ match_confidence (match_names (lit "Anna") (lit "Nana")) = (6 # 8)%Q
  /\ match_confidence (match_names (lit "Nana") (lit "Anna")) = (4 # 8)%Q.
Proof. vm_compute. repeat split. discriminate. Qed.

(** C10, as stated, fails when one of the names is empty: the similarity is
    0.0 although the normalized forms are equal. *)
Lemma initial_against_empty_name :
  normalize_name (lit "Q") = normalize_name (lit "")
  /\ filter longer_than_one (split (name_cleaned (lit "Q")))
     = filter longer_than_one (split (name_cleaned (lit "")))
  /\ match_confidence (match_names (lit "Q") (lit "")) = 0%Q
  /\ is_match (match_names (lit "Q") (lit "")) = false
  /\ ~ (match_confidence (match_names (lit "Q") (lit "")) == 1)%Q.
Proof. vm_compute. repeat split. discriminate. Qed.

(** ** The academic period *)

Section AcademicPeriod.
Context {U : UnicodeData}.

Lemma raise_with_range (lo hi b : Z) (text : str) (acc : Z) (p : regex) :
  (b <= acc <= hi)%Z -> (b <= raise_with lo hi text acc p <= hi)%Z.
Proof.
  intros H. unfold raise_with. destruct (search true p text) as [m|]; [|assumption].
  destruct ((lo <=? int_of (group_str m 1))%Z
            && (int_of (group_str m 1) <=? hi)%Z) eqn:E; [|assumption].
  apply andb_true_iff in E as [_ E]. apply Z.leb_le in E. lia.
Qed.

Lemma fold_raise_range (lo hi b : Z) (text : str) (ps : list regex) :
  forall acc, (b <= acc <= hi)%Z ->
  (b <= fold_left (raise_with lo hi text) ps acc <= hi)%Z.
Proof.
  induction ps as [|p ps IH]; intros acc H; simpl; [assumption|].
  apply IH. now apply raise_with_range.
Qed.

(** C6, amended: the year lies between 0 and 6, where 0 stands for a text
    in which no year was found, and the semester between 1 and 2. *)
Theorem academic_period_range (text : str) :
  (0 <= fst (_extract_academic_period text) <= 6)%Z
  /\ (1 <= snd (_extract_academic_period text) <= 2)%Z.
Proof.
  unfold _extract_academic_period.
  pose proof (fold_raise_range 1 6 0 text year_patterns 0%Z ltac:(lia)) as Hy.
  pose proof (fold_raise_range 1 2 2 text sem_patterns 2%Z ltac:(lia)) as Hs.
  destruct (sorted_entries _) as [|latest_entry rest]; cbn [fst snd]; lia.
Qed.

(** The semester is the default 2 on every text: a value that is found is
    at most 2 and only raises the default. *)
Lemma semester_is_default (text : str) :
  snd (_extract_academic_period text) = 2%Z.
Proof.
  unfold _extract_academic_period.
  pose proof (fold_raise_range 1 2 2 text sem_patterns 2%Z ltac:(lia)) as Hs.
  destruct (sorted_entries _) as [|latest_entry rest]; cbn [fst snd]; lia.
Qed.

(** The year is 0 on the empty text, whatever the Unicode tables. *)
Lemma academic_period_empty : _extract_academic_period [] = (0%Z, 2%Z).
Proof. reflexivity. Qed.

End AcademicPeriod.

(** ** The name matcher *)

Section NameMatcherFacts.
Context {U : UnicodeData}.

Lemma Qle_bool_floor (x : Q) : Qle_bool (7 # 10) (qmax (8 # 10) x) = true.
Proof. rewrite Qle_bool_qmax. reflexivity. Qed.

(** C7, amended: [is_match] is the same in both orders whenever the ratio
    of the sequence matcher on the two normalized names passes the
    threshold 0.7 in both orders or in neither. *)
Theorem match_names_symmetric (a b : str) :
  Qle_bool (7 # 10)
    (SequenceMatcher.ratio (normalize_name a) (normalize_name b))
  = Qle_bool (7 # 10)
      (SequenceMatcher.ratio (normalize_name b) (normalize_name a)) ->
  is_match (match_names a b) = is_match (match_names b a).
Proof.
  intros Hratio. unfold match_names, calculate_similarity. cbn [is_match].
  rewrite (orb_comm (is_empty b) (is_empty a)).
  destruct (is_empty a || is_empty b); [reflexivity|].
  rewrite (str_eqb_sym (normalize_name b) (normalize_name a)).
  destruct (str_eqb (normalize_name a) (normalize_name b)); [reflexivity|].
  set (p := to_set (split (normalize_name a))).
  set (q := to_set (split (normalize_name b))).
  rewrite (orb_comm (issubset q p) (issubset p q)).
  destruct (issubset p q || issubset q p).
  - now rewrite !Qle_bool_floor.
  - assert (Hlen : length (intersection p q) = length (intersection q p)).
    { apply intersection_length; apply NoDup_nodup. }
    rewrite Hlen, (Nat.max_comm (length q) (length p)).
    destruct (negb (Nat.eqb (length (intersection q p)) 0)).
    + rewrite !Qle_bool_qmax. now rewrite Hratio.
    + assumption.
Qed.

End NameMatcherFacts.

Lemma match_names_symmetric_witness :
  is_match (match_names (lit "John Doe") (lit "Jon Doe"))
  = is_match (match_names (lit "Jon Doe") (lit "John Doe")).
Proof.
  apply (match_names_symmetric (lit "John Doe") (lit "Jon Doe")).
  vm_compute. reflexivity.
Defined.

Section InitialsFacts.
Context {U : UnicodeData}.

(** C10, amended: two names that are not empty and have the same parts once
    the parts of one letter are left out have the same normalized form, and
    [match_names] gives them similarity 1.0 and [is_match] true. *)
Theorem initials_do_not_matter (a b : str) :
  a <> [] -> b <> [] ->
  filter longer_than_one (split (name_cleaned a))
    = filter longer_than_one (split (name_cleaned b)) ->
  normalize_name a = normalize_name b
  /\ match_confidence (match_names a b) = 1%Q
  /\ is_match (match_names a b) = true.
Proof.
  intros Ha Hb Hparts.
  assert (Hnorm : normalize_name a = normalize_name b).
  { unfold normalize_name. rewrite Hparts.
    destruct a; [contradiction|]. destruct b; [contradiction|]. reflexivity. }
  split; [assumption|].
  unfold match_names, calculate_similarity. cbn [match_confidence is_match].
  destruct a; [contradiction|]. destruct b; [contradiction|]. cbn [is_empty orb].
  rewrite Hnorm, str_eqb_refl. split; reflexivity.
Qed.

End InitialsFacts.

Lemma initials_do_not_matter_witness :
  normalize_name (lit "John Q Doe") = normalize_name (lit "John Doe")
  /\ is_match (match_names (lit "John Q Doe") (lit "John Doe")) = true.
Proof.
  destruct (initials_do_not_matter (lit "John Q Doe") (lit "John Doe"))
    as (Hn & _ & Hm).
  - discriminate.
  - discriminate.
  - vm_compute. reflexivity.
  - split; assumption.
Defined.

(** ** What a scan can return

    Every character of a match, of a group and of the text a substitution
    returns is a character of the subject or of the replacement. *)

Section Preservation.
Context {U : UnicodeData}.
Variable P : char -> Prop.

Lemma Forall_firstn_str (n : nat) (s : str) :
  Forall P s -> Forall P (firstn n s).
Proof.
  revert s; induction n as [|n IH]; intros [|c s] H; simpl; try constructor.
  - now inversion H.
  - apply IH. now inversion H.
Qed.

Lemma Forall_skipn_str (n : nat) (s : str) :
  Forall P s -> Forall P (skipn n s).
Proof.
  revert s; induction n as [|n IH]; intros [|c s] H; simpl; try assumption.
  apply IH. now inversion H.
Qed.

Lemma Forall_replace_from (old new : str) (s : str) :
  Forall P new -> Forall P s ->
  forall skip, Forall P (replace_from old new s skip).
Proof.
  intros Hnew. induction s as [|c s IH]; intros Hs skip; simpl; [constructor|].
  inversion Hs as [|? ? Hc Hs']; subst.
  destruct skip as [|k]; [|now apply IH].
  destruct (starts_with old (c :: s)).
  - apply Forall_app. split; [assumption|now apply IH].
  - constructor; [assumption|now apply IH].
Qed.

Lemma Forall_replace (old new : str) (s : str) :
  Forall P new -> Forall P s -> Forall P (replace old new s).
Proof. intros Hn Hs. now apply Forall_replace_from. Qed.

Lemma Forall_lstrip (s : str) : Forall P s -> Forall P (lstrip s).
Proof.
  induction s as [|c s IH]; intros H; simpl; [constructor|].
  destruct (is_space c); [|assumption]. apply IH. now inversion H.
Qed.

Lemma Forall_strip (s : str) : Forall P s -> Forall P (strip s).
Proof.
  intros H. unfold strip, rstrip.
  apply Forall_rev, Forall_lstrip, Forall_rev. now apply Forall_lstrip.
Qed.

Lemma Forall_split_on (sep : char) (s : str) :
  Forall P s -> Forall (Forall P) (split_on sep s).
Proof.
  induction s as [|c s IH]; intros H; simpl.
  - repeat constructor.
  - inversion H as [|? ? Hc Hs]; subst. specialize (IH Hs).
    destruct (char_eqb c sep).
    + constructor; [constructor|assumption].
    + destruct (split_on sep s) as [|l ls].
      * repeat constructor. assumption.
      * inversion IH; subst. constructor; [now constructor|assumption].
  Qed.

Lemma Forall_join (sep : str) (parts : list str) :
  Forall P sep -> Forall (Forall P) parts -> Forall P (join sep parts).
Proof.
  intros Hsep. induction parts as [|p ps IH]; intros H; simpl; [constructor|].
  inversion H as [|? ? Hp Hps]; subst.
  destruct ps as [|q ps]; [assumption|].
  apply Forall_app. split; [assumption|].
  apply Forall_app. split; [assumption|now apply IH].
Qed.

(** A match whose text and groups are made of characters with [P]. *)
Definition found_ok (m : found) : Prop :=
  Forall P (found_text m)
  /\ Forall (fun g => match g with Some t => Forall P t | None => True end)
            (found_groups m).

Definition piece_ok (p : piece) : Prop :=
  match p with
  | Outside c => P c
  | Inside m => found_ok m
  end.

Lemma found_at_ok (r : regex) (s : str) (res : nat * caps) :
  Forall P s -> found_ok (found_at r s res).
Proof.
  intros H. split; simpl.
  - now apply Forall_firstn_str.
  - apply Forall_forall. intros g Hg. apply in_map_iff in Hg as [i [<- _]].
    destruct (span_of i (snd res)) as [sp|]; simpl; [|exact I].
    now apply Forall_firstn_str, Forall_skipn_str.
Qed.

Lemma scan_ok (ic : bool) (r : regex) (s : str) :
  Forall P s ->
  forall prev skip, Forall piece_ok (scan ic r prev s skip).
Proof.
  induction s as [|c s IH]; intros Hs prev skip.
  - destruct skip as [|k]; simpl; [|constructor].
    destruct (match_here ic r prev [] false) as [[[|n] g]|];
      [|repeat constructor; now apply found_at_ok|constructor].
    constructor; [now apply found_at_ok|].
    destruct (match_here ic r prev [] true) as [[[|n] g']|];
      repeat constructor; now apply found_at_ok.
  - assert (Hs' : Forall P s) by now inversion Hs.
    assert (Hc : P c) by now inversion Hs.
    destruct skip as [|k]; simpl; [|now apply IH].
    destruct (match_here ic r prev (c :: s) false) as [[[|n] g]|].
    + constructor; [now apply found_at_ok|].
      destruct (match_here ic r prev (c :: s) true) as [[[|n] g']|].
      * constructor; [assumption|now apply IH].
      * constructor; [now apply found_at_ok|now apply IH].
      * constructor; [assumption|now apply IH].
    + constructor; [now apply found_at_ok|now apply IH].
    + constructor; [assumption|now apply IH].
Qed.

Lemma matches_of_ok (ps : list piece) :
  Forall piece_ok ps -> Forall found_ok (matches_of ps).
Proof.
  induction ps as [|[c|m] ps IH]; intros H; simpl.
  - constructor.
  - apply IH. now inversion H.
  - inversion H; subst. constructor; [assumption|now apply IH].
Qed.

Lemma finditer_ok (ic : bool) (r : regex) (s : str) :
  Forall P s -> Forall found_ok (finditer ic r s).
Proof. intros H. now apply matches_of_ok, scan_ok. Qed.

Lemma search_ok (ic : bool) (r : regex) (s : str) (m : found) :
  Forall P s -> search ic r s = Some m -> found_ok m.
Proof.
  intros H. unfold search. pose proof (finditer_ok ic r s H) as Hall.
  destruct (finditer ic r s) as [|m' ms]; simpl; [discriminate|].
  intros [= <-]. now inversion Hall.
Qed.

Lemma sub_ok (ic : bool) (r : regex) (repl s : str) :
  Forall P repl -> Forall P s -> Forall P (sub ic r repl s).
Proof.
  intros Hrepl Hs. unfold sub. pose proof (scan_ok ic r s Hs None 0) as Hall.
  induction (scan ic r None s 0) as [|[c|m] ps IH]; simpl; [constructor| |].
  - inversion Hall; subst. constructor; [assumption|now apply IH].
  - inversion Hall; subst. apply Forall_app. split; [assumption|now apply IH].
Qed.

Lemma group_str_ok (m : found) (i : nat) :
  found_ok m -> Forall P (group_str m i).
Proof.
  intros [Ht Hg]. unfold group_str, group. destruct i as [|j]; [assumption|].
  destruct (nth_in_or_default j (found_groups m) None) as [Hin | ->];
    [|constructor].
  rewrite Forall_forall in Hg. specialize (Hg _ Hin).
  destruct (nth j (found_groups m) None); [assumption|constructor].
Qed.

Lemma groups_tuple_ok (m : found) :
  found_ok m -> Forall (Forall P) (groups_tuple m).
Proof.
  intros [_ Hg]. unfold groups_tuple. apply Forall_forall. intros t Ht.
  apply in_map_iff in Ht as [g [<- Hin]].
  rewrite Forall_forall in Hg. specialize (Hg _ Hin).
  destruct g; [assumption|constructor].
Qed.

End Preservation.

(** ** The cleaned text holds no digit 0 and no digit 1 *)

Section NoZeroNoOne.
Context {U : UnicodeData}.

(** The characters other than the digits 0 and 1. *)
Definition not01 (c : char) : Prop := c <> 48%N /\ c <> 49%N.

Lemma not01_lit_checked (s : str) :
  forallb (fun c => negb (N.eqb c 48) && negb (N.eqb c 49)) s = true ->
  Forall not01 s.
Proof.
  intros H. apply Forall_forall. intros c Hc.
  rewrite forallb_forall in H. specialize (H c Hc).
  apply andb_true_iff in H as [H0 H1].
  apply negb_true_iff, N.eqb_neq in H0, H1. now split.
Qed.

Lemma replace_single_removes (c : char) (new s : str) :
  ~ In c new -> forall skip, ~ In c (replace_from [c] new s skip).
Proof.
  intros Hnew. induction s as [|x s IH]; intros skip; simpl; [tauto|].
  destruct skip as [|k]; [|apply IH].
  unfold char_eqb. destruct (N.eqb c x) eqn:E; simpl.
  - intros H. apply in_app_or in H as [H|H]; [tauto|]. now apply IH in H.
  - apply N.eqb_neq in E. intros [H|H]; [congruence|]. now apply IH in H.
Qed.

Lemma not_In_Forall_neq (c : char) (s : str) :
  ~ In c s -> Forall (fun x => x <> c) s.
Proof.
  intros H. apply Forall_forall. intros x Hx ->. contradiction.
Qed.

Lemma apply_replacements_not01 (s : str) : Forall not01 (apply_replacements s).
Proof.
  unfold apply_replacements, replacements. cbn [fold_left fst snd].
  set (s1 := replace (lit "cl") (lit "d") (replace (lit "rn") (lit "m") s)).
  set (s2 := replace (lit "0") (lit "O") s1).
  set (s3 := replace (lit "1") (lit "I") s2).
  assert (H0 : Forall (fun x => x <> 48%N) s2).
  { apply not_In_Forall_neq. apply replace_single_removes.
    cbv. intros [H|[]]. discriminate. }
  assert (H0' : Forall (fun x => x <> 48%N) s3).
  { apply Forall_replace; [|assumption].
    repeat constructor. cbv. discriminate. }
  assert (H1 : Forall (fun x => x <> 49%N) s3).
  { apply not_In_Forall_neq. apply replace_single_removes.
    cbv. intros [H|[]]. discriminate. }
  assert (H3 : Forall not01 s3).
  { rewrite Forall_forall in *. intros x Hx. split; auto. }
  apply Forall_replace; [now apply not01_lit_checked|].
  apply Forall_replace; [now apply not01_lit_checked|assumption].
Qed.

Lemma clean_text_not01 (text : str) : Forall not01 (clean_text text).
Proof.
  unfold clean_text. destruct (is_empty text); [constructor|].
  apply Forall_strip, sub_ok; [now apply not01_lit_checked|].
  apply apply_replacements_not01.
Qed.

Lemma py_upper_not01 (s : str) : Forall not01 s -> Forall not01 (py_upper s).
Proof.
  intros H. unfold py_upper. apply Forall_forall. intros d Hd.
  apply in_flat_map in Hd as [c [Hc Hd]].
  rewrite Forall_forall in H. destruct (H c Hc) as [H0 H1].
  split; intros ->.
  - apply H0. now apply (upper_digit c 48%N).
  - apply H1. now apply (upper_digit c 49%N).
Qed.

Lemma _extract_student_id_not01 (text : str) :
  Forall not01 text -> Forall not01 (_extract_student_id text).
Proof.
  intros H. unfold _extract_student_id.
  assert (Hfirst : forall ps m, first_search ps text = Some m ->
                                found_ok not01 m).
  { induction ps as [|p ps IH]; intros m; simpl; [discriminate|].
    destruct (search true p text) as [m'|] eqn:E; [|apply IH].
    intros [= <-]. now apply (search_ok not01 true p text). }
  destruct (first_search student_id_patterns text) as [m|] eqn:E;
    [|constructor].
  apply py_upper_not01, group_str_ok. now apply (Hfirst student_id_patterns).
Qed.

Lemma normalized_not01 (c : str) : Forall not01 c -> Forall not01 (normalized c).
Proof.
  intros H. unfold normalized. apply py_upper_not01, Forall_replace;
    [constructor|assumption].
Qed.

Lemma code_of_not01 (x : str) : Forall not01 x -> Forall not01 (code_of x).
Proof.
  intros H. unfold code_of, extract_course_code.
  pose proof (normalized_not01 x H) as Hn. unfold normalized in Hn.
  destruct (search false course_code_re (py_upper x)) as [m|] eqn:E;
    [|assumption].
  destruct (is_empty (group_str m 1 ++ group_str m 2)); [assumption|].
  apply search_ok with (P := not01) in E; [|now apply py_upper_not01].
  apply Forall_app. split; now apply group_str_ok.
Qed.

(** The units whose code holds no 0 and no 1. *)
Definition codes_ok (us : list CleanedUnit) : Prop :=
  Forall (fun u => Forall not01 (code u)) us.

Lemma _parse_unit_match_not01 (m : list str) (u : CleanedUnit) :
  Forall (Forall not01) m -> _parse_unit_match m = Some u ->
  Forall not01 (code u).
Proof.
  intros H. unfold _parse_unit_match.
  destruct m as [|c [|t [|g [|g' [|x m]]]]]; try discriminate.
  - destruct (negb (_is_valid_grade (normalize_grade g))); [discriminate|].
    intros [= <-]. simpl. apply code_of_not01. now inversion H.
  - destruct (negb (_is_valid_grade (normalize_grade g'))); [discriminate|].
    intros [= <-]. simpl. apply code_of_not01. now inversion H.
Qed.

Lemma codes_ok_snoc (us : list CleanedUnit) (u : CleanedUnit) :
  codes_ok us -> Forall not01 (code u) -> codes_ok (us ++ [u]).
Proof.
  intros H Hu. apply Forall_app. split; [assumption|now constructor].
Qed.

Lemma take_match_ok (st : acc) (m : found) :
  found_ok not01 m -> codes_ok (fst st) -> codes_ok (fst (take_match st m)).
Proof.
  intros Hm Hst. unfold take_match.
  destruct (_parse_unit_match (groups_tuple m)) as [u|] eqn:E; [|assumption].
  destruct (_is_valid_unit u); [|assumption]. simpl.
  apply codes_ok_snoc; [assumption|].
  apply (_parse_unit_match_not01 (groups_tuple m)); [|assumption].
  now apply groups_tuple_ok.
Qed.

Lemma fold_take_match_ok (ms : list found) :
  Forall (found_ok not01) ms ->
  forall st, codes_ok (fst st) -> codes_ok (fst (fold_left take_match ms st)).
Proof.
  induction ms as [|m ms IH]; intros H st Hst; simpl; [assumption|].
  inversion H; subst. apply IH; [assumption|]. now apply take_match_ok.
Qed.

Lemma take_pattern_ok (line : str) (st : acc) (p : regex) :
  Forall not01 line -> codes_ok (fst st) ->
  codes_ok (fst (take_pattern line st p)).
Proof.
  intros Hl Hst. unfold take_pattern.
  apply fold_take_match_ok; [|assumption]. now apply finditer_ok.
Qed.

Lemma take_course_code_ok (st : acc) (c : str) :
  Forall not01 c -> codes_ok (fst st) ->
  codes_ok (fst (take_course_code st c)).
Proof.
  intros Hc Hst. unfold take_course_code.
  destruct (negb (mem_str (normalized c) (snd st))
            && (5 <=? length (normalized c))); [|assumption].
  simpl. now apply codes_ok_snoc.
Qed.

Lemma take_simple_ok (st : acc) (c : str) :
  Forall not01 c -> codes_ok (fst st) -> codes_ok (fst (take_simple st c)).
Proof.
  intros Hc Hst. unfold take_simple.
  destruct (negb (mem_str (normalized c) (snd st))); [|assumption].
  simpl. now apply codes_ok_snoc.
Qed.

Lemma fold_ok {A : Type} (Q : A -> Prop) (f : acc -> A -> acc) (l : list A) :
  (forall st x, Q x -> codes_ok (fst st) -> codes_ok (fst (f st x))) ->
  Forall Q l ->
  forall st, codes_ok (fst st) -> codes_ok (fst (fold_left f l st)).
Proof.
  intros Hf. induction l as [|x l IH]; intros H st Hst; simpl; [assumption|].
  inversion H; subst. apply IH; [assumption|]. now apply Hf.
Qed.

Lemma take_line_ok (st : acc) (line : str) :
  Forall not01 line -> codes_ok (fst st) -> codes_ok (fst (take_line st line)).
Proof.
  intros Hl Hst. unfold take_line.
  pose proof (Forall_strip not01 line Hl) as Hs.
  destruct (length (strip line) <? 5); [assumption|].
  destruct (existsb _ skip_words); [assumption|].
  assert (Hpat : codes_ok
            (fst (fold_left (take_pattern (strip line)) unit_patterns st))).
  { apply (fold_ok (fun _ => True)); [|now apply Forall_forall|assumption].
    intros st' p _ H. now apply take_pattern_ok. }
  destruct (negb (existsb _ unit_patterns)); [|assumption].
  apply (fold_ok (Forall not01)); [|clear Hpat|assumption].
  - intros st' c Hc H. now apply take_course_code_ok.
  - apply Forall_forall. intros c Hc. apply in_map_iff in Hc as [m [<- Hm]].
    apply group_str_ok.
    pose proof (finditer_ok not01 false course_code_pattern (strip line) Hs) as H.
    rewrite Forall_forall in H. now apply H.
Qed.

Lemma _extract_units_not01 (text : str) :
  Forall not01 text -> codes_ok (_extract_units text).
Proof.
  intros H. unfold _extract_units.
  pose proof (Forall_split_on not01 10%N text H) as Hlines.
  set (lines := split_on 10%N text) in *.
  assert (Hst : codes_ok (fst (fold_left take_line lines ([], [])))).
  { apply (fold_ok (Forall not01)); [|assumption|constructor].
    intros st line Hl Hs. now apply take_line_ok. }
  destruct (Nat.eqb (length (fst (fold_left take_line lines ([], [])))) 0);
    [|assumption].
  apply (fold_ok (fun _ => True)); [|now apply Forall_forall|assumption].
  intros st p _ Hs. apply (fold_ok (Forall not01)); [| |assumption].
  - intros st' c Hc Hs'. now apply take_simple_ok.
  - apply Forall_forall. intros c Hc. apply in_map_iff in Hc as [m [<- Hm]].
    assert (Hall : Forall not01 (join (lit " ") lines)).
    { apply Forall_join; [now apply not01_lit_checked|assumption]. }
    pose proof (finditer_ok not01 false p _ Hall) as Hf.
    rewrite Forall_forall in Hf. now apply Hf.
Qed.

(** C2: the cleaned text holds no character '0' and no character '1', and
    neither does the student ID nor the code of any unit that
    [extract_structured_data] extracts from it. *)
Theorem no_zero_no_one_after_cleaning (text : str) :
  let data := extract_structured_data text in
  ~ In 48%N (clean_text text) /\ ~ In 49%N (clean_text text)
  /\ ~ In 48%N (student_id data) /\ ~ In 49%N (student_id data)
  /\ forall u, In u (units data) -> ~ In 48%N (code u) /\ ~ In 49%N (code u).
Proof.
  assert (Hnot : forall s, Forall not01 s -> ~ In 48%N s /\ ~ In 49%N s).
  { intros s Hs. rewrite Forall_forall in Hs.
    split; intros Hin; destruct (Hs _ Hin); congruence. }
  pose proof (clean_text_not01 text) as Hclean.
  intros data. subst data. unfold extract_structured_data.
  destruct (_extract_academic_period (clean_text text)) as [y s]. cbn [student_id units].
  destruct (Hnot _ Hclean) as [H0 H1].
  destruct (Hnot _ (_extract_student_id_not01 _ Hclean)) as [I0 I1].
  repeat (split; [assumption|]).
  intros u Hu. apply Hnot.
  pose proof (_extract_units_not01 _ Hclean) as Hunits.
  unfold codes_ok in Hunits. rewrite Forall_forall in Hunits. now apply Hunits.
Qed.

End NoZeroNoOne.

(** ** Substitutions of one character class and of its runs *)

Section ClassSubstitution.
Context {U : UnicodeData}.
Variable cs : cset.
Variable repl : str.

Definition in_class (c : char) : bool := cset_mem false cs c.

(** The length of the run of class characters that [s] starts with. *)
Fixpoint run (s : str) : nat :=
  match s with
  | c :: s' => if in_class c then S (run s') else 0
  | [] => 0
  end.

(** [re.sub] for the class under [+], read off the text: the first
    character of a run gives the replacement, the others give nothing. *)
Fixpoint collapse (in_run : bool) (s : str) : str :=
  match s with
  | [] => []
  | c :: s' =>
      if in_class c
      then (if in_run then collapse true s' else repl ++ collapse true s')
      else c :: collapse false s'
  end.

Definition rendered (ps : list piece) : str :=
  flat_map (fun p => match p with Outside c => [c] | Inside _ => repl end) ps.

Lemma sub_class (s : str) :
  sub false (Chr cs) repl s
  = flat_map (fun c => if in_class c then repl else [c]) s.
Proof.
  unfold sub. generalize (@None char).
  induction s as [|c s IH]; intros prev; [reflexivity|].
  cbn [scan flat_map]. unfold match_here. cbn [rmatch]. unfold in_class.
  destruct (cset_mem false cs c); cbn [andb Nat.eqb flat_map];
    now rewrite IH.
Qed.

Lemma star_run (s : str) :
  forall prev pos g,
  star false cs prev s pos g (fun _ _ pos' g' => Some (pos', g'))
  = Some (pos + run s, g).
Proof.
  induction s as [|c s IH]; intros prev pos g; cbn [star run].
  - now rewrite Nat.add_0_r.
  - unfold in_class. destruct (cset_mem false cs c).
    + rewrite IH. f_equal. f_equal. lia.
    + now rewrite Nat.add_0_r.
Qed.

Lemma match_here_plus (prev : option char) (s : str) :
  match_here false (Plus cs) prev s false
  = match s with
    | c :: s' => if in_class c then Some (S (run s'), []) else None
    | [] => None
    end.
Proof.
  unfold match_here, Plus. cbn [rmatch andb].
  destruct s as [|c s]; [reflexivity|]. unfold in_class.
  destruct (cset_mem false cs c); [|reflexivity]. apply star_run.
Qed.

Lemma scan_plus (s : str) :
  forall prev,
  rendered (scan false (Plus cs) prev s 0) = collapse false s
  /\ rendered (scan false (Plus cs) prev s (run s)) = collapse true s.
Proof.
  induction s as [|c s IH]; intros prev.
  - split; cbn [scan run]; rewrite match_here_plus; reflexivity.
  - assert (H0 : rendered (scan false (Plus cs) prev (c :: s) 0)
                 = collapse false (c :: s)).
    { cbn [scan]. rewrite match_here_plus. cbn [collapse].
      destruct (in_class c); cbn [rendered flat_map];
        fold (rendered (scan false (Plus cs) (Some c) s (run s)));
        fold (rendered (scan false (Plus cs) (Some c) s 0)).
      - now rewrite (proj2 (IH (Some c))).
      - now rewrite (proj1 (IH (Some c))). }
    split; [assumption|].
    cbn [run collapse]. destruct (in_class c) eqn:E.
    + cbn [scan]. apply IH.
    + rewrite H0. cbn [collapse]. now rewrite E.
Qed.

Lemma sub_plus (s : str) : sub false (Plus cs) repl s = collapse false s.
Proof. apply (scan_plus s None). Qed.

End ClassSubstitution.

(** ** Normalizing a name twice *)

Ltac bool_to_prop :=
  repeat match goal with
  | H : _ && _ = true |- _ => apply andb_true_iff in H; destruct H
  | H : _ || _ = true |- _ => apply orb_true_iff in H; destruct H
  | H : _ && _ = false |- _ => apply andb_false_iff in H; destruct H
  | H : _ || _ = false |- _ => apply orb_false_iff in H; destruct H
  | H : (_ <=? _)%N = true |- _ => apply N.leb_le in H
  | H : (_ <=? _)%N = false |- _ => apply N.leb_gt in H
  | H : (_ <? _)%N = true |- _ => apply N.ltb_lt in H
  | H : (_ <? _)%N = false |- _ => apply N.ltb_ge in H
  end.

Ltac ascii_case c :=
  unfold ascii_letter, ascii_upper_letter, ascii_lower_letter, ascii_space,
    ascii_to_lower, is_ascii in *;
  repeat match goal with
  | |- context [(?a <=? c)%N] => destruct (a <=? c)%N eqn:?
  | |- context [(c <=? ?a)%N] => destruct (c <=? a)%N eqn:?
  end;
  cbn [andb orb] in *; bool_to_prop; try reflexivity; try discriminate;
  try lia.

Section NormalizeTwice.
Context {U : UnicodeData}.

Definition lowercase (c : char) : Prop := ascii_lower_letter c = true.

(** A part of a normalized name: lower-case letters, at least one. *)
Definition word (t : str) : Prop := t <> [] /\ Forall lowercase t.

(** The characters of a cleaned name. *)
Definition lowercase_or_blank (c : char) : Prop := lowercase c \/ c = 32%N.

Lemma letter_is_ascii (c : char) : ascii_letter c = true -> is_ascii c.
Proof. intros H. ascii_case c. Qed.

Lemma lowercase_is_letter (c : char) : lowercase c -> ascii_letter c = true.
Proof. unfold lowercase. intros H. ascii_case c. Qed.

Lemma lowercase_not_space (c : char) : lowercase c -> is_space c = false.
Proof.
  intros H. rewrite is_space_ascii.
  - unfold lowercase in H. ascii_case c.
  - now apply letter_is_ascii, lowercase_is_letter.
Qed.

Lemma blank_is_space : is_space 32%N = true.
Proof. rewrite is_space_ascii; [reflexivity|]. unfold is_ascii. lia. Qed.

Lemma lower_of_letter (c : char) :
  ascii_letter c = true ->
  lower c = [ascii_to_lower c] /\ lowercase (ascii_to_lower c).
Proof.
  intros H. split.
  - apply lower_ascii. now apply letter_is_ascii.
  - unfold lowercase, ascii_to_lower.
    destruct (ascii_upper_letter c) eqn:E.
    + unfold ascii_upper_letter in E. unfold ascii_lower_letter.
      bool_to_prop. apply andb_true_iff. split; apply N.leb_le; lia.
    + unfold ascii_letter in H. now rewrite E in H.
Qed.

Lemma lower_of_lowercase (c : char) : lowercase c -> lower c = [c].
Proof.
  intros H. rewrite lower_ascii.
  - unfold ascii_to_lower. destruct (ascii_upper_letter c) eqn:E; [|reflexivity].
    exfalso. unfold lowercase, ascii_lower_letter in H.
    unfold ascii_upper_letter in E. bool_to_prop. lia.
  - now apply letter_is_ascii, lowercase_is_letter.
Qed.

Lemma lower_of_blank : lower 32%N = [32%N].
Proof. rewrite lower_ascii; [reflexivity|]. unfold is_ascii. lia. Qed.

Lemma lowercase_or_blank_ascii (c : char) : lowercase_or_blank c -> is_ascii c.
Proof.
  intros [H | ->].
  - now apply letter_is_ascii, lowercase_is_letter.
  - unfold is_ascii. lia.
Qed.

Lemma in_class_letter (c : char) : in_class c_Aa c = ascii_letter c.
Proof.
  unfold in_class, c_Aa, c_AZ, c_az. cbn [cset_mem andb].
  unfold ascii_letter, ascii_upper_letter, ascii_lower_letter.
  now rewrite !orb_false_r.
Qed.

(** *** The first pass: the parts are words *)

Lemma sub_letters_or_space (s : str) :
  Forall (fun c => ascii_letter c = true \/ is_space c = true)
         (sub false (Chr (CNot (COr c_Aa CSpace))) [] s).
Proof.
  rewrite sub_class. apply Forall_forall. intros c Hc.
  apply in_flat_map in Hc as [x [_ Hx]].
  unfold in_class in Hx. cbn [cset_mem] in Hx.
  fold (in_class c_Aa x) in Hx. rewrite in_class_letter in Hx.
  destruct (ascii_letter x || is_space x) eqn:E; cbn [negb] in Hx.
  - destruct Hx as [<- | []]. now apply orb_true_iff in E.
  - destruct Hx.
Qed.

Lemma collapse_letters_or_blank (s : str) :
  Forall (fun c => ascii_letter c = true \/ is_space c = true) s ->
  forall in_run,
  Forall (fun c => ascii_letter c = true \/ c = 32%N)
         (collapse CSpace (lit " ") in_run s).
Proof.
  induction s as [|c s IH]; intros H in_run; cbn [collapse]; [constructor|].
  inversion H as [|? ? Hc Hs]; subst.
  unfold in_class. cbn [cset_mem]. destruct (is_space c) eqn:E.
  - destruct in_run; [now apply IH|].
    constructor; [now right|now apply IH].
  - constructor; [|now apply IH].
    destruct Hc as [Hc | Hc]; [now left|congruence].
Qed.

Lemma py_lower_cleaned (s : str) :
  Forall (fun c => ascii_letter c = true \/ c = 32%N) s ->
  Forall lowercase_or_blank (py_lower s).
Proof.
  induction s as [|c s IH]; intros H; [constructor|].
  inversion H as [|? ? Hc Hs]; subst. unfold py_lower. cbn [flat_map].
  apply Forall_app. split; [|now apply IH].
  destruct Hc as [Hc | ->].
  - destruct (lower_of_letter c Hc) as [-> Hl]. constructor; [now left|constructor].
  - rewrite lower_of_blank. constructor; [now right|constructor].
Qed.

Lemma name_cleaned_chars (name : str) :
  Forall lowercase_or_blank (name_cleaned name).
Proof.
  unfold name_cleaned. apply py_lower_cleaned, Forall_strip.
  rewrite sub_plus. apply collapse_letters_or_blank, sub_letters_or_space.
Qed.

Lemma split_from_words (s : str) :
  Forall lowercase_or_blank s ->
  forall cur, Forall lowercase cur -> Forall word (split_from cur s).
Proof.
  induction s as [|c s IH]; intros Hs cur Hcur; cbn [split_from].
  - destruct cur as [|x cur]; cbn [is_empty]; [constructor|].
    constructor; [|constructor].
    split; [|now apply Forall_rev].
    intros E. apply (f_equal (@length char)) in E.
    rewrite length_rev in E. discriminate.
  - inversion Hs as [|? ? Hc Hs']; subst. destruct Hc as [Hc | ->].
    + rewrite (lowercase_not_space c Hc). apply IH; [assumption|].
      now constructor.
    + rewrite blank_is_space.
      destruct cur as [|x cur]; cbn [is_empty]; [now apply IH|].
      constructor; [|now apply IH].
      split; [|now apply Forall_rev].
      intros E. apply (f_equal (@length char)) in E.
      rewrite length_rev in E. discriminate.
Qed.

Lemma split_words (s : str) :
  Forall lowercase_or_blank s -> Forall word (split s).
Proof. intros H. now apply split_from_words. Qed.

(** *** Sorting *)

Definition str_le (s t : str) : Prop := str_leb s t = true.

Lemma str_leb_total (s t : str) : str_leb s t = false -> str_leb t s = true.
Proof.
  revert t; induction s as [|x s IH]; intros [|y t]; cbn [str_leb];
    try discriminate; try reflexivity.
  destruct (x <? y)%N; [discriminate|].
  destruct (y <? x)%N; [reflexivity|]. apply IH.
Qed.

Lemma insert_sorted_In (x y : str) (l : list str) :
  In y (insert_sorted x l) <-> y = x \/ In y l.
Proof.
  induction l as [|z l IH]; cbn [insert_sorted].
  - cbn. intuition congruence.
  - destruct (str_leb x z); cbn [In]; [intuition congruence|].
    rewrite IH. intuition congruence.
Qed.

Lemma sorted_In (y : str) (l : list str) : In y (sorted l) <-> In y l.
Proof.
  induction l as [|x l IH]; cbn [sorted]; [reflexivity|].
  rewrite insert_sorted_In, IH. cbn. intuition congruence.
Qed.

Lemma insert_sorted_Sorted (x : str) (l : list str) :
  Sorted str_le l -> Sorted str_le (insert_sorted x l).
Proof.
  induction l as [|y l IH]; intros H; cbn [insert_sorted].
  - repeat constructor.
  - destruct (str_leb x y) eqn:E.
    + constructor; [assumption|]. now constructor.
    + inversion H as [|? ? Hl Hhd]; subst. constructor; [now apply IH|].
      destruct l as [|z l]; cbn [insert_sorted].
      * constructor. now apply str_leb_total.
      * destruct (str_leb x z).
        -- constructor. now apply str_leb_total.
        -- constructor. now inversion Hhd.
Qed.

Lemma sorted_Sorted (l : list str) : Sorted str_le (sorted l).
Proof.
  induction l as [|x l IH]; cbn [sorted]; [constructor|].
  now apply insert_sorted_Sorted.
Qed.

Lemma sorted_of_Sorted (l : list str) : Sorted str_le l -> sorted l = l.
Proof.
  induction l as [|x l IH]; intros H; cbn [sorted]; [reflexivity|].
  inversion H as [|? ? Hl Hhd]; subst. rewrite (IH Hl).
  destruct l as [|y l]; [reflexivity|]. cbn [insert_sorted].
  inversion Hhd as [|? ? Hxy]; subst. unfold str_le in Hxy. now rewrite Hxy.
Qed.

Lemma filter_all {A : Type} (f : A -> bool) (l : list A) :
  Forall (fun x => f x = true) l -> filter f l = l.
Proof.
  induction l as [|x l IH]; intros H; cbn [filter]; [reflexivity|].
  inversion H as [|? ? Hx Hl]; subst. now rewrite Hx, (IH Hl).
Qed.

(** *** The second pass: a normalized name is left as it is *)

Definition blank : str := lit " ".

Definition starts_with_letter (s : str) : Prop :=
  match s with
  | [] => False
  | c :: _ => lowercase c
  end.

Lemma join_chars (parts : list str) :
  Forall word parts -> Forall lowercase_or_blank (join blank parts).
Proof.
  intros H. apply Forall_join.
  - change blank with [32%N]. constructor; [now right|constructor].
  - apply Forall_forall. intros t Ht. rewrite Forall_forall in H.
    destruct (H t Ht) as [_ Hl]. apply Forall_forall. intros c Hc.
    rewrite Forall_forall in Hl. left. now apply Hl.
Qed.

Lemma join_starts (p : str) (ps : list str) :
  word p -> starts_with_letter (join blank (p :: ps)).
Proof.
  intros [Hne Hl]. destruct p as [|c p]; [contradiction|].
  inversion Hl; subst. destruct ps; assumption.
Qed.

Lemma join_ends (parts : list str) :
  parts <> [] -> Forall word parts ->
  exists s c, join blank parts = s ++ [c] /\ lowercase c.
Proof.
  induction parts as [|p ps IH]; intros Hne H; [contradiction|].
  inversion H as [|? ? [Hp Hl] Hps]; subst.
  destruct ps as [|q ps].
  - destruct (exists_last Hp) as [s [c ->]]. exists s, c. split; [reflexivity|].
    apply Forall_app in Hl as [_ Hc]. now inversion Hc.
  - destruct (IH ltac:(discriminate) Hps) as [s [c [E Hc]]].
    exists (p ++ blank ++ s), c. split; [|assumption].
    change (join blank (p :: q :: ps)) with (p ++ blank ++ join blank (q :: ps)).
    rewrite E. now rewrite <- !app_assoc.
Qed.

Lemma strip_marks_ascii (s : str) : Forall is_ascii s -> strip_marks s = s.
Proof.
  intros H. unfold strip_marks. rewrite (nfd_ascii s H).
  apply filter_all. apply Forall_forall. intros c Hc.
  rewrite Forall_forall in H. now rewrite (is_Mn_ascii c (H c Hc)).
Qed.

Lemma sub_letters_id (s : str) :
  Forall lowercase_or_blank s ->
  sub false (Chr (CNot (COr c_Aa CSpace))) [] s = s.
Proof.
  intros H. rewrite sub_class. induction H as [|c s Hc Hs IH]; [reflexivity|].
  cbn [flat_map]. rewrite IH. unfold in_class at 1. cbn [cset_mem].
  fold (in_class c_Aa c). rewrite in_class_letter.
  destruct Hc as [Hc | ->].
  - now rewrite (lowercase_is_letter c Hc).
  - now rewrite blank_is_space, orb_true_r.
Qed.

Lemma collapse_word (in_run : bool) (t rest : str) :
  Forall lowercase t -> t <> [] ->
  collapse CSpace blank in_run (t ++ rest)
  = t ++ collapse CSpace blank false rest.
Proof.
  intros H. revert in_run. induction H as [|c t Hc Ht IH]; intros in_run Hne;
    [contradiction|].
  cbn [app collapse]. unfold in_class. cbn [cset_mem].
  rewrite (lowercase_not_space c Hc). f_equal.
  destruct t as [|d t]; [reflexivity|]. now apply IH.
Qed.

Lemma collapse_join (parts : list str) :
  Forall word parts ->
  forall in_run,
  (in_run = true -> parts <> []) ->
  collapse CSpace blank in_run (join blank parts) = join blank parts.
Proof.
  induction parts as [|p ps IH]; intros H in_run Hrun.
  - destruct in_run; [now destruct Hrun|reflexivity].
  - inversion H as [|? ? [Hp Hl] Hps]; subst.
    destruct ps as [|q ps].
    + cbn [join]. rewrite <- (app_nil_r p) at 1.
      rewrite (collapse_word in_run p [] Hl Hp). cbn [collapse].
      now rewrite app_nil_r.
    + change (join blank (p :: q :: ps))
        with (p ++ blank ++ join blank (q :: ps)).
      rewrite (collapse_word in_run p _ Hl Hp). f_equal.
      change (blank ++ join blank (q :: ps))
        with (32%N :: join blank (q :: ps)).
      cbn [collapse]. unfold in_class. cbn [cset_mem].
      rewrite blank_is_space. change (blank ++ ?x) with (32%N :: x).
      f_equal. apply IH; [assumption|discriminate].
Qed.

Lemma lstrip_letter (s : str) : starts_with_letter s -> lstrip s = s.
Proof.
  destruct s as [|c s]; intros H; [destruct H|]. cbn [lstrip].
  now rewrite (lowercase_not_space c H).
Qed.

Lemma strip_join (parts : list str) :
  Forall word parts -> strip (join blank parts) = join blank parts.
Proof.
  intros H. destruct parts as [|p ps]; [reflexivity|].
  unfold strip. rewrite lstrip_letter.
  - destruct (join_ends (p :: ps) ltac:(discriminate) H) as [s [c [-> Hc]]].
    unfold rstrip. rewrite rev_unit, lstrip_letter by assumption.
    cbn [rev]. now rewrite rev_involutive.
  - apply join_starts. now inversion H.
Qed.

Lemma py_lower_id (s : str) : Forall lowercase_or_blank s -> py_lower s = s.
Proof.
  intros H. unfold py_lower. induction H as [|c s Hc Hs IH]; [reflexivity|].
  cbn [flat_map]. rewrite IH. destruct Hc as [Hc | ->].
  - now rewrite (lower_of_lowercase c Hc).
  - now rewrite lower_of_blank.
Qed.

Lemma name_cleaned_join (parts : list str) :
  Forall word parts -> name_cleaned (join blank parts) = join blank parts.
Proof.
  intros H. pose proof (join_chars parts H) as Hch. unfold name_cleaned.
  fold blank. rewrite strip_marks_ascii.
  - rewrite (sub_letters_id _ Hch), sub_plus.
    rewrite (collapse_join parts H false ltac:(discriminate)).
    rewrite (strip_join parts H). now apply py_lower_id.
  - apply Forall_forall. intros c Hc. rewrite Forall_forall in Hch.
    now apply lowercase_or_blank_ascii, Hch.
Qed.

Lemma split_from_word (t : str) :
  Forall lowercase t ->
  forall cur rest, split_from cur (t ++ rest) = split_from (rev t ++ cur) rest.
Proof.
  intros H. induction H as [|c t Hc Ht IH]; intros cur rest; [reflexivity|].
  cbn [app split_from rev]. rewrite (lowercase_not_space c Hc), IH.
  now rewrite <- app_assoc.
Qed.

Lemma split_join (parts : list str) :
  Forall word parts -> split (join blank parts) = parts.
Proof.
  unfold split. induction parts as [|p ps IH]; intros H; [reflexivity|].
  inversion H as [|? ? [Hp Hl] Hps]; subst.
  assert (Hrev : is_empty (rev p ++ []) = false).
  { destruct p as [|c p]; [contradiction|]. cbn [rev].
    destruct (rev p); reflexivity. }
  destruct ps as [|q ps].
  - cbn [join]. rewrite <- (app_nil_r p) at 1.
    rewrite (split_from_word p Hl). cbn [split_from]. rewrite Hrev.
    now rewrite app_nil_r, rev_involutive.
  - change (join blank (p :: q :: ps))
      with (p ++ 32%N :: join blank (q :: ps)).
    rewrite (split_from_word p Hl). cbn [split_from].
    rewrite blank_is_space, Hrev, (IH Hps).
    now rewrite app_nil_r, rev_involutive.
Qed.

Lemma normalize_name_join (parts : list str) :
  Forall word parts ->
  Forall (fun t => longer_than_one t = true) parts ->
  Sorted str_le parts ->
  normalize_name (join blank parts) = join blank parts.
Proof.
  intros Hw Hl Hs. unfold normalize_name.
  destruct (is_empty (join blank parts)) eqn:E.
  - destruct (join blank parts); [reflexivity|discriminate].
  - fold blank. rewrite (name_cleaned_join parts Hw), (split_join parts Hw).
    now rewrite (filter_all _ parts Hl), (sorted_of_Sorted parts Hs).
Qed.

(** C9: normalizing a normalized name gives it back. *)
Theorem normalize_name_idempotent (name : str) :
  normalize_name (normalize_name name) = normalize_name name.
Proof.
  destruct name as [|c name]; [reflexivity|].
  unfold normalize_name at 2 3. cbn [is_empty]. fold blank.
  set (parts := filter longer_than_one (split (name_cleaned (c :: name)))).
  apply normalize_name_join.
  - apply Forall_forall. intros t Ht. apply (proj1 (sorted_In _ _)) in Ht.
    apply filter_In in Ht as [Ht _].
    pose proof (split_words _ (name_cleaned_chars (c :: name))) as H.
    rewrite Forall_forall in H. now apply H.
  - apply Forall_forall. intros t Ht. apply (proj1 (sorted_In _ _)) in Ht.
    now apply filter_In in Ht as [_ Ht].
  - apply sorted_Sorted.
Qed.

End NormalizeTwice.

(** * Further properties of the code embedded above *)

(** ** The white space of a cleaned text *)

Section CleanedSpacing.
Context {U : UnicodeData}.

Lemma collapse_spaces (s : str) :
  forall in_run,
  Forall (fun c => is_space c = true -> c = 32%N)
         (collapse CSpace (lit " ") in_run s).
Proof.
  induction s as [|c s IH]; intros in_run; cbn [collapse]; [constructor|].
  unfold in_class. cbn [cset_mem]. destruct (is_space c) eqn:E.
  - destruct in_run; [apply IH|]. constructor; [reflexivity|apply IH].
  - constructor; [congruence|apply IH].
Qed.

Lemma split_on_absent (sep : char) (s : str) :
  ~ In sep s -> split_on sep s = [s].
Proof.
  induction s as [|c s IH]; intros H; cbn [split_on]; [reflexivity|].
  unfold char_eqb. destruct (N.eqb c sep) eqn:E.
  - apply N.eqb_eq in E. subst. exfalso. apply H. now left.
  - rewrite IH; [reflexivity|]. intros Hin. apply H. now right.
Qed.

Lemma lstrip_head (s : str) (c : char) (rest : str) :
  lstrip s = c :: rest -> is_space c = false.
Proof.
  induction s as [|x s IH]; cbn [lstrip]; [discriminate|].
  destruct (is_space x) eqn:E; [assumption|]. intros [= <- _]. exact E.
Qed.

Lemma lstrip_suffix (s : str) : exists p, s = p ++ lstrip s.
Proof.
  induction s as [|x s [p IH]]; [now exists []|]. cbn [lstrip].
  destruct (is_space x).
  - exists (x :: p). cbn. now rewrite <- IH.
  - now exists [].
Qed.

Lemma rstrip_prefix (s : str) : exists q, s = rstrip s ++ q.
Proof.
  unfold rstrip. destruct (lstrip_suffix (rev s)) as [p E].
  exists (rev p). rewrite <- rev_app_distr, <- E. now rewrite rev_involutive.
Qed.

Lemma strip_ends (s : str) :
  (forall c rest, strip s = c :: rest -> is_space c = false)
  /\ (forall c front, strip s = front ++ [c] -> is_space c = false).
Proof.
  unfold strip. split.
  - intros c rest E. destruct (rstrip_prefix (lstrip s)) as [q Eq].
    rewrite E in Eq. cbn in Eq. now apply (lstrip_head s c (rest ++ q)).
  - intros c front E. unfold rstrip in E.
    apply (f_equal (@rev char)) in E. rewrite rev_involutive, rev_unit in E.
    now apply (lstrip_head (rev (lstrip s)) c (rev front)).
Qed.

(** X1: in a cleaned text every white-space character is a single-space
    character, the text neither starts nor ends with one, and it holds no
    line break: [_extract_units] sees it as one line. *)
Theorem clean_text_spacing (text : str) :
  (forall c, In c (clean_text text) -> is_space c = true -> c = 32%N)
  /\ (forall c rest, clean_text text = c :: rest -> is_space c = false)
  /\ (forall c front, clean_text text = front ++ [c] -> is_space c = false)
  /\ ~ In 10%N (clean_text text)
  /\ split_on 10%N (clean_text text) = [clean_text text].
Proof.
  assert (Hsp : forall c, In c (clean_text text) -> is_space c = true ->
                          c = 32%N).
  { unfold clean_text. destruct (is_empty text); [intros c []|].
    rewrite sub_plus.
    apply (proj1 (Forall_forall (fun c => is_space c = true -> c = 32%N) _)).
    apply Forall_strip, collapse_spaces. }
  assert (Hnl : ~ In 10%N (clean_text text)).
  { intros Hin. specialize (Hsp _ Hin). rewrite is_space_ascii in Hsp.
    - specialize (Hsp eq_refl). discriminate.
    - unfold is_ascii. lia. }
  split; [assumption|].
  unfold clean_text in *. destruct (is_empty text).
  - repeat split; try assumption; try discriminate.
    intros c front E. now destruct front.
  - split; [apply strip_ends|]. split; [apply strip_ends|].
    split; [assumption|]. now apply split_on_absent.
Qed.

End CleanedSpacing.

(** ** The shape of the extracted units *)

Section UnitShape.
Context {U : UnicodeData}.

(** A unit read by one of the patterns: the grade is a valid one, the status
    follows from the grade, the code has 5 to 10 characters and the title at
    least 3. *)
Definition parsed_unit (u : CleanedUnit) : Prop :=
  units_count u = 1%Z
  /\ confidence u = (9 # 10)%Q
  /\ _is_valid_grade (grade u) = true
  /\ status u = _determine_unit_status (grade u)
  /\ 5 <= length (code u) <= 10
  /\ 3 <= length (unit_title u).

(** A unit made for counting. *)
Definition counted (conf : Q) (u : CleanedUnit) : Prop :=
  u = counted_unit (code u) conf.

Definition first_tier (u : CleanedUnit) : Prop :=
  parsed_unit u \/ counted (5 # 10) u.

Lemma _is_valid_unit_lengths (u : CleanedUnit) :
  _is_valid_unit u = true ->
  5 <= length (code u) <= 10 /\ 3 <= length (unit_title u).
Proof.
  unfold _is_valid_unit.
  destruct (is_empty (code u) || (length (code u) <? 5)
            || (10 <? length (code u))) eqn:E1; [discriminate|].
  destruct (is_empty (unit_title u) || (length (unit_title u) <? 3)) eqn:E2;
    [discriminate|].
  intros _. apply orb_false_iff in E1 as [E1 E1c].
  apply orb_false_iff in E1 as [_ E1b]. apply orb_false_iff in E2 as [_ E2].
  apply Nat.ltb_ge in E1b, E1c, E2. lia.
Qed.

Lemma _parse_unit_match_shape (m : list str) (u : CleanedUnit) :
  _parse_unit_match m = Some u ->
  units_count u = 1%Z /\ confidence u = (9 # 10)%Q
  /\ _is_valid_grade (grade u) = true
  /\ status u = _determine_unit_status (grade u).
Proof.
  unfold _parse_unit_match.
  destruct m as [|c [|t [|g [|g' [|x m]]]]]; try discriminate.
  - destruct (_is_valid_grade (normalize_grade g)) eqn:E; [|discriminate].
    intros [= <-]. cbn. auto.
  - destruct (_is_valid_grade (normalize_grade g')) eqn:E; [|discriminate].
    intros [= <-]. cbn. auto.
Qed.

Lemma fold_units {A : Type} (R : CleanedUnit -> Prop)
    (f : acc -> A -> acc) (l : list A) :
  (forall st x, Forall R (fst st) -> Forall R (fst (f st x))) ->
  forall st, Forall R (fst st) -> Forall R (fst (fold_left f l st)).
Proof.
  intros Hf. induction l as [|x l IH]; intros st Hst; cbn [fold_left];
    [assumption|]. apply IH. now apply Hf.
Qed.

Lemma Forall_snoc {A : Type} (R : A -> Prop) (l : list A) (x : A) :
  Forall R l -> R x -> Forall R (l ++ [x]).
Proof.
  intros Hl Hx. apply Forall_app. split; [assumption|now constructor].
Qed.

Lemma take_match_shape (st : acc) (m : found) :
  Forall first_tier (fst st) -> Forall first_tier (fst (take_match st m)).
Proof.
  intros Hst. unfold take_match.
  destruct (_parse_unit_match (groups_tuple m)) as [u|] eqn:E; [|assumption].
  destruct (_is_valid_unit u) eqn:Ev; [|assumption]. cbn [fst].
  apply Forall_snoc; [assumption|]. left.
  destruct (_parse_unit_match_shape _ _ E) as (H1 & H2 & H3 & H4).
  destruct (_is_valid_unit_lengths u Ev) as [H5 H6].
  unfold parsed_unit. tauto.
Qed.

Lemma take_course_code_shape (st : acc) (c : str) :
  Forall first_tier (fst st) ->
  Forall first_tier (fst (take_course_code st c)).
Proof.
  intros Hst. unfold take_course_code.
  destruct (negb (mem_str (normalized c) (snd st))
            && (5 <=? length (normalized c))); [|assumption].
  cbn [fst]. apply Forall_snoc; [assumption|]. right. reflexivity.
Qed.

Lemma take_line_shape (st : acc) (line : str) :
  Forall first_tier (fst st) -> Forall first_tier (fst (take_line st line)).
Proof.
  intros Hst. unfold take_line.
  destruct (length (strip line) <? 5); [assumption|].
  destruct (existsb _ skip_words); [assumption|].
  assert (Hpat : Forall first_tier
            (fst (fold_left (take_pattern (strip line)) unit_patterns st))).
  { apply fold_units; [|assumption]. intros st' p H. unfold take_pattern.
    apply fold_units; [|assumption]. intros st'' m. apply take_match_shape. }
  destruct (negb (existsb _ unit_patterns)); [|assumption].
  apply fold_units; [|assumption]. intros st' c. apply take_course_code_shape.
Qed.

Lemma take_simple_shape (st : acc) (c : str) :
  Forall (counted (3 # 10)) (fst st) ->
  Forall (counted (3 # 10)) (fst (take_simple st c)).
Proof.
  intros Hst. unfold take_simple.
  destruct (negb (mem_str (normalized c) (snd st))); [|assumption].
  cbn [fst]. apply Forall_snoc; [assumption|]. reflexivity.
Qed.

(** X2: every unit [_extract_units] returns counts for one unit; either all
    of them come from the first tier (read by a pattern with confidence 0.9,
    a valid grade, the status of that grade, a code of 5 to 10 characters;
    or counted from a bare course code with grade A, complete, confidence
    0.5), or all of them come from the last resort (grade A, complete,
    confidence 0.3), which is only tried when the first tier found
    nothing. *)
Theorem _extract_units_shape (text : str) :
  Forall first_tier (_extract_units text)
  \/ Forall (counted (3 # 10)) (_extract_units text).
Proof.
  unfold _extract_units.
  set (st := fold_left take_line (split_on 10%N text) ([], [])).
  assert (Hst : Forall first_tier (fst st)).
  { apply fold_units; [|constructor]. intros st' l. apply take_line_shape. }
  destruct (Nat.eqb (length (fst st)) 0) eqn:E; [|now left].
  right. apply Nat.eqb_eq in E.
  apply fold_units.
  - intros st' p H. apply fold_units; [|assumption].
    intros st'' c. apply take_simple_shape.
  - destruct (fst st); [constructor|discriminate].
Qed.

(** X3: the counts of [extract_structured_data]: a unit is either exempt or
    counted in [total_units], the completed ones are among the counted
    ones, and a unit made for counting is always counted as completed. *)
Theorem extract_structured_data_counts (text : str) :
  let data := extract_structured_data text in
  completed_units data <= total_units data <= length (units data)
  /\ total_units data
     = length (units data)
       - length (filter (fun u => unit_status_eqb (status u) exempt)
                        (units data))
  /\ (Forall (counted (3 # 10)) (units data) ->
      completed_units data = length (units data)).
Proof.
  intros data. subst data. unfold extract_structured_data.
  destruct (_extract_academic_period (clean_text text)) as [y s].
  cbn [completed_units total_units units].
  set (us := _extract_units (clean_text text)).
  split; [split|split].
  - apply filter_length_le.
  - apply filter_length_le.
  - pose proof (filter_length (fun u => unit_status_eqb (status u) exempt) us)
      as H.
    cbv beta in H. lia.
  - intros Hall. rewrite !filter_all; [reflexivity| |].
    + apply Forall_forall. intros u Hu. rewrite Forall_forall in Hall.
      rewrite (Hall u Hu). reflexivity.
    + rewrite filter_all.
      * apply Forall_forall. intros u Hu. rewrite Forall_forall in Hall.
        rewrite (Hall u Hu). reflexivity.
      * apply Forall_forall. intros u Hu. rewrite Forall_forall in Hall.
        rewrite (Hall u Hu). reflexivity.
Qed.

End UnitShape.

(** ** The order of the parts of a name *)

Lemma str_leb_antisym (s t : str) :
  str_leb s t = true -> str_leb t s = true -> s = t.
Proof.
  revert t; induction s as [|x s IH]; intros [|y t]; cbn [str_leb];
    try discriminate; try reflexivity.
  destruct (N.ltb_spec x y) as [Hxy|Hxy], (N.ltb_spec y x) as [Hyx|Hyx];
    try discriminate; try lia.
  intros Hs Ht. assert (x = y) by lia. subst. f_equal. now apply IH.
Qed.

Lemma str_leb_trans (s t u : str) :
  str_leb s t = true -> str_leb t u = true -> str_leb s u = true.
Proof.
  revert t u; induction s as [|x s IH]; intros [|y t] [|z u]; cbn [str_leb];
    try discriminate; try reflexivity.
  destruct (N.ltb_spec x y) as [Hxy|Hxy], (N.ltb_spec y x) as [Hyx|Hyx],
    (N.ltb_spec y z) as [Hyz|Hyz], (N.ltb_spec z y) as [Hzy|Hzy],
    (N.ltb_spec x z) as [Hxz|Hxz], (N.ltb_spec z x) as [Hzx|Hzx];
    try discriminate; try reflexivity; try lia.
  apply IH.
Qed.

Lemma insert_sorted_comm (x y : str) (l : list str) :
  insert_sorted x (insert_sorted y l) = insert_sorted y (insert_sorted x l).
Proof.
  induction l as [|z l IH]; cbn [insert_sorted].
  - destruct (str_leb x y) eqn:Exy, (str_leb y x) eqn:Eyx; try reflexivity.
    + now rewrite (str_leb_antisym x y Exy Eyx).
    + apply str_leb_total in Exy. congruence.
  - destruct (str_leb y z) eqn:Eyz, (str_leb x z) eqn:Exz; cbn [insert_sorted].
    + destruct (str_leb x y) eqn:Exy, (str_leb y x) eqn:Eyx;
        rewrite ?Exz, ?Eyz; try reflexivity.
      * now rewrite (str_leb_antisym x y Exy Eyx).
      * apply str_leb_total in Exy. congruence.
    + destruct (str_leb x y) eqn:Exy.
      * rewrite (str_leb_trans x y z Exy Eyz) in Exz. discriminate.
      * now rewrite Exz, Eyz.
    + destruct (str_leb y x) eqn:Eyx.
      * rewrite (str_leb_trans y x z Eyx Exz) in Eyz. discriminate.
      * now rewrite Exz, Eyz.
    + now rewrite Exz, Eyz, IH.
Qed.

Lemma sorted_Permutation (l l' : list str) :
  Permutation l l' -> sorted l = sorted l'.
Proof.
  induction 1 as [|x l l' _ IH|x y l|l l' l'' _ IH1 _ IH2]; cbn [sorted].
  - reflexivity.
  - now rewrite IH.
  - apply insert_sorted_comm.
  - congruence.
Qed.

Section NameOrder.
Context {U : UnicodeData}.

(** X4: the order of the parts of a name does not matter.  Two names whose
    parts of two letters or more are the same up to their order have the
    same normalized form; when neither name is empty [match_names] gives
    them similarity 1.0 and [is_match] true. *)
Theorem match_names_any_order (a b : str) :
  Permutation (filter longer_than_one (split (name_cleaned a)))
              (filter longer_than_one (split (name_cleaned b))) ->
  a <> [] -> b <> [] ->
  normalize_name a = normalize_name b
  /\ match_confidence (match_names a b) = 1%Q
  /\ is_match (match_names a b) = true.
Proof.
  intros Hperm Ha Hb.
  assert (Hnorm : normalize_name a = normalize_name b).
  { unfold normalize_name. rewrite (sorted_Permutation _ _ Hperm).
    destruct a; [contradiction|]. destruct b; [contradiction|]. reflexivity. }
  split; [assumption|].
  unfold match_names, calculate_similarity. cbn [match_confidence is_match].
  destruct a; [contradiction|]. destruct b; [contradiction|].
  cbn [is_empty orb]. rewrite Hnorm, str_eqb_refl. split; reflexivity.
Qed.

End NameOrder.

Lemma match_names_any_order_witness :
  normalize_name (lit "OCHIENG, Easton M.")
  = normalize_name (lit "Easton  Ochieng")
  /\ is_match (match_names (lit "OCHIENG, Easton M.") (lit "Easton  Ochieng"))
     = true.
Proof.
  destruct (match_names_any_order (lit "OCHIENG, Easton M.")
              (lit "Easton  Ochieng")) as (Hn & _ & Hm).
  - vm_compute. apply perm_swap.
  - discriminate.
  - discriminate.
  - split; assumption.
Defined.

(** ** The verdict and its summary *)

Section VerdictFacts.
Import Eligibility.
Context {U : UnicodeData}.

Definition has_incomplete (td : Transcript) : bool :=
  existsb (fun u => str_eqb (unit_status_of u) (lit "incomplete")) (units td).

Lemma filter_none {A : Type} (f : A -> bool) (l : list A) :
  Nat.eqb (length (filter f l)) 0 = negb (existsb f l).
Proof.
  induction l as [|x l IH]; [reflexivity|]. cbn [filter existsb].
  destruct (f x); [reflexivity|exact IH].
Qed.

Lemma overall_three_conditions (student : Student) (td : Transcript)
    (nm : NameMatch) (required : Z) (is_degree : bool) :
  let v := _calculate_eligibility student td nm required is_degree in
  overall v
  = name_matched v && has_required_units v && meets_year_requirement v.
Proof.
  intros v. subst v. unfold _calculate_eligibility.
  cbn [meets_year_requirement no_incompletes overall name_matched
       has_required_units].
  rewrite filter_none.
  destruct is_degree;
    destruct (year td =? _)%Z, (_ <? year td)%Z, (2 <=? semester td)%Z;
    cbn [andb orb negb];
    destruct (is_match nm), (required <=? completed_units td)%Z;
    cbn [andb orb negb];
    try match goal with
        | |- context [existsb ?f (units td)] => destruct (existsb f (units td))
        end;
    reflexivity.
Qed.

(** X5: the test on incomplete units never changes the verdict.  Whenever
    the year requirement is met the incomplete units are not counted and
    [no_incompletes] is true, so the verdict is the conjunction of the name,
    the units and the year conditions; below the threshold [no_incompletes]
    says whether some unit has the status "incomplete". *)
Theorem incompletes_never_decide (student : Student) (td : Transcript)
    (nm : NameMatch) (required : Z) (is_degree : bool) :
  let v := _calculate_eligibility student td nm required is_degree in
  (meets_year_requirement v = true ->
   no_incompletes v = true /\ incomplete_count v = 0)
  /\ (meets_year_requirement v = false ->
      no_incompletes v = negb (has_incomplete td))
  /\ overall v
     = name_matched v && has_required_units v && meets_year_requirement v.
Proof.
  intros v. subst v. unfold _calculate_eligibility, has_incomplete.
  cbn [meets_year_requirement no_incompletes incomplete_count overall
       name_matched has_required_units].
  rewrite filter_none.
  destruct is_degree;
    destruct (year td =? _)%Z eqn:E1, (_ <? year td)%Z eqn:E2,
      (2 <=? semester td)%Z eqn:E3;
    cbn [andb orb negb];
    destruct (is_match nm), (required <=? completed_units td)%Z,
      (existsb _ (units td));
    cbn [andb orb negb]; repeat split; try discriminate; reflexivity.
Qed.

Lemma join_first_length (sep p : str) (ps : list str) :
  length p <= length (join sep (p :: ps)).
Proof.
  destruct ps as [|q ps]; cbn [join]; [lia|]. rewrite length_app. lia.
Qed.

Lemma long_summary (p : str) (ps : list str) :
  20 < length p ->
  20 < length (join (lit "; ") (p :: ps))
  /\ join (lit "; ") (p :: ps) <> lit "All requirements met".
Proof.
  intros Hp. pose proof (join_first_length (lit "; ") p ps) as Hle.
  split; [lia|]. intros E. rewrite E in Hle. cbn in Hle. lia.
Qed.

Ltac long_part :=
  rewrite ?length_app;
  repeat match goal with
         | |- context [length (lit ?s)] =>
             let n := eval vm_compute in (length (lit s)) in
             change (length (lit s)) with n
         end;
  lia.

(** X6: the summary reads "All requirements met" exactly when the verdict
    is true; otherwise it lists one reason or more. *)
Theorem summary_tells_verdict (student : Student) (td : Transcript)
    (nm : NameMatch) (required : Z) (is_degree : bool) :
  let v := _calculate_eligibility student td nm required is_degree in
  (overall v = true <-> summary v = lit "All requirements met")
  /\ (overall v = false -> 20 < length (summary v)).
Proof.
  intros v. subst v. unfold _calculate_eligibility.
  cbn [overall summary]. rewrite filter_none.
  generalize (show_int (completed_units td)) (show_int required)
    (show_int (year td)) (show_int (semester td)) (student_name td).
  intros s1 s2 s3 s4 s5.
  generalize (show_int (Z.of_nat (length (filter
    (fun u => str_eqb (unit_status_of u) (lit "incomplete")) (units td))))).
  intros s6.
  destruct is_degree;
    destruct (year td =? _)%Z eqn:E1, (_ <? year td)%Z eqn:E2,
      (2 <=? semester td)%Z eqn:E3;
    cbn [andb orb negb];
    destruct (is_match nm), (required <=? completed_units td)%Z;
    cbn [andb orb negb];
    try match goal with
        | |- context [existsb ?f (units td)] => destruct (existsb f (units td))
        end;
    cbn [andb orb negb app length Nat.eqb];
    try (split; [split; reflexivity|discriminate]);
    match goal with
    | |- context [join (lit "; ") (?p :: ?ps)] =>
        destruct (long_summary p ps) as [Hlen Hne]; [long_part|]
    end;
    (split; [split; [discriminate|intros E; now destruct Hne]
            |intros _; exact Hlen]).
Qed.

(** X7: called with [is_degree] false, the calculation asks for year 2
    semester 2 or later, whatever number of required units it is given; it
    compares the completed units with that number, and its verdict is the
    conjunction of the name match, the units condition and this year
    condition. *)
Theorem diploma_eligibility (student : Student) (td : Transcript)
    (nm : NameMatch) (required : Z) :
  let v := _calculate_eligibility student td nm required false in
  required_units v = required
  /\ has_required_units v = (required <=? completed_units td)%Z
  /\ meets_year_requirement v
     = (((year td =? 2) && (2 <=? semester td)) || (2 <? year td))%Z
  /\ overall v
     = is_match nm && (required <=? completed_units td)%Z
       && (((year td =? 2) && (2 <=? semester td)) || (2 <? year td))%Z.
Proof.
  intros v.
  pose proof (overall_three_conditions student td nm required false) as Hall.
  subst v. rewrite Hall. repeat split.
Qed.

End VerdictFacts.

(** ** What the analyzer and the digital orchestrator return *)

Section AnalyzerFacts.
Import EnhancedOCR.
Variable lib : Backends.

(** X8: the analysis never calls a document both digital and scanned, and
    the method it recommends follows from its flags: a digital method for a
    digital document, an OCR method for a scanned one, "hybrid" when the
    indicators tie. *)
Theorem analysis_is_coherent (pdf_bytes : bytes) :
  let a := analyze_document lib pdf_bytes in
  is_digital a && is_scanned a = false
  /\ recommended_method a
     = if is_digital a
       then (if has_tables a then lit "digital_with_tables"
             else lit "digital_text")
       else if is_scanned a
       then (if has_tables a then lit "ocr_with_tables"
             else lit "advanced_ocr")
       else lit "hybrid".
Proof.
  intros a. subst a. unfold analyze_document.
  destruct (fitz_open lib pdf_bytes) as [doc|e]; [|split; reflexivity].
  unfold analyze_opened.
  destruct (Z.min 5 (Z.of_nat (length doc)) =? 0)%Z; [split; reflexivity|].
  cbn [is_digital is_scanned has_tables recommended_method].
  set (d := sumZ (map digital_score _)). set (s := sumZ (map scanned_score _)).
  destruct (s <? d)%Z eqn:E1, (d <? s)%Z eqn:E2.
  - apply Z.ltb_lt in E1, E2. lia.
  - split; [reflexivity|]. now destruct (_ <? _)%Z.
  - split; [reflexivity|]. now destruct (_ <? _)%Z.
  - split; reflexivity.
Qed.

Lemma Forall_firstn_any {A : Type} (R : A -> Prop) (n : nat) (l : list A) :
  Forall R l -> Forall R (firstn n l).
Proof.
  revert l; induction n as [|n IH]; intros [|x l] H; cbn [firstn];
    try constructor.
  - now inversion H.
  - apply IH. now inversion H.
Qed.

Lemma sumZ_from (l : list Z) (acc : Z) :
  Forall (fun x => 0 <= x)%Z l -> (0 <= acc)%Z ->
  (0 <= fold_left Z.add l acc)%Z.
Proof.
  revert acc; induction l as [|x l IH]; intros acc Hl Hacc; cbn [fold_left];
    [assumption|].
  inversion Hl; subst. apply IH; [assumption|lia].
Qed.

Lemma sumZ_nonneg (l : list Z) :
  Forall (fun x => 0 <= x)%Z l -> (0 <= sumZ l)%Z.
Proof. intros H. apply sumZ_from; [assumption|lia]. Qed.

Lemma ratio_in_unit (a b : Z) :
  (0 <= a <= b)%Z -> (1 <= b)%Z ->
  (0 <= inject_Z a / inject_Z b)%Q /\ (inject_Z a / inject_Z b <= 1)%Q.
Proof.
  intros Ha Hb.
  assert (Hpos : (0 < inject_Z b)%Q).
  { change 0%Q with (inject_Z 0). rewrite <- Zlt_Qlt. lia. }
  split.
  - apply Qle_shift_div_l; [assumption|]. rewrite Qmult_0_l.
    change 0%Q with (inject_Z 0). rewrite <- Zle_Qle. lia.
  - apply Qle_shift_div_r; [assumption|]. rewrite Qmult_1_l.
    rewrite <- Zle_Qle. lia.
Qed.

(** X9: when the scores of the pages are not negative, as [_analyze_page]
    makes them, the confidence of the analysis lies between 0 and 1. *)
Theorem analysis_confidence_range (pdf_bytes : bytes) :
  (forall doc, fitz_open lib pdf_bytes = Ok doc ->
     Forall (fun p => 0 <= digital_score p /\ 0 <= scanned_score p)%Z doc) ->
  let a := analyze_document lib pdf_bytes in
  (0 <= analysis_confidence a)%Q /\ (analysis_confidence a <= 1)%Q.
Proof.
  intros Hscores a. subst a. unfold analyze_document.
  destruct (fitz_open lib pdf_bytes) as [doc|e];
    [|split; cbn; unfold Qle; cbn; lia].
  specialize (Hscores doc eq_refl). unfold analyze_opened.
  destruct (Z.min 5 (Z.of_nat (length doc)) =? 0)%Z;
    [split; cbn; unfold Qle; cbn; lia|].
  cbn [analysis_confidence].
  set (pages := firstn _ doc).
  assert (Hp : Forall (fun p => 0 <= digital_score p /\ 0 <= scanned_score p)%Z
                      pages).
  { now apply Forall_firstn_any. }
  assert (Hd : (0 <= sumZ (map digital_score pages))%Z).
  { apply sumZ_nonneg, Forall_map. revert Hp. apply Forall_impl. tauto. }
  assert (Hs : (0 <= sumZ (map scanned_score pages))%Z).
  { apply sumZ_nonneg, Forall_map. revert Hp. apply Forall_impl. tauto. }
  apply ratio_in_unit; lia.
Qed.

Lemma best_of_greatest (rest : list ExtractionMethod) :
  forall first,
  In (best_of first rest) (first :: rest)
  /\ forall m, In m (first :: rest) ->
       (confidence m <= confidence (best_of first rest))%Q.
Proof.
  unfold best_of. induction rest as [|x rest IH]; intros first; cbn [fold_left].
  - split; [now left|]. intros m [<- | []]. apply Qle_refl.
  - destruct (Qle_bool (confidence x) (confidence first)) eqn:E.
    + destruct (IH first) as [Hin Hmax]. split.
      * destruct Hin as [H | H]; [now left|right; now right].
      * intros m [<- | [<- | Hm]].
        -- apply Hmax. now left.
        -- apply Qle_trans with (confidence first).
           ++ now apply Qle_bool_iff.
           ++ apply Hmax. now left.
        -- apply Hmax. now right.
    + destruct (IH x) as [Hin Hmax]. split.
      * right. destruct Hin as [H | H]; [now left|now right].
      * intros m [<- | [<- | Hm]].
        -- apply Qle_trans with (confidence x).
           ++ apply Qlt_le_weak, Qnot_le_lt. intros H.
              apply Qle_bool_iff in H. congruence.
           ++ apply Hmax. now left.
        -- apply Hmax. now left.
        -- apply Hmax. now right.
Qed.

(** X10: when some digital method succeeds with a confidence above 0.1, the
    orchestrator reports one of these methods, with its name and its
    confidence, and none of them has a greater confidence; the confidence
    of the result is at least 0.1 in every case, and the text is the one
    [_get_method_text] reads for the reported name. *)
Theorem digital_choice (pdf_bytes : bytes) :
  let r := extract_digital_text_enhanced lib pdf_bytes in
  (0 < successful_count r ->
   exists m, In m (methods_tried r) /\ qualifies m = true
     /\ primary_method r = name m /\ result_confidence r = confidence m
     /\ forall m', In m' (methods_tried r) -> qualifies m' = true ->
          (confidence m' <= confidence m)%Q)
  /\ (1 # 10 <= result_confidence r)%Q
  /\ text r = _get_method_text lib pdf_bytes (primary_method r) false.
Proof.
  intros r. subst r. unfold extract_digital_text_enhanced.
  set (tried := map outcome (attempts lib pdf_bytes)).
  destruct (filter qualifies tried) as [|m ms] eqn:E;
    cbn [successful_count methods_tried primary_method result_confidence text
         length].
  - split; [lia|]. split; [apply Qle_refl|reflexivity].
  - destruct (best_of_greatest ms m) as [Hin Hmax].
    assert (Hq : forall x, In x (m :: ms) <-> In x tried /\ qualifies x = true).
    { intros x. rewrite <- E. apply filter_In. }
    split; [|split; [|reflexivity]].
    + intros _. exists (best_of m ms).
      apply Hq in Hin as [Hin Hqual]. repeat split; try assumption.
      intros m' Hm' Hq'. apply Hmax. apply Hq. now split.
    + apply Hq in Hin as [_ Hqual]. unfold qualifies in Hqual.
      apply andb_true_iff in Hqual as [_ Hqual].
      apply negb_true_iff in Hqual. apply Qlt_le_weak, Qnot_le_lt.
      intros H. apply Qle_bool_iff in H. congruence.
Qed.

End AnalyzerFacts.

Lemma analysis_confidence_range_witness :
  (0 <= EnhancedOCR.analysis_confidence
          (EnhancedOCR.analyze_document one_short_page []))%Q.
Proof.
  apply (analysis_confidence_range one_short_page []).
  intros doc [= <-]. repeat constructor; cbn; lia.
Defined.

Section OrchestratorFacts.
Import EnhancedOCR Orchestrator.
Variable lib : Backends.
Variable ocr : OcrBackends.

Lemma ocr_names (pdf_bytes : bytes) (m : ExtractionMethod) :
  In m (ocr_methods_tried ocr pdf_bytes) ->
  name m = lit "tesseract_enhanced" \/ name m = lit "doctr"
  \/ name m = lit "pymupdf_ocr".
Proof.
  unfold ocr_methods_tried. intros H.
  apply in_app_or in H as [H | H].
  - destruct (PDF2IMAGE_AVAILABLE ocr); [|destruct H].
    destruct H as [<- | []]. now left.
  - apply in_app_or in H as [H | H].
    + destruct (doctr_model ocr); [|destruct H].
      destruct H as [<- | []]. right. now left.
    + destruct H as [<- | []]. right. now right.
Qed.

Lemma advanced_ocr_text (pdf_bytes : bytes) :
  Orchestrator.text (extract_with_advanced_ocr lib ocr pdf_bytes)
  = or_empty (fitz_texts lib pdf_bytes).
Proof.
  unfold extract_with_advanced_ocr.
  destruct (filter ocr_qualifies (ocr_methods_tried ocr pdf_bytes))
    as [|m ms] eqn:E; cbn [Orchestrator.text]; [reflexivity|].
  destruct (best_of_greatest ms m) as [Hin _].
  assert (Hname : In (best_of m ms) (ocr_methods_tried ocr pdf_bytes)).
  { rewrite <- E in Hin. now apply filter_In in Hin as [Hin _]. }
  apply ocr_names in Hname.
  destruct Hname as [-> | [-> | ->]]; reflexivity.
Qed.

(** X11: whatever OCR method is chosen, and also when none succeeds, the
    text [extract_with_advanced_ocr] returns is the plain PyMuPDF reading
    of the document (empty when it cannot be opened): what an OCR engine
    recognized is never returned.  The method reported is one of the three
    engines or "ocr_failed", the latter with confidence 0. *)
Theorem ocr_text_is_plain_reading (pdf_bytes : bytes) :
  let r := extract_with_advanced_ocr lib ocr pdf_bytes in
  Orchestrator.text r = or_empty (fitz_texts lib pdf_bytes)
  /\ (In (Orchestrator.primary_method r)
         [lit "tesseract_enhanced"; lit "doctr"; lit "pymupdf_ocr"]
      \/ (Orchestrator.primary_method r = lit "ocr_failed"
          /\ Orchestrator.confidence r = 0%Q)).
Proof.
  intros r. subst r. unfold extract_with_advanced_ocr.
  destruct (filter ocr_qualifies (ocr_methods_tried ocr pdf_bytes))
    as [|m ms] eqn:E; cbn [Orchestrator.text Orchestrator.primary_method
                          Orchestrator.confidence].
  - split; [reflexivity|]. right. split; reflexivity.
  - destruct (best_of_greatest ms m) as [Hin _].
    assert (Hname : In (best_of m ms) (ocr_methods_tried ocr pdf_bytes)).
    { rewrite <- E in Hin. now apply filter_In in Hin as [Hin _]. }
    apply ocr_names in Hname.
    destruct Hname as [-> | [-> | ->]]; (split; [reflexivity|left]); cbn; tauto.
Qed.

(** X12: when the bytes cannot be opened as a PDF, the entry point takes
    the OCR family; if no OCR method succeeds either, it returns the empty
    text with the method "ocr_failed", confidence 0 and one page. *)
Theorem unreadable_document_result (pdf_bytes : bytes) (e e' : str) :
  fitz_open lib pdf_bytes = Raised e ->
  fitz_texts lib pdf_bytes = Raised e' ->
  let r := process_document_comprehensive lib ocr pdf_bytes in
  Orchestrator.text r = []
  /\ Orchestrator.page_count r = 1
  /\ Orchestrator.extraction_strategy r = lit "advanced_ocr"
  /\ Orchestrator.document_analysis r = Some (pessimistic e)
  /\ ((forall m, In m (Orchestrator.methods_tried r) -> success m = false) ->
      Orchestrator.primary_method r = lit "ocr_failed"
      /\ Orchestrator.confidence r = 0%Q).
Proof.
  intros Hopen Htexts r. subst r. unfold process_document_comprehensive.
  unfold analyze_document. rewrite Hopen.
  change (mem_str (recommended_method (pessimistic e))
            [lit "digital_text"; lit "digital_with_tables"]) with false.
  change (mem_str (recommended_method (pessimistic e))
            [lit "advanced_ocr"; lit "ocr_with_tables"]) with true.
  cbn iota.
  pose proof (advanced_ocr_text pdf_bytes) as Ht.
  rewrite Htexts in Ht.
  unfold with_analysis.
  cbn [Orchestrator.text Orchestrator.page_count
       Orchestrator.extraction_strategy Orchestrator.document_analysis
       Orchestrator.methods_tried Orchestrator.primary_method
       Orchestrator.confidence].
  split; [exact Ht|].
  unfold extract_with_advanced_ocr.
  destruct (filter ocr_qualifies (ocr_methods_tried ocr pdf_bytes))
    as [|m ms] eqn:E;
    cbn [Orchestrator.page_count Orchestrator.extraction_strategy
         Orchestrator.methods_tried Orchestrator.primary_method
         Orchestrator.confidence];
    unfold _get_page_count; rewrite Htexts;
    (split; [reflexivity|]); (split; [reflexivity|]); (split; [reflexivity|]).
  - intros _. split; reflexivity.
  - intros Hfail. exfalso.
    assert (Hm : In m (filter ocr_qualifies (ocr_methods_tried ocr pdf_bytes)))
      by (rewrite E; now left).
    apply filter_In in Hm as [Hin Hq]. unfold ocr_qualifies in Hq.
    rewrite (Hfail m Hin) in Hq. discriminate.
Qed.

(** X13: gathering the texts of the methods, as [parse_transcript] and
    [parse_fee_statement] do first, raises an [AttributeError] as soon as a
    tried method succeeded with a text longer than the threshold; otherwise
    the only text that is analysed is the primary one. *)
Theorem gathering_texts (threshold : nat) (r : Extraction) :
  (existsb (fun m => success m && (threshold <? text_length m))
           (Orchestrator.methods_tried r) = true ->
   all_texts_of threshold r
   = Raised (lit "'ExtractionMethod' object has no attribute 'text'"))
  /\ (existsb (fun m => success m && (threshold <? text_length m))
              (Orchestrator.methods_tried r) = false ->
      all_texts_of threshold r = Ok [Orchestrator.text r]).
Proof.
  unfold all_texts_of. generalize [Orchestrator.text r].
  induction (Orchestrator.methods_tried r) as [|m ms IH]; intros acc;
    cbn [existsb more_texts].
  - split; [discriminate|reflexivity].
  - destruct (success m && (threshold <? text_length m)); cbn [orb method_text].
    + split; [reflexivity|discriminate].
    + apply IH.
Qed.

End OrchestratorFacts.

(** The OCR engines on bytes that are no PDF: pdf2image is installed, the
    DocTR model is not loaded, and every method fails. *)
Definition no_engine : Orchestrator.OcrBackends :=
  let failure : Orchestrator.Outcome :=
    {| Orchestrator.o_confidence := 0; Orchestrator.o_text_length := 0;
       Orchestrator.o_success := false;
       Orchestrator.o_error := Some (lit "Unable to get page count.") |} in
  {| Orchestrator.PDF2IMAGE_AVAILABLE := true;
     Orchestrator.doctr_model := false;
     Orchestrator.tesseract_outcome := fun _ => failure;
     Orchestrator.doctr_outcome := fun _ => failure;
     Orchestrator.pymupdf_ocr_outcome := fun _ => failure |}.

Lemma unreadable_document_result_witness :
  Orchestrator.text
    (Orchestrator.process_document_comprehensive unreadable no_engine
       [x00; x01]) = []
  /\ Orchestrator.primary_method
       (Orchestrator.process_document_comprehensive unreadable no_engine
          [x00; x01]) = lit "ocr_failed".
Proof.
  destruct (unreadable_document_result unreadable no_engine [x00; x01]
              (lit "cannot open broken document")
              (lit "cannot open broken document") eq_refl eq_refl)
    as (Ht & _ & _ & _ & Hm).
  split; [exact Ht|]. apply Hm.
  intros m [<- | [<- | []]]; reflexivity.
Defined.

(** ** What a match and its groups look like *)

Section MatchShape.
Context {U : UnicodeData}.
Variable ic : bool.

(** The strings an expression can match, the conditions on the neighbours
    ([\b], [^], [$]) left aside. *)
Fixpoint matches (r : regex) (w : str) : Prop :=
  match r with
  | Eps | WordB | Bol | Eol => w = []
  | Chr cs => exists c, w = [c] /\ cset_mem ic cs c = true
  | Seq a b => exists u v, w = u ++ v /\ matches a u /\ matches b v
  | Alt a b => matches a w \/ matches b w
  | Rep a lo hi =>
      exists us, w = concat us /\ Forall (matches a) us
                 /\ lo <= length us <= hi
  | Star cs => Forall (fun c => cset_mem ic cs c = true) w
  | Group _ a => matches a w
  end.

(** [shape i w]: what is known of the text [w] of group [i]. *)
Variable shape : nat -> str -> Prop.

Fixpoint respects (r : regex) : Prop :=
  match r with
  | Seq a b | Alt a b => respects a /\ respects b
  | Rep a _ _ => respects a
  | Group i a => respects a /\ forall w, matches a w -> shape i w
  | _ => True
  end.

(** The groups that take part in every match of an expression. *)
Fixpoint sure (r : regex) : list nat :=
  match r with
  | Seq a b => sure a ++ sure b
  | Group i a => i :: sure a
  | _ => []
  end.

Definition caps_ok (s0 : str) (g : caps) : Prop :=
  forall i sp, In (i, sp) g -> shape i (slice s0 sp).

(** A matcher that only succeeds through its continuation, called after a
    text the expression matches, with the groups it met added. *)
Definition sound (r : regex)
    (m : option char -> str -> nat -> caps -> kont -> option (nat * caps))
    : Prop :=
  forall prev s pos g k res,
    m prev s pos g k = Some res ->
    exists n p' g',
      n <= length s
      /\ matches r (firstn n s)
      /\ k p' (skipn n s) (pos + n) g' = Some res
      /\ (forall s0, skipn pos s0 = s -> caps_ok s0 g -> caps_ok s0 g')
      /\ incl g g'
      /\ forall i, In i (sure r) -> exists sp, In (i, sp) g'.

Lemma sound_here (r : regex) (prev : option char) (s : str) (pos : nat)
    (g : caps) (k : kont) (res : option (nat * caps)) (r0 : nat * caps) :
  matches r [] -> sure r = [] -> k prev s pos g = Some r0 ->
  exists n p' g',
    n <= length s
    /\ matches r (firstn n s)
    /\ k p' (skipn n s) (pos + n) g' = Some r0
    /\ (forall s0, skipn pos s0 = s -> caps_ok s0 g -> caps_ok s0 g')
    /\ incl g g'
    /\ forall i, In i (sure r) -> exists sp, In (i, sp) g'.
Proof.
  intros Hm Hsure Hk. exists 0, prev, g. cbn [firstn skipn].
  rewrite Nat.add_0_r, Hsure.
  split; [lia|]. split; [exact Hm|]. split; [exact Hk|].
  split; [auto|]. split; [apply incl_refl|intros i []].
Qed.

Lemma star_sound (cs : cset) : sound (Star cs) (star ic cs).
Proof.
  intros prev s. revert prev.
  induction s as [|c s IH]; intros prev pos g k res; cbn [star].
  - intros Hk. apply (sound_here (Star cs) prev [] pos g k None res);
      [constructor|reflexivity|exact Hk].
  - destruct (cset_mem ic cs c) eqn:Ec.
    + destruct (star ic cs (Some c) s (S pos) g k) as [r1|] eqn:Es.
      * intros [= <-].
        destruct (IH _ _ _ _ _ Es)
          as (n & p' & g' & Hn & Hm & Hk & Hg & Hincl & _).
        exists (S n), p', g'. cbn [firstn skipn length]. split; [lia|].
        split; [constructor; assumption|].
        split; [now rewrite Nat.add_succ_r|].
        split; [|split; [exact Hincl|intros i []]].
        intros s0 Hs0. apply Hg.
        rewrite <- (Nat.add_1_r pos), Nat.add_comm, <- skipn_skipn, Hs0.
        reflexivity.
      * intros Hk. apply (sound_here (Star cs) prev (c :: s) pos g k None res);
          [constructor|reflexivity|exact Hk].
    + intros Hk. apply (sound_here (Star cs) prev (c :: s) pos g k None res);
        [constructor|reflexivity|exact Hk].
Qed.

Lemma firstn_add_skipn (n1 n2 : nat) (s : str) :
  firstn (n1 + n2) s = firstn n1 s ++ firstn n2 (skipn n1 s).
Proof.
  revert n1. induction s as [|c s IH]; intros [|n1]; cbn;
    rewrite ?firstn_nil; try reflexivity.
  f_equal. apply IH.
Qed.

Lemma rep_sound (a : regex)
    (m : option char -> str -> nat -> caps -> kont -> option (nat * caps))
    (lo hi : nat) :
  sound a m -> sound (Rep a lo hi) (rep m lo hi).
Proof.
  intros Hm. revert lo. induction hi as [|hi IH];
    intros lo prev s pos g k res; cbn [rep].
  - destruct (Nat.eqb lo 0) eqn:E; [|discriminate].
    apply Nat.eqb_eq in E. subst. intros Hk.
    apply (sound_here (Rep a 0 0) prev s pos g k None res);
      [|reflexivity|exact Hk].
    exists []. repeat split; [constructor|cbn; lia..].
  - destruct (m prev s pos g
                (fun p s' pos' g' => rep m (pred lo) hi p s' pos' g' k))
      as [r1|] eqn:E1.
    + intros [= <-].
      destruct (Hm _ _ _ _ _ _ E1)
        as (n1 & p1 & g1 & Hn1 & Hm1 & Hk1 & Hg1 & Hi1 & _).
      destruct (IH _ _ _ _ _ _ _ Hk1)
        as (n2 & p2 & g2 & Hn2 & (us & Hus & Hall & Hlen) & Hk2 & Hg2
            & Hi2 & _).
      exists (n1 + n2), p2, g2. rewrite length_skipn in Hn2.
      split; [lia|]. split; [|split; [|split; [|split]]];
        [| | |exact (incl_tran Hi1 Hi2)|intros i []].
      * exists (firstn n1 s :: us). cbn [concat length].
        split; [|split; [constructor; assumption|lia]].
        rewrite <- Hus. apply firstn_add_skipn.
      * rewrite skipn_skipn in Hk2.
        replace (skipn (n1 + n2) s) with (skipn (n2 + n1) s)
          by (f_equal; lia).
        replace (pos + (n1 + n2)) with (pos + n1 + n2) by lia. exact Hk2.
      * intros s0 Hs0 Hg0. apply Hg2; [|now apply Hg1].
        rewrite Nat.add_comm, <- skipn_skipn, Hs0. reflexivity.
    + destruct (Nat.eqb lo 0) eqn:E; [|discriminate].
      apply Nat.eqb_eq in E. subst. intros Hk.
      apply (sound_here (Rep a 0 (S hi)) prev s pos g k None res);
        [|reflexivity|exact Hk].
      exists []. repeat split; [constructor|cbn; lia..].
Qed.

Lemma rmatch_sound (r : regex) : respects r -> sound r (rmatch ic r).
Proof.
  induction r as [|cs|a IHa b IHb|a IHa b IHb|a IHa lo hi|cs|i a IHa| | |];
    intros Hr.
  - intros prev s pos g k res Hk.
    apply (sound_here Eps prev s pos g k None res); [reflexivity|reflexivity|exact Hk].
  - intros prev s pos g k res. cbn [rmatch].
    destruct s as [|c s]; [discriminate|].
    destruct (cset_mem ic cs c) eqn:Ec; [|discriminate]. intros Hk.
    exists 1, (Some c), g. cbn [firstn skipn length]. split; [lia|].
    split; [exists c; now split|]. split; [now rewrite Nat.add_1_r|].
    split; [auto|]. split; [apply incl_refl|intros i []].
  - destruct Hr as [Ha Hb]. intros prev s pos g k res. cbn [rmatch].
    intros H.
    destruct (IHa Ha _ _ _ _ _ _ H)
      as (n1 & p1 & g1 & Hn1 & Hm1 & Hk1 & Hg1 & Hi1 & Hs1).
    destruct (IHb Hb _ _ _ _ _ _ Hk1)
      as (n2 & p2 & g2 & Hn2 & Hm2 & Hk2 & Hg2 & Hi2 & Hs2).
    exists (n1 + n2), p2, g2. rewrite length_skipn in Hn2.
    split; [lia|]. split; [|split; [|split; [|split]]];
      [| | |exact (incl_tran Hi1 Hi2)|].
    4:{ intros i Hi. cbn [sure] in Hi. apply in_app_iff in Hi as [Hi | Hi].
        - destruct (Hs1 i Hi) as [sp Hsp]. exists sp. now apply Hi2.
        - now apply Hs2. }
    + exists (firstn n1 s), (firstn n2 (skipn n1 s)).
      split; [apply firstn_add_skipn|now split].
    + rewrite skipn_skipn in Hk2.
      replace (skipn (n1 + n2) s) with (skipn (n2 + n1) s) by (f_equal; lia).
      replace (pos + (n1 + n2)) with (pos + n1 + n2) by lia. exact Hk2.
    + intros s0 Hs0 Hg0. apply Hg2; [|now apply Hg1].
      rewrite Nat.add_comm, <- skipn_skipn, Hs0. reflexivity.
  - destruct Hr as [Ha Hb]. intros prev s pos g k res. cbn [rmatch].
    destruct (rmatch ic a prev s pos g k) as [r1|] eqn:E1.
    + intros [= <-].
      destruct (IHa Ha _ _ _ _ _ _ E1)
        as (n & p' & g' & Hn & Hm & Hk & Hg & Hi & _).
      exists n, p', g'. split; [exact Hn|]. split; [now left|].
      split; [exact Hk|]. split; [exact Hg|]. split; [exact Hi|intros i []].
    + intros E2.
      destruct (IHb Hb _ _ _ _ _ _ E2)
        as (n & p' & g' & Hn & Hm & Hk & Hg & Hi & _).
      exists n, p', g'. split; [exact Hn|]. split; [now right|].
      split; [exact Hk|]. split; [exact Hg|]. split; [exact Hi|intros i []].
  - cbn [rmatch]. apply rep_sound. apply IHa, Hr.
  - cbn [rmatch]. apply star_sound.
  - destruct Hr as [Ha Hshape]. intros prev s pos g k res. cbn [rmatch].
    intros H.
    destruct (IHa Ha _ _ _ _ _ _ H)
      as (n & p' & g' & Hn & Hm & Hk & Hg & Hi & Hs).
    exists n, p', ((i, (pos, pos + n)) :: g').
    split; [exact Hn|]. split; [exact Hm|]. split; [exact Hk|].
    split; [|split].
    + intros s0 Hs0 Hg0 j sp [[= <- <-] | Hin]; [|now apply (Hg s0 Hs0 Hg0)].
      unfold slice. cbn [fst snd]. rewrite Hs0.
      replace (pos + n - pos) with n by lia. now apply Hshape.
    + intros x Hx. right. now apply Hi.
    + intros j [<- | Hj]; [exists (pos, pos + n); now left|].
      destruct (Hs j Hj) as [sp Hsp]. exists sp. now right.
  - intros prev s pos g k res. cbn [rmatch].
    destruct (xorb _ _); [|discriminate]. intros Hk.
    apply (sound_here WordB prev s pos g k None res); [reflexivity|reflexivity|exact Hk].
  - intros prev s pos g k res. cbn [rmatch].
    destruct prev; [discriminate|]. intros Hk.
    apply (sound_here Bol None s pos g k None res); [reflexivity|reflexivity|exact Hk].
  - intros prev s pos g k res. cbn [rmatch]. intros Hk.
    apply (sound_here Eol prev s pos g k None res); [reflexivity..|].
    destruct s as [|c [|c' s]]; [exact Hk| |discriminate].
    destruct (char_eqb c 10%N); [exact Hk|discriminate].
Qed.

(** A match whose text the expression matches and whose groups have their
    shapes. *)
Definition found_shape (r : regex) (m : found) : Prop :=
  matches r (found_text m)
  /\ (forall i w, group m (S i) = Some w -> shape (S i) w)
  /\ (forall i, In (S i) (sure r) -> group m (S i) <> None)
  /\ length (found_groups m) = group_count r.

Lemma span_of_In (i : nat) (g : caps) (sp : nat * nat) :
  span_of i g = Some sp -> In (i, sp) g.
Proof.
  induction g as [|[j sp'] g IH]; cbn [span_of]; [discriminate|].
  destruct (Nat.eqb i j) eqn:E.
  - apply Nat.eqb_eq in E. intros [= <-]. subst. now left.
  - intros H. right. now apply IH.
Qed.

Lemma nth_map_seq {A : Type} (f : nat -> option A) (a n i : nat) :
  nth i (map f (seq a n)) None = if i <? n then f (a + i) else None.
Proof.
  revert a i. induction n as [|n IH]; intros a [|i]; cbn [seq map nth];
    try reflexivity.
  - now rewrite Nat.add_0_r.
  - rewrite IH. change (S i <? S n) with (i <? n).
    now rewrite Nat.add_succ_r.
Qed.

Lemma span_of_found (i : nat) (g : caps) (sp : nat * nat) :
  In (i, sp) g -> span_of i g <> None.
Proof.
  induction g as [|[j sp'] g IH]; cbn [span_of In]; [tauto|].
  intros [[= -> ->] | H].
  - now rewrite Nat.eqb_refl.
  - destruct (Nat.eqb i j); [discriminate|now apply IH].
Qed.

Lemma sure_counted (r : regex) (i : nat) : In i (sure r) -> i <= group_count r.
Proof.
  induction r; cbn [sure group_count In]; try tauto.
  - intros H. apply in_app_iff in H as [H | H]; [apply IHr1 in H|apply IHr2 in H];
      lia.
  - intros [<- | H]; [lia|]. apply IHr in H. lia.
Qed.

Lemma match_here_shape (r : regex) (prev : option char) (s : str)
    (must_advance : bool) (res : nat * caps) :
  respects r -> match_here ic r prev s must_advance = Some res ->
  found_shape r (found_at r s res).
Proof.
  intros Hr H. unfold match_here in H.
  destruct (rmatch_sound r Hr _ _ _ _ _ _ H)
    as (n & p' & g' & Hn & Hm & Hk & Hg & _ & Hs).
  cbn beta in Hk. destruct (must_advance && Nat.eqb (0 + n) 0); [discriminate|].
  injection Hk as <-. cbn [Nat.add] in *.
  assert (Hcaps : caps_ok s g') by (apply Hg; [reflexivity|intros i sp []]).
  split; [exact Hm|]. unfold found_at. cbn [group found_groups snd].
  split; [|split; [|now rewrite length_map, length_seq]].
  - intros i w. rewrite nth_map_seq.
    destruct (i <? group_count r); [|discriminate]. cbn [Nat.add].
    destruct (span_of (S i) g') as [sp|] eqn:Esp; [|discriminate].
    intros [= <-]. apply Hcaps. now apply span_of_In.
  - intros i Hi. rewrite nth_map_seq.
    pose proof (sure_counted r (S i) Hi) as Hle.
    replace (i <? group_count r) with true
      by (symmetry; apply Nat.ltb_lt; lia).
    cbn [Nat.add]. destruct (Hs (S i) Hi) as [sp Hsp].
    apply span_of_found in Hsp.
    destruct (span_of (S i) g'); [discriminate|contradiction].
Qed.

Lemma scan_shape (r : regex) (s : str) :
  respects r ->
  forall prev skip, Forall (found_shape r) (matches_of (scan ic r prev s skip)).
Proof.
  intros Hr. induction s as [|c s IH]; intros prev skip.
  - destruct skip as [|k]; cbn [scan matches_of]; [|constructor].
    destruct (match_here ic r prev [] false) as [[[|n] g]|] eqn:E1;
      cbn [matches_of]; [| |constructor].
    + constructor; [now apply (match_here_shape r prev [] false)|].
      destruct (match_here ic r prev [] true) as [[[|n] g']|] eqn:E2;
        cbn [matches_of]; try constructor;
        try now apply (match_here_shape r prev [] true). constructor.
    + constructor; [now apply (match_here_shape r prev [] false)|constructor].
  - destruct skip as [|k]; cbn [scan]; [|apply IH].
    destruct (match_here ic r prev (c :: s) false) as [[[|n] g]|] eqn:E1;
      cbn [matches_of].
    + constructor; [now apply (match_here_shape r prev (c :: s) false)|].
      destruct (match_here ic r prev (c :: s) true) as [[[|n] g']|] eqn:E2;
        cbn [matches_of]; try apply IH.
      constructor; [now apply (match_here_shape r prev (c :: s) true)|].
      apply IH.
    + constructor; [now apply (match_here_shape r prev (c :: s) false)|].
      apply IH.
    + apply IH.
Qed.

Lemma finditer_shape (r : regex) (s : str) :
  respects r -> Forall (found_shape r) (finditer ic r s).
Proof. intros Hr. now apply scan_shape. Qed.

Lemma search_shape (r : regex) (s : str) (m : found) :
  respects r -> search ic r s = Some m -> found_shape r m.
Proof.
  intros Hr. unfold search. pose proof (finditer_shape r s Hr) as Hall.
  destruct (finditer ic r s) as [|m' ms]; cbn [hd_error]; [discriminate|].
  intros [= <-]. now inversion Hall.
Qed.

End MatchShape.

Section ShapeUses.
Context {U : UnicodeData}.

(** *** Repetitions of one class *)

Lemma matches_times (ic : bool) (cs : cset) (lo hi : nat) (w : str) :
  matches ic (Times cs lo hi) w ->
  lo <= length w <= hi /\ Forall (fun c => cset_mem ic cs c = true) w.
Proof.
  intros (us & -> & Hall & Hlen). revert lo hi Hlen.
  induction Hall as [|u us (c & -> & Hc) Hus IH]; intros lo hi Hlen;
    cbn [concat length app] in *.
  - split; [lia|constructor].
  - destruct (IH (pred lo) (pred hi) ltac:(lia)) as [Hl Hf].
    split; [lia|]. constructor; assumption.
Qed.

Lemma matches_plus (ic : bool) (cs : cset) (w : str) :
  matches ic (Plus cs) w ->
  w <> [] /\ Forall (fun c => cset_mem ic cs c = true) w.
Proof.
  intros (u & v & -> & (c & -> & Hc) & Hv). split; [discriminate|].
  constructor; assumption.
Qed.

Lemma sure_Str (s : String.string) : sure (Str s) = [].
Proof.
  unfold Str. induction (lit s) as [|c [|d l] IH]; cbn [map seqs sure];
    try reflexivity.
  cbn [map seqs] in IH. now rewrite IH.
Qed.

Lemma respects_Str (ic : bool) (shape : nat -> str -> Prop)
    (s : String.string) :
  respects ic shape (Str s).
Proof.
  unfold Str. induction (lit s) as [|c [|d l] IH]; cbn [map seqs respects];
    auto.
Qed.

(** *** The grade of a row of the hybrid parser *)

(** A letter from A to F, with or without a sign. *)
Definition signed_letter (w : str) : Prop :=
  exists c, (65 <= c <= 70)%N
            /\ (w = [c] \/ w = [c; 43%N] \/ w = [c; 45%N]).

Lemma matches_letter_grade (w : str) :
  matches false letter_grade w -> signed_letter w.
Proof.
  intros (u & v & -> & (c & -> & Hc) & (us & -> & Hall & Hlen)).
  cbn in Hc. rewrite orb_false_r in Hc. apply andb_true_iff in Hc as [H1 H2].
  apply N.leb_le in H1, H2. exists c. split; [lia|].
  destruct us as [|s1 [|s2 us]]; cbn in Hlen; [now left| |lia].
  inversion Hall as [|? ? (d & -> & Hd) _]; subst. cbn in Hd.
  rewrite !orb_false_r in Hd. apply orb_true_iff in Hd as [Hd | Hd];
    apply N.eqb_eq in Hd; subst; cbn; tauto.
Qed.

Lemma strip_signed_letter (w : str) : signed_letter w -> strip w = w.
Proof.
  intros (c & Hc & Hw).
  assert (Hs : is_space c = false).
  { rewrite is_space_ascii by (unfold is_ascii; lia).
    unfold ascii_space.
    destruct (9 <=? c)%N eqn:E1, (c <=? 13)%N eqn:E2, (28 <=? c)%N eqn:E3,
      (c <=? 32)%N eqn:E4; try reflexivity;
      rewrite ?N.leb_le, ?N.leb_gt in *; lia. }
  assert (Hp : is_space 43%N = false) by now rewrite is_space_ascii.
  assert (Hm : is_space 45%N = false) by now rewrite is_space_ascii.
  unfold strip, rstrip.
  destruct Hw as [-> | [-> | ->]]; cbn; rewrite ?Hs, ?Hp, ?Hm; cbn;
    rewrite ?Hs, ?Hp, ?Hm; reflexivity.
Qed.


Lemma strip_plain (w : str) :
  Forall (fun c => is_space c = false) w -> strip w = w.
Proof.
  intros H. assert (Hl : forall v, Forall (fun c => is_space c = false) v ->
                                   lstrip v = v).
  { intros [|c v] Hv; [reflexivity|]. cbn [lstrip].
    inversion Hv as [|? ? Hc _]; subst. now rewrite Hc. }
  unfold strip, rstrip. rewrite (Hl w H), Hl by now apply Forall_rev.
  apply rev_involutive.
Qed.

(** *** The student number the hybrid parser reads *)

Import Hybrid.

Definition digits_6_to_8 (i : nat) (w : str) : Prop :=
  6 <= length w <= 8 /\ Forall (fun c => is_decimal c = true) w.

Lemma hybrid_id_patterns_respect :
  Forall (fun p => respects false digits_6_to_8 p /\ In 1 (sure p))
         hybrid_id_patterns.
Proof.
  assert (H68 : forall w, matches false (Times CDigit 6 8) w ->
                          digits_6_to_8 1 w).
  { intros w Hw. apply matches_times in Hw as [Hl Hf]. now split. }
  assert (H77 : forall w, matches false (Times CDigit 7 7) w ->
                          digits_6_to_8 1 w).
  { intros w Hw. apply matches_times in Hw as [Hl Hf]. split; [lia|exact Hf]. }
  unfold hybrid_id_patterns.
  apply Forall_cons; [|apply Forall_cons; [|apply Forall_cons;
                                             [|apply Forall_nil]]];
    cbn [seqs respects sure]; rewrite ?sure_Str; cbn [app In];
    (split; [|tauto]);
    repeat match goal with |- _ /\ _ => split end;
    try exact I; try apply respects_Str; assumption.
Qed.

(** X23: the student number the hybrid parser reads is empty, when no
    pattern is found, or made of 6 to 8 decimal digits. *)
Theorem hybrid_student_id_shape (text : str) :
  _extract_student_id_hybrid text = []
  \/ (6 <= length (_extract_student_id_hybrid text) <= 8
      /\ Forall (fun c => is_decimal c = true)
                (_extract_student_id_hybrid text)).
Proof.
  unfold _extract_student_id_hybrid.
  pose proof hybrid_id_patterns_respect as Hall.
  induction hybrid_id_patterns as [|p ps IH]; cbn [first_match];
    [now left|].
  inversion Hall as [|? ? [Hp Hs] Hps]; subst.
  destruct (search false p text) as [m|] eqn:E; [|now apply IH].
  apply (search_shape false digits_6_to_8 p text m Hp) in E
    as (_ & Hshape & Hsure & _).
  right. unfold group_str. specialize (Hsure 0 Hs).
  destruct (group m 1) as [w|] eqn:Ew; [|contradiction].
  exact (Hshape 0 w Ew).
Qed.

(** *** The rows of the hybrid parser *)

Definition row_shape (i : nat) (w : str) : Prop :=
  i = 3 -> signed_letter w.

Lemma course_row_respects :
  respects false row_shape course_row /\ In 3 (sure course_row).
Proof.
  unfold course_row, spaced_code, Plus. cbn [seqs respects sure].
  split; [|rewrite !in_app_iff; cbn; tauto].
  repeat match goal with |- _ /\ _ => split end; try exact I;
    try (unfold letter_grade, Opt; cbn [respects]; tauto).
  all: unfold row_shape; intros w Hw E; try discriminate E.
  now apply matches_letter_grade.
Qed.

Lemma take_row_grades (st : acc) (line : str) :
  Forall (fun u => signed_letter (grade u)) (fst st) ->
  Forall (fun u => signed_letter (grade u)) (fst (take_row st line)).
Proof.
  intros H. unfold take_row.
  destruct (length (strip line) <? 10); [exact H|].
  destruct (search false course_row (strip line)) as [m|] eqn:E; [|exact H].
  destruct (negb _); [|exact H]. cbn [fst]. apply Forall_app.
  split; [exact H|]. constructor; [|constructor]. cbn [grade row_course].
  destruct course_row_respects as [Hr Hs].
  apply (search_shape false row_shape course_row _ m Hr) in E
    as (_ & Hshape & Hsure & _).
  unfold group_str. specialize (Hsure 2 Hs).
  destruct (group m 3) as [w|] eqn:Ew; [|contradiction].
  specialize (Hshape 2 w Ew eq_refl).
  now rewrite strip_signed_letter.
Qed.

Lemma rows_of_grades (text : str) :
  Forall (fun u => signed_letter (grade u)) (fst (rows_of text)).
Proof.
  unfold rows_of.
  assert (H0 : Forall (fun u => signed_letter (grade u))
                 (fst (([], []) : acc))) by constructor.
  revert H0. generalize (([], []) : acc).
  induction (split_on 10%N text) as [|l ls IH]; intros st Hst;
    cbn [fold_left]; [exact Hst|].
  apply IH. now apply take_row_grades.
Qed.

(** *** The credit read as a grade *)

Definition credit_shape (i : nat) (w : str) : Prop :=
  i = 4 -> Forall (fun c => is_decimal c = true) w.

Lemma row_patterns_respect :
  Forall (fun p => respects true credit_shape p /\ group_count p = 4)
         (firstn 2 unit_patterns).
Proof.
  assert (Hd : forall w, matches true (Plus CDigit) w ->
                         credit_shape 4 w).
  { intros w Hw _. now apply matches_plus in Hw as [_ Hf]. }
  unfold unit_patterns, spaced_code, letter_grade, Plus, Opt, Times.
  cbn [firstn seqs].
  apply Forall_cons; [|apply Forall_cons; [|apply Forall_nil]];
    cbn [respects group_count]; (split; [|reflexivity]);
    repeat match goal with |- _ /\ _ => split end; try exact I;
    try (cbn [respects]; tauto).
  all: unfold credit_shape; intros w Hw E; try discriminate E;
    now apply (Hd w).
Qed.

Lemma digit_is_plain (c : char) :
  ascii_digit c = true ->
  is_ascii c /\ ascii_to_upper c = c /\ ascii_space c = false
  /\ In c [48; 49; 50; 51; 52; 53; 54; 55; 56; 57]%N.
Proof.
  unfold ascii_digit, is_ascii, ascii_to_upper, ascii_lower_letter,
    ascii_space. intros H. apply andb_true_iff in H as [H1 H2].
  apply N.leb_le in H1, H2.
  assert (Hc : (c = 48 \/ c = 49 \/ c = 50 \/ c = 51 \/ c = 52 \/ c = 53
                \/ c = 54 \/ c = 55 \/ c = 56 \/ c = 57)%N) by lia.
  split; [lia|].
  destruct Hc as [-> | [-> | [-> | [-> | [-> | [-> | [-> | [-> | [-> | ->]]]]]]]]];
    cbn; tauto.
Qed.

Lemma digits_are_no_grade (g : str) :
  Forall (fun c => ascii_digit c = true) g ->
  _is_valid_grade (normalize_grade g) = false.
Proof.
  intros H. unfold normalize_grade.
  destruct g as [|d g]; [reflexivity|]. cbn [is_empty].
  assert (Hup : py_upper (d :: g) = d :: g).
  { unfold py_upper. induction H as [|c w Hc Hw IH]; [reflexivity|].
    cbn [flat_map]. destruct (digit_is_plain c Hc) as (Ha & Hu & _).
    rewrite upper_ascii by exact Ha. rewrite Hu, IH. reflexivity. }
  rewrite Hup, strip_plain.
  2:{ eapply Forall_impl; [|exact H]. intros c Hc. cbn beta.
      destruct (digit_is_plain c Hc) as (Ha & _ & Hs & _).
      now rewrite is_space_ascii. }
  inversion H as [|? ? Hd _]; subst.
  destruct (digit_is_plain d Hd) as (_ & _ & _ & Hin).
  cbn [In] in Hin.
  destruct Hin as [<- | [<- | [<- | [<- | [<- | [<- | [<- | [<- | [<- | [<- | []]]]]]]]]]];
    reflexivity.
Qed.


(** X24: the first two patterns of [_extract_units], the ones written for
    the rows of the transcript, never give a unit: they capture four
    groups, [_parse_unit_match] reads the fourth one, the credit, as the
    grade, and digits are no valid grade.  This holds for every line whose
    decimal digits are the ASCII ones. *)
Theorem credit_read_as_grade (line : str) (st : acc) (p : regex) :
  In p (firstn 2 unit_patterns) ->
  Forall (fun c => is_decimal c = true -> ascii_digit c = true) line ->
  (forall m, In m (finditer true p line) ->
     _parse_unit_match (groups_tuple m) = None)
  /\ take_pattern line st p = st.
Proof.
  intros Hp Hline.
  pose proof row_patterns_respect as Hall. rewrite Forall_forall in Hall.
  destruct (Hall p Hp) as [Hr Hcount].
  assert (Hnone : forall m, In m (finditer true p line) ->
                            _parse_unit_match (groups_tuple m) = None).
  { intros m Hm.
    pose proof (finditer_shape true credit_shape p line Hr) as Hshape.
    pose proof (finditer_ok _ true p line Hline) as Hok.
    rewrite Forall_forall in Hshape, Hok.
    destruct (Hshape m Hm) as (_ & Hgroup & _ & Hlen).
    destruct (Hok m Hm) as [_ Hchars]. rewrite Hcount in Hlen.
    unfold groups_tuple. unfold group in Hgroup.
    destruct (found_groups m) as [|g1 [|g2 [|g3 [|g4 [|g5 gs]]]]];
      try discriminate Hlen.
    cbn [map]. unfold _parse_unit_match. cbn beta iota zeta.
    destruct g4 as [w|];
      [|now rewrite (digits_are_no_grade [] (Forall_nil _))].
    specialize (Hgroup 3 w eq_refl eq_refl).
    inversion Hchars as [|? ? _ H2]; subst.
    inversion H2 as [|? ? _ H3]; subst.
    inversion H3 as [|? ? _ H4]; subst.
    inversion H4 as [|? ? Hw _]; subst. cbn beta iota in Hw.
    assert (Hdigits : Forall (fun c => ascii_digit c = true) w).
    { rewrite Forall_forall in *. intros c Hc. apply Hw; [exact Hc|].
      now apply Hgroup. }
    now rewrite (digits_are_no_grade w Hdigits). }
  split; [exact Hnone|]. unfold take_pattern.
  induction (finditer true p line) as [|m ms IH]; [reflexivity|].
  cbn [fold_left]. unfold take_match at 2.
  rewrite (Hnone m (or_introl eq_refl)). apply IH.
  intros m' Hm'. apply Hnone. now right.
Qed.

End ShapeUses.

Lemma credit_read_as_grade_witness :
  @take_pattern AsciiData
    (lit "CIT 234 DATA STRUCTURES AND ALGO 24 55 79 B 3") ([], [])
    (hd Eps unit_patterns) = ([], []).
Proof.
  apply (@credit_read_as_grade AsciiData
           (lit "CIT 234 DATA STRUCTURES AND ALGO 24 55 79 B 3") ([], [])
           (hd Eps unit_patterns)).
  - left. reflexivity.
  - apply Forall_forall. intros c _ H. exact H.
Defined.

(** ** The hybrid parser *)

Section HybridFacts.
Import Hybrid.
Context {U : UnicodeData}.

Lemma add_In (x y : str) (l : list str) : In y (add x l) <-> y = x \/ In y l.
Proof.
  unfold add. destruct (mem_str x l) eqn:E.
  - apply mem_str_In in E. split; [now right|]. intros [-> | H]; assumption.
  - cbn [In]. split; intros [H | H]; auto.
Qed.

(** The code of a course as the detection across the texts compares it. *)
Definition normalized_code (u : CleanedUnit) : str := normalized (code u).

(** What the loops keep: the set holds the keys of the courses listed so
    far, and no key is listed twice. *)
Definition keyed (key : CleanedUnit -> str) (st : acc) : Prop :=
  (forall x, In x (snd st) <-> In x (map key (fst st)))
  /\ NoDup (map key (fst st)).

Lemma keyed_snoc (key : CleanedUnit -> str) (st : acc) (u : CleanedUnit) :
  keyed key st -> mem_str (key u) (snd st) = false ->
  keyed key (fst st ++ [u], add (key u) (snd st)).
Proof.
  intros [Hset Hnd] Hnew. split; cbn [fst snd].
  - intros x. rewrite add_In, map_app, in_app_iff, Hset. cbn [map In].
    intuition congruence.
  - rewrite map_app. cbn [map]. apply NoDup_app; [assumption| |].
    + constructor; [intros []|constructor].
    + intros x Hx [<- | []]. apply Hset in Hx. apply mem_str_In in Hx.
      congruence.
Qed.

Lemma take_course_spec (st : acc) (u : CleanedUnit) :
  keyed normalized_code st ->
  let st' := take_course st u in
  keyed normalized_code st'
  /\ (forall v, In v (fst st') -> In v (fst st) \/ v = u)
  /\ (forall v, In v (fst st) -> In v (fst st'))
  /\ In (normalized_code u) (map normalized_code (fst st')).
Proof.
  intros Hk st'. subst st'. unfold take_course.
  fold (normalized_code u).
  destruct (mem_str (normalized_code u) (snd st)) eqn:E; cbn [negb].
  - split; [exact Hk|]. split; [intros v Hv; now left|].
    split; [intros v Hv; exact Hv|].
    apply Hk. now apply mem_str_In.
  - split; [now apply (keyed_snoc normalized_code)|]. cbn [fst].
    split; [|split].
    + intros v Hv. apply in_app_iff in Hv as [Hv | [<- | []]]; auto.
    + intros v Hv. apply in_app_iff. now left.
    + rewrite map_app. apply in_app_iff. right. now left.
Qed.

Lemma take_courses_spec (cs : list CleanedUnit) (st : acc) :
  keyed normalized_code st ->
  let st' := fold_left take_course cs st in
  keyed normalized_code st'
  /\ (forall v, In v (fst st') -> In v (fst st) \/ In v cs)
  /\ (forall v, In v (fst st) -> In v (fst st'))
  /\ (forall u, In u cs ->
        In (normalized_code u) (map normalized_code (fst st'))).
Proof.
  revert st. induction cs as [|c cs IH]; intros st Hk; cbn [fold_left].
  - split; [exact Hk|]. split; [intros v Hv; now left|].
    split; [intros v Hv; exact Hv|]. intros u [].
  - destruct (take_course_spec st c Hk) as (Hk1 & Hfrom1 & Hkeep1 & Hc).
    destruct (IH _ Hk1) as (Hk2 & Hfrom2 & Hkeep2 & Hall).
    split; [exact Hk2|]. split; [|split].
    + intros v Hv. apply Hfrom2 in Hv as [Hv | Hv].
      * apply Hfrom1 in Hv as [Hv | ->]; [now left|right; now left].
      * right. now right.
    + intros v Hv. apply Hkeep2, Hkeep1, Hv.
    + intros u [<- | Hu]; [|now apply Hall].
      apply in_map_iff in Hc as (v & Ev & Hv).
      apply in_map_iff. exists v. split; [exact Ev|]. now apply Hkeep2.
Qed.

Lemma across_texts_spec (texts : list str) (st : acc) :
  keyed normalized_code st ->
  let st' :=
    fold_left
      (fun st text => fold_left take_course (_extract_courses_hybrid text) st)
      texts st in
  keyed normalized_code st'
  /\ (forall v, In v (fst st') ->
        In v (fst st)
        \/ exists t, In t texts /\ In v (_extract_courses_hybrid t))
  /\ (forall v, In v (fst st) -> In v (fst st'))
  /\ (forall t u, In t texts -> In u (_extract_courses_hybrid t) ->
        In (normalized_code u) (map normalized_code (fst st'))).
Proof.
  revert st. induction texts as [|t texts IH]; intros st Hk; cbn [fold_left].
  - split; [exact Hk|]. split; [intros v Hv; now left|].
    split; [intros v Hv; exact Hv|]. intros t u [].
  - destruct (take_courses_spec (_extract_courses_hybrid t) st Hk)
      as (Hk1 & Hfrom1 & Hkeep1 & Hall1).
    destruct (IH _ Hk1) as (Hk2 & Hfrom2 & Hkeep2 & Hall2).
    split; [exact Hk2|]. split; [|split].
    + intros v Hv. apply Hfrom2 in Hv as [Hv | (t' & Ht' & Hv)].
      * apply Hfrom1 in Hv as [Hv | Hv]; [now left|].
        right. exists t. split; [now left|exact Hv].
      * right. exists t'. split; [now right|exact Hv].
    + intros v Hv. apply Hkeep2, Hkeep1, Hv.
    + intros t' u [<- | Ht'] Hu; [|now apply (Hall2 t')].
      apply Hall1 in Hu. apply in_map_iff in Hu as (v & Ev & Hv).
      apply in_map_iff. exists v. split; [exact Ev|]. now apply Hkeep2.
Qed.

(** X14: across the texts no course code is listed twice, once spaces and
    case are set aside; every course listed was found in one of the texts,
    and every course found in a text is listed under its code. *)
Theorem courses_across_texts (all_texts : list str) :
  let all_courses := _comprehensive_course_detection all_texts in
  NoDup (map normalized_code all_courses)
  /\ (forall u, In u all_courses ->
        exists t, In t all_texts /\ In u (_extract_courses_hybrid t))
  /\ (forall t u, In t all_texts -> In u (_extract_courses_hybrid t) ->
        exists v, In v all_courses /\ normalized_code v = normalized_code u).
Proof.
  intros all_courses. subst all_courses.
  unfold _comprehensive_course_detection.
  assert (Hk : keyed normalized_code (([], []) : acc)).
  { split; [intros x; reflexivity|constructor]. }
  destruct (across_texts_spec all_texts _ Hk) as ((_ & Hnd) & Hfrom & _ & Hall).
  split; [exact Hnd|]. split.
  - intros u Hu. apply Hfrom in Hu as [[] | Hu]. exact Hu.
  - intros t u Ht Hu. specialize (Hall t u Ht Hu).
    apply in_map_iff in Hall as (v & Ev & Hv). now exists v.
Qed.

(** *** One text *)

Definition is_row (u : CleanedUnit) : Prop :=
  u = row_course (code u) (unit_title u) (grade u).

Lemma take_row_spec (st : acc) (line : str) :
  keyed code st -> Forall is_row (fst st) ->
  keyed code (take_row st line) /\ Forall is_row (fst (take_row st line)).
Proof.
  intros Hk Hrows. unfold take_row.
  destruct (length (strip line) <? 10); [now split|].
  destruct (search false course_row (strip line)) as [m|]; [|now split].
  destruct (mem_str (strip (group_str m 1)) (snd st)) eqn:E; cbn [negb];
    [now split|].
  split.
  - exact (keyed_snoc code st
             (row_course (strip (group_str m 1)) (strip (group_str m 2))
                         (strip (group_str m 3))) Hk E).
  - cbn [fst]. apply Forall_app. split; [assumption|].
    constructor; [reflexivity|constructor].
Qed.

Lemma rows_of_spec (text : str) :
  keyed code (rows_of text) /\ Forall is_row (fst (rows_of text)).
Proof.
  unfold rows_of.
  assert (H0 : keyed code (([], []) : acc) /\ Forall is_row (fst (([], []) : acc))).
  { split; [split; [intros x; reflexivity|constructor]|constructor]. }
  revert H0. generalize (([], []) : acc).
  induction (split_on 10%N text) as [|l ls IH]; intros st [Hk Hr];
    cbn [fold_left]; [now split|].
  apply IH. now apply take_row_spec.
Qed.

(** What method 2 keeps, for the rows [rows] method 1 left. *)
Definition guessed (rows : list CleanedUnit) (st : acc) : Prop :=
  exists guesses,
    fst st = rows ++ guesses
    /\ (forall x, In x (snd st) <->
          In x (map code rows) \/ In x (map normalized_code guesses))
    /\ NoDup (map normalized_code guesses)
    /\ Forall (fun u => counted (6 # 10) u
                        /\ 5 <= length (normalized_code u)
                        /\ ~ In (normalized_code u) (map code rows)) guesses.

Lemma take_code_spec (rows : list CleanedUnit) (st : acc) (c : str) :
  guessed rows st -> guessed rows (take_code st c).
Proof.
  intros (gs & Hfst & Hset & Hnd & Hall). unfold take_code.
  destruct (mem_str (normalized c) (snd st)) eqn:E; cbn [negb andb];
    [now exists gs|].
  destruct (5 <=? length (normalized c)) eqn:E5; [|now exists gs].
  apply Nat.leb_le in E5.
  assert (Hnew : ~ In (normalized c) (snd st)).
  { intros H. apply mem_str_In in H. congruence. }
  exists (gs ++ [counted_unit c (6 # 10)]). cbn [fst snd].
  split; [rewrite Hfst; now rewrite app_assoc|]. split; [|split].
  - intros x. rewrite add_In, Hset, map_app, in_app_iff. cbn [map In].
    change (normalized_code (counted_unit c (6 # 10))) with (normalized c).
    intuition congruence.
  - rewrite map_app. apply NoDup_app; [assumption| |].
    + constructor; [intros []|constructor].
    + intros x Hx [<- | []]. apply Hnew, Hset. now right.
  - apply Forall_app. split; [assumption|].
    constructor; [|constructor]. unfold normalized_code, counted.
    cbn [code counted_unit]. split; [reflexivity|]. split; [exact E5|].
    intros H. apply Hnew, Hset. now left.
Qed.

(** X15: the courses of one text are the rows method 1 read, then the codes
    method 2 counted.  No two rows have the same code; no two counted
    courses have the same code once spaces and case are set aside, and that
    code has 5 characters or more and is not the code of a row as the row
    wrote it.  The grade of a row is a letter from A to F, with or without
    a sign; the row reads incomplete with the grade F and complete with
    any other.  A counted course has the title "Course", the grade A and
    confidence 0.6, and is complete. *)
Theorem courses_of_one_text (text : str) :
  exists rows guesses,
    _extract_courses_hybrid text = rows ++ guesses
    /\ rows = fst (rows_of text)
    /\ NoDup (map code rows)
    /\ Forall (fun u => is_row u /\ confidence u = (9 # 10)%Q
                        /\ units_count u = 1%Z
                        /\ signed_letter (grade u)
                        /\ (status u = incomplete <-> grade u = lit "F")
                        /\ (status u = complete \/ status u = incomplete))
              rows
    /\ NoDup (map normalized_code guesses)
    /\ Forall (fun u => counted (6 # 10) u
                        /\ 5 <= length (normalized_code u)
                        /\ ~ In (normalized_code u) (map code rows)) guesses.
Proof.
  destruct (rows_of_spec text) as [[Hset Hnd] Hrows].
  assert (Hg : guessed (fst (rows_of text))
                 (fold_left take_code (simple_codes_of text) (rows_of text))).
  { assert (H0 : guessed (fst (rows_of text)) (rows_of text)).
    { exists []. rewrite app_nil_r. split; [reflexivity|]. split; [|split].
      - intros x. rewrite Hset. cbn [map In]. tauto.
      - constructor.
      - constructor. }
    revert H0. generalize (rows_of text) at 2 4.
    induction (simple_codes_of text) as [|c cs IH]; intros st Hst;
      cbn [fold_left]; [exact Hst|].
    apply IH. now apply take_code_spec. }
  destruct Hg as (gs & Hfst & _ & Hgnd & Hall).
  exists (fst (rows_of text)), gs. unfold _extract_courses_hybrid.
  split; [exact Hfst|]. split; [reflexivity|]. split; [exact Hnd|].
  split; [|split; assumption].
  pose proof (rows_of_grades text) as Hgrades.
  rewrite Forall_forall in *. intros u Hin.
  specialize (Hrows u Hin). specialize (Hgrades u Hin).
  split; [exact Hrows|]. split; [now rewrite Hrows|].
  split; [now rewrite Hrows|]. split; [exact Hgrades|].
  rewrite Hrows. cbn [status grade row_course].
  destruct Hgrades as (c & Hc & Hg).
  destruct (str_eqb (grade u) (lit "F")) eqn:EF.
  - apply str_eqb_eq in EF. rewrite EF. cbn. split; [tauto|now right].
  - assert (Hne : grade u <> lit "F").
    { intros E. rewrite E in EF. discriminate. }
    assert (Hfull : is_empty (grade u) = false)
      by (destruct Hg as [-> | [-> | ->]]; reflexivity).
    rewrite Hfull. cbn [negb andb].
    split; [split; [discriminate|intros E; contradiction]|now left].
Qed.

(** X16: without a stage token (Y4S2, or Stage 4 Semester 2) the year the
    hybrid parser returns lies between 1 and 6 and the semester is 1 or
    2. *)
Theorem hybrid_period_range (text : str) :
  search false stage_token text = None ->
  search true stage_semester text = None ->
  let p := _extract_academic_period_hybrid text in
  (1 <= fst p <= 6)%Z /\ (1 <= snd p <= 2)%Z.
Proof.
  intros H1 H2 p. subst p. unfold _extract_academic_period_hybrid.
  rewrite H1, H2. cbn [fst snd]. lia.
Qed.

End HybridFacts.

Lemma hybrid_period_range_witness :
  (1 <= fst (@Hybrid._extract_academic_period_hybrid AsciiData
               (lit "Year 12 Semester 0")) <= 6)%Z
  /\ (1 <= snd (@Hybrid._extract_academic_period_hybrid AsciiData
                  (lit "Year 12 Semester 0")) <= 2)%Z.
Proof.
  apply (@hybrid_period_range AsciiData (lit "Year 12 Semester 0"));
    vm_compute; reflexivity.
Defined.

(** ** The intelligent PDF processor *)

Section IntelligentFacts.
Import EnhancedOCR IntelligentPDF.
Context {U : UnicodeData}.
Variable lib : Libraries.

Lemma qmin_le_l (a b : Q) : (qmin a b <= a)%Q.
Proof.
  unfold qmin. destruct (Qle_bool a b) eqn:E; [apply Qle_refl|].
  apply Qlt_le_weak, Qnot_le_lt. intros H. apply Qle_bool_iff in H.
  congruence.
Qed.

Lemma qmin_le_r (a b : Q) : (qmin a b <= b)%Q.
Proof.
  unfold qmin. destruct (Qle_bool a b) eqn:E; [|apply Qle_refl].
  now apply Qle_bool_iff.
Qed.

Lemma qmin_glb (c a b : Q) : (c <= a)%Q -> (c <= b)%Q -> (c <= qmin a b)%Q.
Proof. intros Ha Hb. unfold qmin. now destruct (Qle_bool a b). Qed.

Lemma of_nat_le (n m : nat) : n <= m -> (of_nat n <= of_nat m)%Q.
Proof. intros H. unfold of_nat. rewrite <- Zle_Qle. lia. Qed.

Lemma of_nat_nonneg (n : nat) : (0 <= of_nat n)%Q.
Proof. apply (of_nat_le 0 n). lia. Qed.

Lemma of_nat_pos (n : nat) : 0 < n -> (0 < of_nat n)%Q.
Proof. intros H. unfold of_nat. change 0%Q with (inject_Z 0). rewrite <- Zlt_Qlt. lia. Qed.

Lemma not_Qle_bool (a b : Q) : Qle_bool a b = false -> (b < a)%Q.
Proof.
  intros E. apply Qnot_le_lt. intros H. apply Qle_bool_iff in H. congruence.
Qed.

Lemma short_text_quality (text : str) :
  length (strip text) < 50 -> _calculate_text_quality text = 0%Q.
Proof.
  intros H. unfold _calculate_text_quality.
  apply Nat.ltb_lt in H. rewrite H. now rewrite orb_true_r.
Qed.

(** X17: a text of fewer than 50 characters, white space at its ends
    apart, has quality 0; the quality of any text lies between 0 and 0.95,
    so the cap at 1.0 is never reached. *)
Theorem text_quality_range (text : str) :
  (length (strip text) < 50 -> _calculate_text_quality text = 0%Q)
  /\ (0 <= _calculate_text_quality text)%Q
  /\ (_calculate_text_quality text <= 95 # 100)%Q.
Proof.
  unfold _calculate_text_quality.
  destruct (is_empty text || (length (strip text) <? 50)) eqn:E.
  - split; [reflexivity|]. split; [apply Qle_refl|discriminate].
  - apply orb_false_iff in E as [_ E]. apply Nat.ltb_ge in E.
    split; [lia|].
    set (k := qmin (of_nat (keyword_count text) * (1 # 10)) (5 # 10)).
    set (lines := if 10 <? _ then (k + (2 # 10))%Q else k).
    set (n := length (filter (found_in text) quality_patterns)).
    set (p := qmin (of_nat n * (5 # 100)) (3 # 10)).
    assert (Hk0 : (0 <= k)%Q).
    { apply qmin_glb; [|discriminate].
      pose proof (of_nat_nonneg (keyword_count text)). nra. }
    assert (Hk1 : (k <= 5 # 10)%Q) by apply qmin_le_r.
    assert (Hl : (k <= lines)%Q /\ (lines <= k + (2 # 10))%Q).
    { subst lines. destruct (10 <? _); lra. }
    assert (Hn : n <= 5).
    { subst n. apply (filter_length_le (found_in text) quality_patterns). }
    assert (Hp0 : (0 <= p)%Q).
    { apply qmin_glb; [|discriminate]. pose proof (of_nat_nonneg n). nra. }
    assert (Hp1 : (p <= 25 # 100)%Q).
    { eapply Qle_trans; [apply qmin_le_l|].
      apply of_nat_le in Hn. change (of_nat 5) with 5%Q in Hn. lra. }
    split.
    + apply qmin_glb; [lra|discriminate].
    + eapply Qle_trans; [apply qmin_le_l|]. lra.
Qed.


Lemma of_nat_plus (n m : nat) : (of_nat (n + m) == of_nat n + of_nat m)%Q.
Proof.
  unfold of_nat. rewrite Nat2Z.inj_add, inject_Z_plus. reflexivity.
Qed.

Lemma firstn_min_length {A : Type} (n : nat) (l : list A) :
  firstn (Nat.min n (length l)) l = firstn n l.
Proof.
  destruct (Nat.le_ge_cases n (length l)) as [H | H].
  - now rewrite Nat.min_l.
  - rewrite Nat.min_r by exact H. rewrite firstn_all.
    symmetry. now apply firstn_all2.
Qed.

Lemma page_share_nonneg (page : Page) :
  (0 <= of_nat (length (page_text page)) / 1000)%Q.
Proof.
  apply Qle_shift_div_l; [reflexivity|].
  pose proof (of_nat_nonneg (length (page_text page))). lra.
Qed.

Lemma tally_nonneg (pages : list Page) (t : Tally) :
  (0 <= total_text_coverage t)%Q ->
  (0 <= total_text_coverage (fold_left analyze_page pages t))%Q.
Proof.
  revert t. induction pages as [|p pages IH]; intros t Ht; cbn [fold_left];
    [exact Ht|].
  apply IH. unfold analyze_page. cbn [total_text_coverage].
  destruct (_ && _); [|exact Ht].
  pose proof (page_share_nonneg p). lra.
Qed.

Lemma tally_small (pages : list Page) (t : Tally) :
  Forall (fun p => length (page_text p) <= 5000) pages ->
  (total_text_coverage (fold_left analyze_page pages t)
   <= total_text_coverage t + 5 * of_nat (length pages))%Q.
Proof.
  revert t. induction pages as [|p pages IH]; intros t Hall; cbn [fold_left].
  - change (of_nat (length [])) with 0%Q. lra.
  - inversion Hall as [|p' ps Hp Hps]; subst.
    eapply Qle_trans; [apply IH, Hps|].
    change (length (p :: pages)) with (1 + length pages).
    rewrite of_nat_plus. change (of_nat 1) with 1%Q.
    assert (Hshare : (of_nat (length (page_text p)) / 1000 <= 5)%Q).
    { apply Qle_shift_div_r; [reflexivity|].
      apply of_nat_le in Hp. change (of_nat 5000) with 5000%Q in Hp. lra. }
    unfold analyze_page at 1. cbn [total_text_coverage].
    destruct (_ && _); lra.
Qed.

Lemma indicator_ratio (d s : nat) :
  let c := (of_nat (Nat.max d s) / of_nat (Nat.max (d + s) 1))%Q in
  (c == 0)%Q \/ ((1 # 2 <= c)%Q /\ (c <= 1)%Q).
Proof.
  intros c. subst c. destruct (Nat.eq_dec (d + s) 0) as [E0 | Hpos].
  - left. assert (d = 0) by lia. assert (s = 0) by lia. subst. reflexivity.
  - right. replace (Nat.max (d + s) 1) with (d + s) by lia.
    assert (Hden : (0 < of_nat (d + s))%Q) by (apply of_nat_pos; lia).
    pose proof (of_nat_le d (Nat.max d s) ltac:(lia)) as Hd.
    pose proof (of_nat_le s (Nat.max d s) ltac:(lia)) as Hs.
    pose proof (of_nat_le (Nat.max d s) (d + s) ltac:(lia)) as Hm.
    pose proof (of_nat_plus d s) as Hsum.
    split.
    + apply Qle_shift_div_l; [exact Hden|]. lra.
    + apply Qle_shift_div_r; [exact Hden|]. lra.
Qed.

(** X18: what [analyze_pdf_structure] returns is coherent: the coverage
    lies between 0 and 100, the confidence is 0 (no indicator at all) or
    lies between 0.5 and 1, the document has one page or more, the method
    is one of the three the entry point knows, and a document that is not
    digital always goes to OCR. *)
Theorem pdf_analysis_is_coherent (pdf_bytes : bytes) :
  let a := analyze_pdf_structure lib pdf_bytes in
  (0 <= text_coverage a)%Q /\ (text_coverage a <= 100)%Q
  /\ ((confidence a == 0)%Q
      \/ ((1 # 2 <= confidence a)%Q /\ (confidence a <= 1)%Q))
  /\ 1 <= page_count a
  /\ In (extraction_method a) [lit "digital_text"; lit "hybrid"; lit "ocr_only"]
  /\ (is_digital a = false -> extraction_method a = lit "ocr_only").
Proof.
  intros a. subst a. unfold analyze_pdf_structure.
  assert (Hfb : forall e,
    let a := fallback_analysis e in
    (0 <= text_coverage a)%Q /\ (text_coverage a <= 100)%Q
    /\ ((confidence a == 0)%Q
        \/ ((1 # 2 <= confidence a)%Q /\ (confidence a <= 1)%Q))
    /\ 1 <= page_count a
    /\ In (extraction_method a)
          [lit "digital_text"; lit "hybrid"; lit "ocr_only"]
    /\ (is_digital a = false -> extraction_method a = lit "ocr_only")).
  { intros e. cbn. split; [discriminate|]. split; [discriminate|].
    split; [right; split; discriminate|]. split; [lia|].
    split; [tauto|reflexivity]. }
  destruct (fitz_document lib pdf_bytes) as [doc|e]; [|apply Hfb].
  unfold analyze_opened.
  destruct (Nat.eqb (Nat.min 5 (length doc)) 0) eqn:E0; [apply Hfb|].
  apply Nat.eqb_neq in E0.
  set (t := fold_left analyze_page _ no_tally).
  cbn [text_coverage confidence page_count extraction_method is_digital].
  assert (Ht : (0 <= total_text_coverage t)%Q).
  { apply tally_nonneg. apply Qle_refl. }
  split; [|split; [|split; [|split; [|split]]]].
  - apply qmin_glb; [|discriminate].
    apply Qle_shift_div_l; [apply of_nat_pos; lia|lra].
  - apply qmin_le_r.
  - apply indicator_ratio.
  - lia.
  - destruct (scanned_indicators t <? digital_indicators t); cbn [andb];
      [|cbn; tauto].
    destruct (negb (Qle_bool _ 20)); [cbn; tauto|].
    destruct (negb (Qle_bool _ 5)); cbn; tauto.
  - intros ->. reflexivity.
Qed.

(** X19: a document whose pages hold 5000 characters or fewer each is
    never read as a digital one: the analysis chooses "ocr_only" and
    [process_document] returns what [extract_with_ocr] gives.  This
    includes the bytes that cannot be opened and the document of no
    page. *)
Theorem short_pages_go_to_ocr (pdf_bytes : bytes) :
  (forall doc, fitz_document lib pdf_bytes = Ok doc ->
     Forall (fun p => length (page_text p) <= 5000) (firstn 5 doc)) ->
  extraction_method (analyze_pdf_structure lib pdf_bytes) = lit "ocr_only"
  /\ fst (process_document lib pdf_bytes) = extract_with_ocr lib pdf_bytes.
Proof.
  intros Hshort.
  assert (Hm : extraction_method (analyze_pdf_structure lib pdf_bytes)
               = lit "ocr_only").
  { unfold analyze_pdf_structure.
    destruct (fitz_document lib pdf_bytes) as [doc|e]; [|reflexivity].
    specialize (Hshort doc eq_refl). unfold analyze_opened.
    destruct (Nat.eqb (Nat.min 5 (length doc)) 0) eqn:E0; [reflexivity|].
    apply Nat.eqb_neq in E0.
    rewrite firstn_min_length.
    replace (Nat.min 5 (length doc)) with (length (firstn 5 doc)) in *
      by (rewrite length_firstn; reflexivity).
    set (pages := firstn 5 doc) in *.
    pose proof (tally_small pages no_tally Hshort) as Hsmall.
    cbn [total_text_coverage no_tally] in Hsmall.
    set (t := fold_left analyze_page pages no_tally) in *.
    cbn [extraction_method].
    assert (Hcov : (qmin (total_text_coverage t / of_nat (length pages)) 100
                    <= 5)%Q).
    { eapply Qle_trans; [apply qmin_le_l|].
      apply Qle_shift_div_r; [apply of_nat_pos; lia|]. lra. }
    assert (H5 : Qle_bool (qmin (total_text_coverage t
                                 / of_nat (length pages)) 100) 5 = true)
      by now apply Qle_bool_iff.
    assert (H20 : Qle_bool (qmin (total_text_coverage t
                                  / of_nat (length pages)) 100) 20 = true).
    { apply Qle_bool_iff. lra. }
    rewrite H5, H20. cbn [negb]. rewrite !andb_false_r. reflexivity. }
  split; [exact Hm|]. unfold process_document. rewrite Hm. reflexivity.
Qed.


(** *** The digital extraction *)

(** What the three [try] blocks keep, [seen] being the readings made so
    far. *)
Definition chosen (names : list str) (seen : list (result str)) (b : Best)
    : Prop :=
  best_confidence b = _calculate_text_quality (best_text b)
  /\ ((best_method b = [] /\ best_text b = [] /\ best_confidence b = 0%Q)
      \/ (In (best_method b) names /\ (0 < best_confidence b)%Q))
  /\ (forall t, In (Ok t) seen ->
        (_calculate_text_quality t <= best_confidence b)%Q)
  /\ length (best_errors b)
     = length (filter (fun r => match r with Ok _ => false | Raised _ => true end)
                      seen).

Lemma try_method_chosen (names : list str) (seen : list (result str))
    (b : Best) (method_name failure : str) (read : result str) :
  In method_name names -> chosen names seen b ->
  chosen names (seen ++ [read]) (try_method method_name failure read b).
Proof.
  intros Hname (Hq & Hm & Hmax & Herr). unfold try_method.
  assert (H0 : (0 <= best_confidence b)%Q).
  { destruct Hm as [(_ & _ & ->) | [_ H]]; [apply Qle_refl|lra]. }
  destruct read as [t|e].
  - destruct (Qle_bool (_calculate_text_quality t) (best_confidence b)) eqn:E;
      cbn [negb].
    + apply Qle_bool_iff in E. split; [exact Hq|]. split; [exact Hm|]. split.
      * intros t' Ht'. apply in_app_iff in Ht' as [Ht' | [[= <-] | []]];
          [now apply Hmax|exact E].
      * rewrite filter_app, length_app. cbn. lia.
    + apply not_Qle_bool in E. split; [reflexivity|]. cbn [best_method
        best_confidence best_text best_errors]. split; [|split].
      * right. split; [exact Hname|lra].
      * intros t' Ht'. apply in_app_iff in Ht' as [Ht' | [[= <-] | []]];
          [|apply Qle_refl].
        apply Hmax in Ht'. lra.
      * rewrite filter_app, length_app. cbn. lia.
  - split; [exact Hq|]. cbn [best_method best_confidence best_text
      best_errors]. split; [exact Hm|]. split.
    + intros t' Ht'. apply in_app_iff in Ht' as [Ht' | [[=] | []]].
      now apply Hmax.
    + rewrite filter_app, !length_app. cbn. lia.
Qed.

(** X20: the confidence [extract_digital_text] reports is the quality of
    the text it returns, and no library gave a text of higher quality.  A
    text is only returned with a positive quality, so it is empty or has 50
    characters or more; when no text has a positive quality, even though a
    library did read one, the result is the empty text under the method
    "digital_" with confidence 0.  One error is recorded for each library
    that raised. *)
Theorem digital_text_confidence (pdf_bytes : bytes) :
  let r := extract_digital_text lib pdf_bytes in
  result_confidence r = _calculate_text_quality (text r)
  /\ (forall method_name failure t,
        In (method_name, failure, Ok t) (digital_reads lib pdf_bytes) ->
        (_calculate_text_quality t <= result_confidence r)%Q)
  /\ ((method r = lit "digital_" /\ text r = []
       /\ result_confidence r = 0%Q)
      \/ (In (method r) [lit "digital_pymupdf"; lit "digital_pdfplumber";
                         lit "digital_pdfminer"]
          /\ (0 < result_confidence r)%Q
          /\ 50 <= length (strip (text r))))
  /\ length (errors r)
     = length (filter (fun '(_, _, read) =>
                         match read with Ok _ => false | Raised _ => true end)
                      (digital_reads lib pdf_bytes)).
Proof.
  intros r. subst r. unfold extract_digital_text.
  set (names := [lit "pymupdf"; lit "pdfplumber"; lit "pdfminer"]).
  assert (H0 : chosen names [] nothing_yet).
  { split; [reflexivity|]. split; [left; repeat split|].
    split; [intros t []|reflexivity]. }
  unfold digital_reads. cbn [fold_left].
  set (r1 := first_pages 20 (fitz_texts lib pdf_bytes)).
  set (r2 := first_pages 20 (pdfplumber_texts lib pdf_bytes)).
  set (r3 := pdfminer_text lib pdf_bytes).
  apply (try_method_chosen names [] nothing_yet (lit "pymupdf")
           (lit "PyMuPDF failed: ") r1) in H0; [|cbn; tauto].
  apply (try_method_chosen names _ _ (lit "pdfplumber")
           (lit "pdfplumber failed: ") r2) in H0; [|cbn; tauto].
  apply (try_method_chosen names _ _ (lit "pdfminer")
           (lit "pdfminer failed: ") r3) in H0; [|cbn; tauto].
  cbn [app] in H0. set (b := try_method _ _ r3 _) in *.
  destruct H0 as (Hq & Hm & Hmax & Herr).
  cbn [text method result_confidence errors].
  split; [exact Hq|]. split; [|split].
  - intros method_name failure t [[= _ _ E] | [[= _ _ E] | [[= _ _ E] | []]]];
      apply Hmax; rewrite <- E; cbn; tauto.
  - destruct Hm as [(-> & Ht & Hc) | [Hin Hpos]].
    + left. repeat split; assumption.
    + right. split; [|split; [exact Hpos|]].
      * destruct Hin as [<- | [<- | [<- | []]]]; cbn; tauto.
      * destruct (Nat.lt_ge_cases (length (strip (best_text b))) 50)
          as [Hshort | Hlong]; [|exact Hlong].
        apply short_text_quality in Hshort. rewrite <- Hq in Hshort.
        rewrite Hshort in Hpos. discriminate.
  - rewrite Herr. cbn [filter]. destruct r1, r2, r3; reflexivity.
Qed.

(** *** The OCR extraction *)

Lemma sum_of_bounds (l : list Z) (lo hi : Z) :
  Forall (fun c => lo <= c <= hi)%Z l ->
  (lo * Z.of_nat (length l) <= sum_of l <= hi * Z.of_nat (length l))%Z.
Proof.
  induction 1 as [|c l Hc Hl IH]; cbn [sum_of fold_right length]; [lia|].
  fold (sum_of l). lia.
Qed.

Lemma mean_bounds (l : list Z) (lo hi : Z) :
  l <> [] -> Forall (fun c => lo <= c <= hi)%Z l ->
  (inject_Z lo <= mean l)%Q /\ (mean l <= inject_Z hi)%Q.
Proof.
  intros Hne Hall. apply sum_of_bounds in Hall.
  assert (Hlen : 0 < length l) by (destruct l; [congruence|cbn; lia]).
  unfold mean. pose proof (of_nat_pos _ Hlen) as Hpos.
  split.
  - apply Qle_shift_div_l; [exact Hpos|]. unfold of_nat.
    rewrite <- inject_Z_mult, <- Zle_Qle. lia.
  - apply Qle_shift_div_r; [exact Hpos|]. unfold of_nat.
    rewrite <- inject_Z_mult, <- Zle_Qle. lia.
Qed.

Lemma kept_word_counts (words : list (str * Z)) :
  filter kept_word words <> [] ->
  filter (fun conf => (0 <? conf)%Z) (map snd words) <> [].
Proof.
  induction words as [|w words IH]; cbn [filter map]; [congruence|].
  destruct (kept_word w) eqn:E.
  - intros _. unfold kept_word in E. apply andb_true_iff in E as [E _].
    apply Z.ltb_lt in E. replace (0 <? snd w)%Z with true; [discriminate|].
    symmetry. apply Z.ltb_lt. lia.
  - intros H. destruct (0 <? snd w)%Z; [discriminate|]. now apply IH.
Qed.

Lemma strip_nil : strip [] = [].
Proof. reflexivity. Qed.

(** What the loop over the pages keeps; [top] bounds the confidence of a
    word. *)
Definition processed (top : Z) (st : OcrState) : Prop :=
  (pages_processed st = 0 ->
   full_text st = [] /\ total_confidence st = 0%Q)
  /\ (0 < pages_processed st ->
      full_text st <> [] /\ (0 < total_confidence st)%Q)
  /\ pages_processed st <= page_num st
  /\ (total_confidence st <= inject_Z top * of_nat (pages_processed st))%Q.

Definition bounded (top : Z) (page : result (list (str * Z))) : Prop :=
  match page with
  | Ok words => Forall (fun w => snd w <= top)%Z words
  | Raised _ => True
  end.

Lemma ocr_page_processed (top : Z) (st : OcrState)
    (page : result (list (str * Z))) :
  bounded top page -> processed top st -> processed top (ocr_page st page).
Proof.
  intros Hb (H0 & Hpos & Hnum & Htop). unfold ocr_page, processed.
  destruct page as [words|e].
  - destruct (is_empty (strip (join (lit " ")
                                 (map fst (filter kept_word words))))) eqn:E;
      cbn [negb].
    + split; [exact H0|]. split; [exact Hpos|]. cbn [pages_processed page_num
        total_confidence]. split; [lia|exact Htop].
    + assert (Hkept : filter kept_word words <> []).
      { intros Hnil. rewrite Hnil in E. discriminate. }
      apply kept_word_counts in Hkept.
      assert (Hall : Forall (fun c => 1 <= c <= top)%Z
                       (filter (fun conf => (0 <? conf)%Z) (map snd words))).
      { apply Forall_forall. intros c Hc. apply filter_In in Hc as [Hc Hc0].
        apply Z.ltb_lt in Hc0. apply in_map_iff in Hc as (w & <- & Hw).
        cbn in Hb. rewrite Forall_forall in Hb. specialize (Hb w Hw). lia. }
      destruct (mean_bounds _ 1 top Hkept Hall) as [Hlo Hhi].
      change (inject_Z 1) with 1%Q in Hlo.
      assert (Htot : (0 <= total_confidence st)%Q).
      { destruct (Nat.eq_dec (pages_processed st) 0) as [Ez | Hnz].
        - destruct (H0 Ez) as [_ ->]. apply Qle_refl.
        - apply Qlt_le_weak, Hpos. lia. }
      cbn [pages_processed page_num total_confidence full_text].
      split; [discriminate|]. split; [|split].
      * intros _. split; [|lra].
        cbn [paged]. intros Happ. apply app_eq_nil in Happ as [_ Happ].
        discriminate.
      * lia.
      * change (S (pages_processed st)) with (1 + pages_processed st).
        rewrite of_nat_plus. change (of_nat 1) with 1%Q. lra.
  - cbn [pages_processed page_num total_confidence full_text].
    split; [exact H0|]. split; [exact Hpos|]. split; [lia|exact Htop].
Qed.

Lemma ocr_pages_processed (top : Z) (pages : list (result (list (str * Z))))
    (st : OcrState) :
  Forall (bounded top) pages -> processed top st ->
  processed top (fold_left ocr_page pages st)
  /\ page_num (fold_left ocr_page pages st) = page_num st + length pages.
Proof.
  revert st. induction pages as [|p pages IH]; intros st Hall Hst;
    cbn [fold_left length]; [split; [exact Hst|lia]|].
  inversion Hall as [|p' ps Hp Hps]; subst.
  destruct (IH (ocr_page st p) Hps (ocr_page_processed top st p Hp Hst))
    as [Hproc Hnum].
  split; [exact Hproc|]. rewrite Hnum.
  unfold ocr_page. destruct p as [words|e]; [destruct (negb _)|];
    cbn [page_num]; lia.
Qed.


Lemma bounded_weaken (top top' : Z) (page : result (list (str * Z))) :
  (top <= top')%Z -> bounded top page -> bounded top' page.
Proof.
  intros Hle. destruct page as [words|e]; cbn; [|trivial].
  apply Forall_impl. intros w Hw. lia.
Qed.

Lemma some_bound (pages : list (result (list (str * Z)))) :
  exists top, Forall (bounded top) pages.
Proof.
  induction pages as [|p pages [top IH]]; [exists 0%Z; constructor|].
  assert (Hp : exists top', bounded top' p).
  { destruct p as [words|e]; [|exists 0%Z; exact I]. cbn.
    induction words as [|w words [t IHw]]; [exists 0%Z; constructor|].
    exists (Z.max t (snd w)). constructor; [lia|].
    eapply Forall_impl; [|exact IHw]. intros w' Hw'. cbn beta in Hw'. lia. }
  destruct Hp as [top' Hp]. exists (Z.max top top'). constructor.
  - apply (bounded_weaken top'); [lia|exact Hp].
  - eapply Forall_impl; [|exact IH]. intros p'.
    apply bounded_weaken. lia.
Qed.

Lemma ocr_start_processed (top : Z) : processed top ocr_start.
Proof.
  unfold processed, ocr_start. cbn. split; [tauto|]. split; [lia|].
  split; [lia|]. change (of_nat 0) with 0%Q. lra.
Qed.

(** X21: [extract_with_ocr] returns the empty text exactly when it counts
    no page, and then its confidence is 0; when it counts a page its
    confidence is positive.  It never counts more than 15 pages, and when no
    word has a confidence above 100 the confidence of the result is at
    most 1. *)
Theorem ocr_result_shape (pdf_bytes : bytes) :
  let r := extract_with_ocr lib pdf_bytes in
  (result_page_count r = 0 <-> text r = [])
  /\ (result_page_count r = 0 -> result_confidence r = 0%Q)
  /\ (0 < result_page_count r -> (0 < result_confidence r)%Q)
  /\ result_page_count r <= 15
  /\ ((forall pages, ocr_pages lib pdf_bytes = Ok pages ->
         Forall (bounded 100) (firstn 15 pages)) ->
      (result_confidence r <= 1)%Q).
Proof.
  intros r. subst r. unfold extract_with_ocr.
  destruct (ocr_pages lib pdf_bytes) as [pages|e];
    cbn [result_page_count text result_confidence].
  2:{ split; [tauto|]. split; [reflexivity|]. split; [lia|].
      split; [lia|discriminate]. }
  destruct (some_bound (firstn 15 pages)) as [top Htop].
  destruct (ocr_pages_processed top _ ocr_start Htop (ocr_start_processed top))
    as [(H0 & Hpos & Hnum & _) Hlen].
  set (st := fold_left ocr_page (firstn 15 pages) ocr_start) in *.
  cbn [page_num ocr_start] in Hlen. rewrite length_firstn in Hlen.
  split; [|split; [|split; [|split]]].
  - split; [intros H; now apply H0|].
    intros Ht. destruct (Nat.eq_dec (pages_processed st) 0) as [E | E];
      [exact E|]. destruct Hpos as [Hne _]; [lia|]. contradiction.
  - intros E. rewrite E. reflexivity.
  - intros Hp. replace (0 <? pages_processed st) with true
      by (symmetry; now apply Nat.ltb_lt).
    destruct (Hpos Hp) as [_ Htot]. pose proof (of_nat_pos _ Hp) as Hden.
    apply Qlt_shift_div_l; [reflexivity|].
    apply Qlt_shift_div_l; [exact Hden|]. lra.
  - lia.
  - intros H100.
    destruct (ocr_pages_processed 100 _ ocr_start (H100 pages eq_refl)
                (ocr_start_processed 100)) as [(_ & _ & _ & Hle) _].
    fold st in Hle. destruct (0 <? pages_processed st) eqn:Ep; [|discriminate].
    apply Nat.ltb_lt in Ep. pose proof (of_nat_pos _ Ep) as Hden.
    apply Qle_shift_div_r; [reflexivity|].
    apply Qle_shift_div_r; [exact Hden|].
    change (inject_Z 100) with 100%Q in Hle. lra.
Qed.

End IntelligentFacts.

(** A one-page PDF of a short letter, as the libraries read it. *)
Definition short_letter : IntelligentPDF.Libraries :=
  let page_text := lit "Dear Sir, please find my transcript attached." in
  {| IntelligentPDF.fitz_document := fun _ =>
       EnhancedOCR.Ok
         [ {| IntelligentPDF.text_block_count := 1;
              IntelligentPDF.font_info := true;
              IntelligentPDF.image_list := [];
              IntelligentPDF.page_text := page_text;
              IntelligentPDF.page_area := 500990 |} ];
     IntelligentPDF.fitz_len := fun _ => EnhancedOCR.Ok 1;
     IntelligentPDF.fitz_texts := fun _ => EnhancedOCR.Ok [page_text];
     IntelligentPDF.pdfplumber_texts := fun _ => EnhancedOCR.Ok [page_text];
     IntelligentPDF.pdfminer_text := fun _ => EnhancedOCR.Ok page_text;
     IntelligentPDF.ocr_pages := fun _ =>
       EnhancedOCR.Ok
         [ EnhancedOCR.Ok [ (lit "Dear", 96%Z); (lit "Sir,", 91%Z);
                            ([], (-1)%Z); (lit "please", 25%Z) ] ] |}.

Lemma short_pages_go_to_ocr_witness :
  IntelligentPDF.method
    (fst (@IntelligentPDF.process_document AsciiData short_letter [x25; x50]))
  = lit "ocr_tesseract".
Proof.
  destruct (@short_pages_go_to_ocr AsciiData short_letter [x25; x50])
    as [_ H].
  - intros doc [= <-]. repeat constructor.
  - rewrite H. reflexivity.
Defined.

(** ** The similarity is a score *)

Section SimilarityRange.
Import SequenceMatcher.

(** A block that lies inside the window it was searched in. *)
Definition in_window (alo ahi blo bhi : nat) (x : best) : Prop :=
  alo <= besti x /\ besti x + bestsize x <= ahi
  /\ blo <= bestj x /\ bestj x + bestsize x <= bhi.

(** The runs recorded for a row: none is longer than [n], and none starts
    before [blo]. *)
Definition runs_ok (blo n : nat) (d : list (nat * nat)) : Prop :=
  forall j, j2len_get d j <= n
            /\ (j2len_get d j = 0 \/ j2len_get d j + blo <= j + 1).

Lemma runs_ok_nil (blo n : nat) : runs_ok blo n [].
Proof. intros j. cbn. split; [lia|now left]. Qed.

Lemma runs_ok_cons (blo n j k : nat) (d : list (nat * nat)) :
  k <= n -> k + blo <= j + 1 -> runs_ok blo n d ->
  runs_ok blo n ((j, k) :: d).
Proof.
  intros Hk Hj Hd j'. cbn [j2len_get].
  destruct (Nat.eqb j' j) eqn:E; [|apply Hd].
  apply Nat.eqb_eq in E. subst. split; [exact Hk|now right].
Qed.

Lemma inner_in_window (alo ahi blo bhi i : nat) (j2len : list (nat * nat))
    (js : list nat) (newj2len : list (nat * nat)) (bst : best) :
  alo <= i -> i < ahi ->
  runs_ok blo (i - alo) j2len ->
  runs_ok blo (i + 1 - alo) newj2len ->
  in_window alo ahi blo bhi bst ->
  runs_ok blo (i + 1 - alo) (fst (inner i blo bhi j2len js newj2len bst))
  /\ in_window alo ahi blo bhi (snd (inner i blo bhi j2len js newj2len bst)).
Proof.
  intros Hlo Hhi Hprev. revert newj2len bst.
  induction js as [|j js IH]; intros newj2len bst Hnew Hbst; cbn [inner];
    [now split|].
  destruct (j <? blo) eqn:Eblo; [now apply IH|].
  destruct (bhi <=? j) eqn:Ebhi; [now split|].
  apply Nat.ltb_ge in Eblo. apply Nat.leb_gt in Ebhi.
  set (k := (match j with O => 0 | S j1 => j2len_get j2len j1 end) + 1).
  assert (Hk : k <= i + 1 - alo /\ k + blo <= j + 1).
  { subst k. destruct j as [|j1]; [lia|].
    destruct (Hprev j1) as [H1 [H2 | H2]]; lia. }
  apply IH.
  - apply runs_ok_cons; [lia|lia|exact Hnew].
  - destruct (bestsize bst <? k); [|exact Hbst].
    unfold in_window. cbn [besti bestj bestsize]. lia.
Qed.

Lemma outer_in_window (a b : str) (alo ahi blo bhi : nat) (m i0 : nat)
    (j2len : list (nat * nat)) (bst : best) :
  alo <= i0 -> i0 + m <= ahi ->
  runs_ok blo (i0 - alo) j2len ->
  in_window alo ahi blo bhi bst ->
  in_window alo ahi blo bhi (outer a b blo bhi (seq i0 m) j2len bst).
Proof.
  revert i0 j2len bst. induction m as [|m IH]; intros i0 j2len bst Hlo Hhi Hd
    Hbst; cbn [seq outer]; [exact Hbst|].
  destruct (nth_error a i0) as [c|]; [|exact Hbst].
  destruct (inner_in_window alo ahi blo bhi i0 j2len (b2j b c) [] bst)
    as [Hd' Hbst']; try assumption; try lia.
  { apply runs_ok_nil. }
  destruct (inner i0 blo bhi j2len (b2j b c) [] bst) as [newj2len bst'].
  cbn [fst snd] in *. apply IH; try assumption; try lia.
  replace (S i0 - alo) with (i0 + 1 - alo) by lia. exact Hd'.
Qed.

Lemma extend_left_in_window (a b : str) (alo ahi blo bhi fuel : nat)
    (bst : best) :
  in_window alo ahi blo bhi bst ->
  in_window alo ahi blo bhi (extend_left a b alo blo fuel bst).
Proof.
  revert bst. induction fuel as [|fuel IH]; intros bst Hbst;
    cbn [extend_left]; [exact Hbst|].
  destruct ((alo <? besti bst) && (blo <? bestj bst)
            && same_at a b (besti bst - 1) (bestj bst - 1)) eqn:E;
    [|exact Hbst].
  apply andb_true_iff in E as [E _]. apply andb_true_iff in E as [E1 E2].
  apply Nat.ltb_lt in E1, E2. apply IH.
  unfold in_window in *. cbn [besti bestj bestsize]. lia.
Qed.

Lemma extend_right_in_window (a b : str) (alo ahi blo bhi fuel : nat)
    (bst : best) :
  in_window alo ahi blo bhi bst ->
  in_window alo ahi blo bhi (extend_right a b ahi bhi fuel bst).
Proof.
  revert bst. induction fuel as [|fuel IH]; intros bst Hbst;
    cbn [extend_right]; [exact Hbst|].
  destruct ((besti bst + bestsize bst <? ahi)
            && (bestj bst + bestsize bst <? bhi)
            && same_at a b (besti bst + bestsize bst)
                 (bestj bst + bestsize bst)) eqn:E; [|exact Hbst].
  apply andb_true_iff in E as [E _]. apply andb_true_iff in E as [E1 E2].
  apply Nat.ltb_lt in E1, E2. apply IH.
  unfold in_window in *. cbn [besti bestj bestsize]. lia.
Qed.

Lemma find_longest_match_in_window (a b : str) (alo ahi blo bhi : nat) :
  alo <= ahi -> blo <= bhi ->
  in_window alo ahi blo bhi (find_longest_match a b alo ahi blo bhi).
Proof.
  intros Ha Hb. unfold find_longest_match.
  apply extend_right_in_window, extend_left_in_window, outer_in_window.
  - lia.
  - lia.
  - apply runs_ok_nil.
  - unfold in_window. cbn. lia.
Qed.

Lemma matched_in_window (fuel : nat) (a b : str) (alo ahi blo bhi : nat) :
  alo <= ahi -> blo <= bhi ->
  matched fuel a b alo ahi blo bhi <= Nat.min (ahi - alo) (bhi - blo).
Proof.
  revert alo ahi blo bhi. induction fuel as [|fuel IH];
    intros alo ahi blo bhi Ha Hb; cbn [matched]; [lia|].
  pose proof (find_longest_match_in_window a b alo ahi blo bhi Ha Hb)
    as (H1 & H2 & H3 & H4).
  set (x := find_longest_match a b alo ahi blo bhi) in *.
  destruct (Nat.eqb (bestsize x) 0); [lia|].
  assert (Hl : (if (alo <? besti x) && (blo <? bestj x)
                then matched fuel a b alo (besti x) blo (bestj x) else 0)
               <= Nat.min (besti x - alo) (bestj x - blo)).
  { destruct ((alo <? besti x) && (blo <? bestj x)); [|lia].
    apply IH; lia. }
  assert (Hr : (if (besti x + bestsize x <? ahi)
                   && (bestj x + bestsize x <? bhi)
                then matched fuel a b (besti x + bestsize x) ahi
                       (bestj x + bestsize x) bhi else 0)
               <= Nat.min (ahi - (besti x + bestsize x))
                          (bhi - (bestj x + bestsize x))).
  { destruct ((besti x + bestsize x <? ahi)
              && (bestj x + bestsize x <? bhi)); [|lia].
    apply IH; lia. }
  lia.
Qed.

Lemma ratio_range (a b : str) : (0 <= ratio a b)%Q /\ (ratio a b <= 1)%Q.
Proof.
  unfold ratio.
  pose proof (matched_in_window (S (length a)) a b 0 (length a) 0 (length b)
                ltac:(lia) ltac:(lia)) as H.
  set (m := matched _ a b 0 (length a) 0 (length b)) in *.
  destruct (length a + length b) as [|n] eqn:E.
  - split; discriminate.
  - split; unfold Qle; cbn [Qnum Qden]; lia.
Qed.

Context {U : UnicodeData}.

Lemma qmax_range (lo hi x y : Q) :
  (lo <= x <= hi)%Q -> (lo <= y <= hi)%Q -> (lo <= qmax x y <= hi)%Q.
Proof. intros Hx Hy. unfold qmax. now destruct (Qle_bool x y). Qed.

(** X22: the similarity of two names is a score between 0 and 1, so the
    threshold 0.7 of [match_names] is met by a part of the range only; it
    is 0 when one of the names is empty. *)
Theorem similarity_range (name1 name2 : str) :
  (0 <= calculate_similarity name1 name2)%Q
  /\ (calculate_similarity name1 name2 <= 1)%Q
  /\ (name1 = [] \/ name2 = [] -> calculate_similarity name1 name2 = 0%Q).
Proof.
  unfold calculate_similarity.
  destruct (is_empty name1 || is_empty name2) eqn:E.
  { split; [apply Qle_refl|]. split; [discriminate|reflexivity]. }
  assert (Hne : ~ (name1 = [] \/ name2 = [])).
  { apply orb_false_iff in E as [E1 E2]. intros [-> | ->]; discriminate. }
  cut ((0 <= (if str_eqb (normalize_name name1) (normalize_name name2)
              then 1%Q
              else
                let seq_sim :=
                  ratio (normalize_name name1) (normalize_name name2) in
                let parts1 := to_set (split (normalize_name name1)) in
                let parts2 := to_set (split (normalize_name name2)) in
                if issubset parts1 parts2 || issubset parts2 parts1
                then qmax (8 # 10) seq_sim
                else
                  let common_parts := intersection parts1 parts2 in
                  if negb (Nat.eqb (length common_parts) 0)
                  then qmax seq_sim
                         ((Z.of_nat (length common_parts)
                           # Pos.of_nat (Nat.max (length parts1)
                                                 (length parts2))) * (7 # 10))
                  else seq_sim) <= 1)%Q).
  { intros [H0 H1]. split; [exact H0|]. split; [exact H1|tauto]. }
  destruct (str_eqb _ _); [split; discriminate|]. cbn zeta.
  pose proof (ratio_range (normalize_name name1) (normalize_name name2))
    as Hr.
  destruct (issubset _ _ || issubset _ _).
  { apply qmax_range; [split; discriminate|exact Hr]. }
  set (p1 := to_set (split (normalize_name name1))).
  set (p2 := to_set (split (normalize_name name2))).
  destruct (Nat.eqb (length (intersection p1 p2)) 0) eqn:Ec; cbn [negb];
    [exact Hr|].
  apply Nat.eqb_neq in Ec. apply qmax_range; [exact Hr|].
  assert (Hlen : length (intersection p1 p2) <= Nat.max (length p1) (length p2)).
  { pose proof (filter_length_le (fun x => mem_str x p2) p1) as H.
    unfold intersection. lia. }
  set (c := length (intersection p1 p2)) in *.
  set (mx := Nat.max (length p1) (length p2)) in *.
  assert (Hcov : (0 <= Z.of_nat c # Pos.of_nat mx)%Q
                 /\ (Z.of_nat c # Pos.of_nat mx <= 1)%Q).
  { split; unfold Qle; cbn [Qnum Qden]; [lia|].
    rewrite Z.mul_1_r, Z.mul_1_l.
    destruct mx as [|mx']; [lia|]. rewrite <- Pos.of_nat_succ.
    rewrite Zpos_P_of_succ_nat. lia. }
  destruct Hcov as [Hc0 Hc1]. split; nra.
Qed.

End SimilarityRange.

(** *** The course code *)

Section CourseCode.
Context {U : UnicodeData}.

Definition capital (c : char) : Prop := (65 <= c <= 90)%N.

(** Two to four capital letters, three or four digits, and at most one
    more capital letter. *)
Definition course_code_form (letters digits suffix : str) : Prop :=
  2 <= length letters <= 4 /\ Forall capital letters
  /\ 3 <= length digits <= 4
  /\ Forall (fun c => is_decimal c = true) digits
  /\ (suffix = [] \/ exists x, suffix = [x] /\ capital x).

Definition course_code_shape (i : nat) (w : str) : Prop :=
  match i with
  | 1 => 2 <= length w <= 4 /\ Forall capital w
  | 2 => exists digits suffix,
           w = digits ++ suffix /\ 3 <= length digits <= 4
           /\ Forall (fun c => is_decimal c = true) digits
           /\ (suffix = [] \/ exists x, suffix = [x] /\ capital x)
  | _ => True
  end.

Lemma capital_member (x : char) : cset_mem false c_AZ x = true -> capital x.
Proof.
  cbn. rewrite orb_false_r. intros H. apply andb_true_iff in H as [H1 H2].
  apply N.leb_le in H1, H2. split; assumption.
Qed.

Lemma course_code_re_respects :
  respects false course_code_shape course_code_re
  /\ In 1 (sure course_code_re) /\ In 2 (sure course_code_re).
Proof.
  unfold course_code_re. cbn [seqs respects].
  split; [|split; cbn; tauto].
  repeat match goal with |- _ /\ _ => split end; try exact I.
  - intros w Hw. apply matches_times in Hw as [Hl Hf]. split; [exact Hl|].
    eapply Forall_impl; [|exact Hf]. apply capital_member.
  - intros w (d & s & -> & Hd & (us & -> & Hus & Hlen)).
    apply matches_times in Hd as [Hl Hf]. exists d, (concat us).
    split; [reflexivity|]. split; [exact Hl|]. split; [exact Hf|].
    destruct us as [|u [|u' us]]; cbn in Hlen; [now left| |lia].
    right. inversion Hus as [|? ? (x & -> & Hx) _]; subst.
    exists x. cbn. split; [reflexivity|now apply capital_member].
Qed.

(** X27: a course code [extract_course_code] returns is made of two to
    four capital letters A to Z, then three or four decimal digits, then at
    most one more capital letter: it has no space and 5 to 9
    characters. *)
Theorem extract_course_code_shape (text c : str) :
  extract_course_code text = Some c ->
  (exists letters digits suffix,
     c = letters ++ digits ++ suffix
     /\ course_code_form letters digits suffix)
  /\ 5 <= length c <= 9.
Proof.
  unfold extract_course_code.
  destruct (search false course_code_re (py_upper text)) as [m|] eqn:E;
    [|discriminate].
  intros [= <-]. destruct course_code_re_respects as (Hr & H1 & H2).
  apply (search_shape false course_code_shape _ _ m Hr) in E
    as (_ & Hshape & Hsure & _).
  unfold group_str.
  pose proof (Hsure 0 H1) as Hs1. pose proof (Hsure 1 H2) as Hs2.
  destruct (group m 1) as [letters|] eqn:E1; [|contradiction].
  destruct (group m 2) as [rest|] eqn:E2; [|contradiction].
  destruct (Hshape 0 letters E1) as [Hl Hcap].
  destruct (Hshape 1 rest E2) as (digits & suffix & -> & Hd & Hdec & Hsuf).
  split.
  - exists letters, digits, suffix. split; [reflexivity|].
    repeat split; try assumption; lia.
  - rewrite !length_app.
    destruct Hsuf as [-> | (x & -> & _)]; cbn [length]; lia.
Qed.

End CourseCode.

Lemma extract_course_code_shape_witness :
  5 <= length (lit "CMT208A") <= 9.
Proof.
  apply (@extract_course_code_shape AsciiData (lit "see cmt 208a ")
           (lit "CMT208A")).
  vm_compute. reflexivity.
Defined.

(** ** The name check of the transcript view *)

Section NameCheckFacts.
Import OcrViews.
Context {U : UnicodeData}.

(** X25: the name check of the transcript view does not depend on which of
    the two names was provided and which was extracted. *)
Theorem check_name_match_symmetric (a b : str) :
  check_name_match a b = check_name_match b a.
Proof.
  unfold check_name_match. rewrite (orb_comm (is_empty a)).
  destruct (is_empty b || is_empty a); [reflexivity|].
  rewrite (str_eqb_sym (strip (py_lower a))).
  destruct (str_eqb (strip (py_lower b)) (strip (py_lower a)));
    [reflexivity|].
  rewrite (orb_comm (contains (strip (py_lower a)) (strip (py_lower b)))).
  destruct (contains (strip (py_lower b)) (strip (py_lower a))
            || contains (strip (py_lower a)) (strip (py_lower b)));
    [reflexivity|].
  set (pa := to_set (split (strip (py_lower a)))).
  set (pb := to_set (split (strip (py_lower b)))).
  rewrite (andb_comm (negb (Nat.eqb (length pa) 0))).
  destruct (negb (Nat.eqb (length pb) 0) && negb (Nat.eqb (length pa) 0));
    [|reflexivity].
  unfold enough_words.
  rewrite (intersection_length pa pb) by apply NoDup_nodup.
  now rewrite Nat.max_comm.
Qed.

(** X26: a provided name that is blank, though not empty, passes the name
    check against every extracted name: once lowered and stripped it is the
    empty string, which every string contains. *)
Theorem blank_name_matches_any (provided_name extracted_name : str) :
  provided_name <> [] -> extracted_name <> [] ->
  strip (py_lower provided_name) = [] ->
  check_name_match provided_name extracted_name = true.
Proof.
  intros Ha Hb Hblank. unfold check_name_match.
  destruct provided_name as [|c a]; [congruence|].
  destruct extracted_name as [|d b]; [congruence|].
  cbn [is_empty orb]. rewrite Hblank.
  destruct (str_eqb [] _); [reflexivity|].
  destruct (strip (py_lower (d :: b))); reflexivity.
Qed.

End NameCheckFacts.

Lemma blank_name_matches_any_witness :
  @OcrViews.check_name_match AsciiData (lit " ") (lit "Jane Wanjiru") = true.
Proof.
  apply (@blank_name_matches_any AsciiData (lit " ") (lit "Jane Wanjiru"));
    [discriminate|discriminate|reflexivity].
Defined.

(** ** No unit is exempt *)

Section NeverExempt.
Context {U : UnicodeData}.

(** The tables of the class on ASCII, for what its laws leave open: the
    lower-case mapping of [re.IGNORECASE] and the digits. *)
Hypothesis lower1_ascii : forall c, is_ascii c -> lower1 c = ascii_to_lower c.
Hypothesis decimal_ascii : forall c, is_ascii c -> is_decimal c = ascii_digit c.

Lemma same_lower_same_upper (x c : char) :
  ascii_to_lower x = ascii_to_lower c -> ascii_to_upper x = ascii_to_upper c.
Proof.
  unfold ascii_to_lower, ascii_to_upper, ascii_upper_letter,
    ascii_lower_letter.
  destruct (65 <=? x)%N eqn:X1, (x <=? 90)%N eqn:X2, (97 <=? x)%N eqn:X3,
    (x <=? 122)%N eqn:X4, (65 <=? c)%N eqn:C1, (c <=? 90)%N eqn:C2,
    (97 <=? c)%N eqn:C3, (c <=? 122)%N eqn:C4; cbn [andb];
    rewrite ?N.leb_le, ?N.leb_gt in *; intros H; try lia.
Qed.

Lemma caseless_char (c x : char) :
  is_ascii c -> is_ascii x -> cset_mem true (CChar c) x = true ->
  ascii_to_upper x = ascii_to_upper c.
Proof.
  intros Hc Hx. cbn [cset_mem andb]. rewrite !lower1_ascii by assumption.
  intros H. apply orb_true_iff in H as [H | H]; apply N.eqb_eq in H.
  - now subst.
  - now apply same_lower_same_upper.
Qed.

Lemma caseless_A_to_F (x : char) :
  is_ascii x -> cset_mem true c_AF x = true ->
  In (ascii_to_upper x) [65; 66; 67; 68; 69; 70]%N.
Proof.
  intros Hx. unfold c_AF. cbn [cset_mem andb].
  change (char_range 65%N 70%N) with [65; 66; 67; 68; 69; 70]%N.
  intros H. apply orb_true_iff in H as [H | H].
  - apply andb_true_iff in H as [H1 H2]. apply N.leb_le in H1, H2.
    unfold ascii_to_upper, ascii_lower_letter.
    replace ((97 <=? x)%N) with false by (symmetry; apply N.leb_gt; lia).
    cbn [andb In].
    assert (x = 65 \/ x = 66 \/ x = 67 \/ x = 68 \/ x = 69 \/ x = 70)%N by lia.
    intuition auto.
  - apply existsb_exists in H as (i & Hi & H). apply N.eqb_eq in H.
    assert (Hia : is_ascii i).
    { unfold is_ascii. cbn [In] in Hi.
      destruct Hi as [<- | [<- | [<- | [<- | [<- | [<- | []]]]]]]; lia. }
    rewrite !lower1_ascii in H by assumption.
    apply same_lower_same_upper in H. rewrite H. cbn [In] in Hi.
    destruct Hi as [<- | [<- | [<- | [<- | [<- | [<- | []]]]]]]; cbn; tauto.
Qed.

(** The grades the patterns can read, in upper case. *)
Definition grades_read : list str :=
  map (fun s => lit s)
      [ "A"; "B"; "C"; "D"; "E"; "F"; "A+"; "B+"; "C+"; "D+"; "E+"; "F+";
        "A-"; "B-"; "C-"; "D-"; "E-"; "F-"; "I"; "X"; "Z"; "PASS"; "FAIL"
      ]%string.

Definition upper_of (w : str) : str := map ascii_to_upper w.

Lemma matches_Chr (ic : bool) (cs : cset) (w : str) :
  matches ic (Chr cs) w -> exists x, w = [x] /\ cset_mem ic cs x = true.
Proof. intros H. exact H. Qed.

Lemma letter_grade_read (w : str) :
  Forall is_ascii w -> matches true letter_grade w ->
  In (upper_of w) grades_read.
Proof.
  intros Hw (u & v & -> & (x & -> & Hx) & (us & -> & Hall & Hlen)).
  inversion Hw as [|? ? Hxa Hrest]; subst.
  apply (caseless_A_to_F x Hxa) in Hx.
  destruct us as [|s1 [|s2 us]]; cbn in Hlen; [| |lia].
  - cbn [concat app upper_of map]. cbn [In] in Hx.
    destruct Hx as [<- | [<- | [<- | [<- | [<- | [<- | []]]]]]]; cbn; tauto.
  - inversion Hall as [|? ? (y & -> & Hy) _]; subst.
    cbn [concat app] in *. inversion Hrest as [|? ? Hya _]; subst.
    assert (Hsign : ascii_to_upper y = 43%N \/ ascii_to_upper y = 45%N).
    { cbn [OneOf lit] in Hy. cbn in Hy.
      apply orb_true_iff in Hy as [Hy | Hy].
      - left. apply (caseless_char 43%N y); [unfold is_ascii; lia|exact Hya|].
        cbn [cset_mem andb]. exact Hy.
      - right. apply (caseless_char 45%N y); [unfold is_ascii; lia|exact Hya|].
        cbn [cset_mem andb]. exact Hy. }
    cbn [upper_of map]. cbn [In] in Hx.
    destruct Hx as [<- | [<- | [<- | [<- | [<- | [<- | []]]]]]];
      destruct Hsign as [-> | ->]; cbn; tauto.
Qed.


Lemma one_of_read (letters : String.string) (w : str) :
  Forall is_ascii (lit letters) ->
  Forall is_ascii w -> matches true (Chr (OneOf letters)) w ->
  exists c, In c (lit letters) /\ upper_of w = [ascii_to_upper c].
Proof.
  intros Hl Hw (x & -> & Hx). inversion Hw as [|? ? Hxa _]; subst.
  unfold OneOf in Hx. destruct (lit letters) as [|c cs].
  { cbn [cset_mem] in Hx. destruct (is_space x); discriminate. }
  assert (Hgen : forall cs acc,
            Forall is_ascii cs ->
            cset_mem true (fold_left (fun a d => COr a (CChar d)) cs acc) x
            = true ->
            cset_mem true acc x = true
            \/ exists d, In d cs /\ ascii_to_upper x = ascii_to_upper d).
  { clear -lower1_ascii Hxa. intros cs.
    induction cs as [|d cs IH]; intros acc Hcs H; cbn [fold_left] in H;
      [now left|].
    inversion Hcs as [|? ? Hd Hcs']; subst.
    apply IH in H as [H | (e & He & H)]; [| |exact Hcs'].
    - cbn [cset_mem] in H. apply orb_true_iff in H as [H | H]; [now left|].
      right. exists d. split; [now left|].
      apply caseless_char; assumption.
    - right. exists e. split; [now right|exact H]. }
  inversion Hl as [|? ? Hc Hcs]; subst.
  apply Hgen in Hx as [Hx | (d & Hd & Hx)]; [| |exact Hcs].
  - exists c. split; [now left|]. cbn [upper_of map]. f_equal.
    now apply caseless_char.
  - exists d. split; [now right|]. cbn [upper_of map]. now f_equal.
Qed.

Lemma literal_read (word : str) (w : str) :
  Forall is_ascii word -> Forall is_ascii w ->
  matches true (seqs (map (fun c => Chr (CChar c)) word)) w ->
  upper_of w = upper_of word.
Proof.
  revert w. induction word as [|c [|d word] IH]; intros w Hword Hw;
    cbn [map seqs].
  - intros ->. reflexivity.
  - intros (x & -> & Hx). inversion Hword; inversion Hw; subst.
    cbn [upper_of map]. f_equal. now apply caseless_char.
  - intros (u & v & -> & (x & -> & Hx) & Hv).
    inversion Hword as [|? ? Hc Hrest]; inversion Hw as [|? ? Hxa Hva]; subst.
    cbn [upper_of map app]. f_equal; [now apply caseless_char|].
    now apply IH.
Qed.

(** What the patterns take for a grade: [A-F][+-]?|[DIXZ] and
    [A-F][+-]?|[IXZ], with PASS and FAIL in one of them. *)
Definition grade_alternatives : list regex :=
  [ letter_grade; Chr (OneOf "DIXZ"); Chr (OneOf "IXZ"); Str "PASS";
    Str "FAIL" ].

Lemma grade_read (r : regex) (w : str) :
  In r grade_alternatives -> Forall is_ascii w -> matches true r w ->
  In (upper_of w) grades_read.
Proof.
  assert (Hlit : forall s, forallb (fun c => (c <? 128)%N) (lit s) = true ->
                           Forall is_ascii (lit s)).
  { intros s H. apply Forall_forall. intros c Hc.
    rewrite forallb_forall in H. apply N.ltb_lt. now apply H. }
  intros [<- | [<- | [<- | [<- | [<- | []]]]]] Hw Hm.
  - now apply letter_grade_read.
  - apply one_of_read in Hm as (c & Hc & ->); [| now apply Hlit |exact Hw].
    cbn in Hc. destruct Hc as [<- | [<- | [<- | [<- | []]]]]; cbn; tauto.
  - apply one_of_read in Hm as (c & Hc & ->); [| now apply Hlit |exact Hw].
    cbn in Hc. destruct Hc as [<- | [<- | [<- | []]]]; cbn; tauto.
  - apply literal_read in Hm; [| now apply Hlit |exact Hw].
    rewrite Hm. cbn. tauto.
  - apply literal_read in Hm; [| now apply Hlit |exact Hw].
    rewrite Hm. cbn. tauto.
Qed.

Lemma py_upper_ascii (w : str) : Forall is_ascii w -> py_upper w = upper_of w.
Proof.
  unfold py_upper, upper_of. induction 1 as [|c w Hc Hw IH]; [reflexivity|].
  cbn [flat_map map]. now rewrite upper_ascii, IH.
Qed.

Lemma grades_read_checked :
  forallb (fun g =>
             forallb (fun c => (c <? 128)%N && negb (ascii_space c)) g
             && negb (is_empty g)
             && negb (unit_status_eqb
                        (_determine_unit_status (dict_get grade_map g g))
                        exempt))
          grades_read = true.
Proof. vm_compute. reflexivity. Qed.

Lemma grade_not_exempt (r : regex) (w : str) :
  In r grade_alternatives -> Forall is_ascii w -> matches true r w ->
  _determine_unit_status (normalize_grade w) <> exempt.
Proof.
  intros Hr Hw Hm. pose proof (grade_read r w Hr Hw Hm) as Hin.
  pose proof grades_read_checked as Hall. rewrite forallb_forall in Hall.
  specialize (Hall _ Hin). apply andb_true_iff in Hall as [Hall Hst].
  apply andb_true_iff in Hall as [Hplain Hfull].
  unfold normalize_grade. rewrite py_upper_ascii by exact Hw.
  destruct w as [|x w]; [discriminate Hfull|]. cbn [is_empty].
  rewrite strip_plain.
  - intros E. rewrite E in Hst. discriminate.
  - apply Forall_forall. intros c Hc. rewrite forallb_forall in Hplain.
    specialize (Hplain c Hc). apply andb_true_iff in Hplain as [H1 H2].
    apply N.ltb_lt in H1. rewrite is_space_ascii by exact H1.
    now apply negb_true_iff.
Qed.

Lemma normalize_digits (g : str) :
  g <> [] -> Forall (fun c => ascii_digit c = true) g ->
  exists d rest, ascii_digit d = true /\ normalize_grade g = d :: rest.
Proof.
  intros Hne H. unfold normalize_grade.
  destruct g as [|d g]; [congruence|]. cbn [is_empty].
  assert (Hup : py_upper (d :: g) = d :: g).
  { unfold py_upper. clear Hne. induction H as [|c w Hc Hw IH]; [reflexivity|].
    cbn [flat_map]. destruct (digit_is_plain c Hc) as (Ha & Hu & _).
    rewrite upper_ascii by exact Ha. rewrite Hu, IH. reflexivity. }
  rewrite Hup, strip_plain.
  2:{ eapply Forall_impl; [|exact H]. intros c Hc. cbn beta.
      destruct (digit_is_plain c Hc) as (Ha & _ & Hs & _).
      now rewrite is_space_ascii. }
  inversion H as [|? ? Hd _]; subst. exists d.
  destruct (digit_is_plain d Hd) as (_ & _ & _ & Hin). cbn [In] in Hin.
  destruct Hin as [<- | [<- | [<- | [<- | [<- | [<- | [<- | [<- | [<- | [<- | []]]]]]]]]]];
    (eexists; split; [reflexivity|reflexivity]).
Qed.

Lemma digits_not_exempt (w : str) :
  Forall is_ascii w -> matches true (Plus CDigit) w ->
  _determine_unit_status (normalize_grade w) <> exempt.
Proof.
  intros Hw Hm. apply matches_plus in Hm as [Hne Hdec].
  assert (Hd : Forall (fun c => ascii_digit c = true) w).
  { rewrite Forall_forall in *. intros c Hc.
    rewrite <- decimal_ascii by now apply Hw. cbn in Hdec. now apply Hdec. }
  destruct (normalize_digits w Hne Hd) as (d & rest & Hdig & ->).
  destruct (digit_is_plain d Hdig) as (_ & _ & _ & Hin). cbn [In] in Hin.
  destruct Hin as [<- | [<- | [<- | [<- | [<- | [<- | [<- | [<- | [<- | [<- | []]]]]]]]]]];
    discriminate.
Qed.

(** The group [_parse_unit_match] reads as the grade is the last one. *)
Definition last_group_shape (n : nat) (i : nat) (w : str) : Prop :=
  i = n ->
  Forall is_ascii w -> _determine_unit_status (normalize_grade w) <> exempt.

Lemma alternatives_not_exempt (n : nat) (r : regex) :
  (forall w, matches true r w ->
     exists a, In a grade_alternatives /\ matches true a w) ->
  forall w, matches true r w -> last_group_shape n n w.
Proof.
  intros Hr w Hw _ Hascii. destruct (Hr w Hw) as (a & Ha & Hm).
  now apply (grade_not_exempt a).
Qed.

Lemma unit_patterns_respect :
  Forall (fun p => respects true (last_group_shape (group_count p)) p
                   /\ (group_count p = 3 \/ group_count p = 4))
         unit_patterns.
Proof.
  assert (Hd : forall n w, matches true (Plus CDigit) w ->
                           last_group_shape n n w).
  { intros n w Hw _ Hascii. now apply digits_not_exempt. }
  assert (H1 : forall n w,
            matches true (Alt letter_grade (Chr (OneOf "DIXZ"))) w ->
            last_group_shape n n w).
  { intros n. apply alternatives_not_exempt. intros w [H | H];
      eexists; (split; [|exact H]); cbn; tauto. }
  assert (H2 : forall n w,
            matches true (Alt letter_grade (Chr (OneOf "IXZ"))) w ->
            last_group_shape n n w).
  { intros n. apply alternatives_not_exempt. intros w [H | H];
      eexists; (split; [|exact H]); cbn; tauto. }
  assert (H3 : forall n w,
            matches true (alts [ letter_grade; Chr (OneOf "IXZ");
                                 Str "PASS"; Str "FAIL" ]) w ->
            last_group_shape n n w).
  { intros n. apply alternatives_not_exempt. cbn [alts].
    intros w [H | [H | [H | H]]]; eexists; (split; [|exact H]); cbn; tauto. }
  unfold unit_patterns.
  repeat (apply Forall_cons; [|]); [..|apply Forall_nil];
    (split; [|vm_compute; tauto]);
    match goal with
    | |- respects _ (last_group_shape ?n) _ =>
        let k := eval vm_compute in n in change n with k
    end;
    cbn [seqs respects];
    repeat match goal with |- _ /\ _ => split end;
    try exact I; try apply respects_Str;
    try (unfold spaced_code, loose_code, letter_grade, Plus, Opt, Times;
         cbn [seqs alts respects];
         repeat match goal with |- _ /\ _ => split end;
         try exact I; apply respects_Str).
  all: try (intros w Hw E; discriminate E).
  all: auto.
Qed.


Definition not_exempt (u : CleanedUnit) : Prop := status u <> exempt.

Lemma parse_not_exempt (line : str) (p : regex) (m : found)
    (u : CleanedUnit) :
  In p unit_patterns -> Forall is_ascii line ->
  In m (finditer true p line) ->
  _parse_unit_match (groups_tuple m) = Some u -> not_exempt u.
Proof.
  intros Hp Hline Hm.
  pose proof unit_patterns_respect as Hall. rewrite Forall_forall in Hall.
  destruct (Hall p Hp) as [Hr Hcount].
  pose proof (finditer_shape true _ p line Hr) as Hshape.
  pose proof (finditer_ok is_ascii true p line Hline) as Hok.
  rewrite Forall_forall in Hshape, Hok.
  destruct (Hshape m Hm) as (_ & Hgroup & _ & Hlen).
  destruct (Hok m Hm) as [_ Hchars].
  unfold groups_tuple, group in *. unfold _parse_unit_match.
  assert (Hempty : _determine_unit_status (normalize_grade []) <> exempt)
    by discriminate.
  destruct Hcount as [Hcount | Hcount]; rewrite Hcount in *;
    destruct (found_groups m) as [|g1 [|g2 [|g3 [|g4 [|g5 gs]]]]];
    try discriminate Hlen; cbn [map]; cbn beta iota zeta.
  - destruct (negb _); [discriminate|]. intros [= <-].
    unfold not_exempt. cbn [status].
    destruct g3 as [w|]; [|exact Hempty].
    apply (Hgroup 2 w eq_refl eq_refl).
    inversion Hchars as [|? ? _ H2]; subst.
    inversion H2 as [|? ? _ H3]; subst.
    now inversion H3.
  - destruct (negb _); [discriminate|]. intros [= <-].
    unfold not_exempt. cbn [status].
    destruct g4 as [w|]; [|exact Hempty].
    apply (Hgroup 3 w eq_refl eq_refl).
    inversion Hchars as [|? ? _ H2]; subst.
    inversion H2 as [|? ? _ H3]; subst.
    inversion H3 as [|? ? _ H4]; subst.
    now inversion H4.
Qed.

Lemma fold_units_in {A : Type} (R : CleanedUnit -> Prop)
    (f : acc -> A -> acc) (l : list A) :
  (forall st x, In x l -> Forall R (fst st) -> Forall R (fst (f st x))) ->
  forall st, Forall R (fst st) -> Forall R (fst (fold_left f l st)).
Proof.
  induction l as [|x l IH]; intros Hf st Hst; cbn [fold_left];
    [assumption|].
  apply IH.
  - intros st' y Hy. apply Hf. now right.
  - apply Hf; [now left|assumption].
Qed.

Lemma take_line_not_exempt (st : acc) (line : str) :
  Forall is_ascii line ->
  Forall not_exempt (fst st) -> Forall not_exempt (fst (take_line st line)).
Proof.
  intros Hline Hst. unfold take_line.
  destruct (length (strip line) <? 5); [assumption|].
  destruct (existsb _ skip_words); [assumption|].
  assert (Hstrip : Forall is_ascii (strip line)) by now apply Forall_strip.
  assert (Hpat : Forall not_exempt
            (fst (fold_left (take_pattern (strip line)) unit_patterns st))).
  { apply fold_units_in; [|assumption]. intros st' p Hp H.
    unfold take_pattern. apply fold_units_in; [|assumption].
    intros st'' m Hm H'. unfold take_match.
    destruct (_parse_unit_match (groups_tuple m)) as [u|] eqn:E;
      [|assumption].
    destruct (_is_valid_unit u); [|assumption]. cbn [fst].
    apply Forall_snoc; [assumption|].
    exact (parse_not_exempt (strip line) p m u Hp Hstrip Hm E). }
  destruct (negb (existsb _ unit_patterns)); [|assumption].
  apply fold_units; [|assumption]. intros st' c H. unfold take_course_code.
  destruct (negb _ && _); [|assumption]. cbn [fst].
  apply Forall_snoc; [assumption|discriminate].
Qed.

Lemma _extract_units_not_exempt (text : str) :
  Forall is_ascii text -> Forall not_exempt (_extract_units text).
Proof.
  intros Htext. unfold _extract_units.
  pose proof (Forall_split_on is_ascii 10%N text Htext) as Hlines.
  rewrite Forall_forall in Hlines.
  set (st := fold_left take_line (split_on 10%N text) ([], [])).
  assert (Hst : Forall not_exempt (fst st)).
  { apply fold_units_in; [|constructor]. intros st' l Hl.
    apply take_line_not_exempt. now apply Hlines. }
  destruct (Nat.eqb (length (fst st)) 0); [|assumption].
  apply fold_units; [|assumption]. intros st' p H.
  apply fold_units; [|assumption]. intros st'' c H'. unfold take_simple.
  destruct (negb _); [|assumption]. cbn [fst].
  apply Forall_snoc; [assumption|discriminate].
Qed.

Lemma clean_text_ascii (text : str) :
  Forall is_ascii text -> Forall is_ascii (clean_text text).
Proof.
  intros H. unfold clean_text. destruct (is_empty text); [constructor|].
  assert (Hlit : forall s, forallb (fun c => (c <? 128)%N) (lit s) = true ->
                           Forall is_ascii (lit s)).
  { intros s Hs. apply Forall_forall. intros c Hc.
    rewrite forallb_forall in Hs. apply N.ltb_lt. now apply Hs. }
  apply Forall_strip, sub_ok; [now apply Hlit|].
  unfold apply_replacements, replacements. cbn [fold_left fst snd].
  repeat (apply Forall_replace; [now apply Hlit|]).
  unfold strip_marks. rewrite nfd_ascii by exact H.
  apply Forall_forall. intros c Hc. apply filter_In in Hc as [Hc _].
  rewrite Forall_forall in H. now apply H.
Qed.

(** X28: on an ASCII text no unit is ever exempt: a pattern reads a letter
    grade, I, X, Z, D, PASS, FAIL or a number as the grade, and none of
    them is AU, EX or N/A; so [total_units] is the number of units
    listed. *)
Theorem no_unit_is_exempt (text : str) :
  Forall is_ascii text ->
  Forall (fun u => status u <> exempt) (_extract_units text)
  /\ Forall (fun u => status u <> exempt)
            (units (extract_structured_data text))
  /\ total_units (extract_structured_data text)
     = length (units (extract_structured_data text)).
Proof.
  intros Htext. split; [now apply _extract_units_not_exempt|].
  unfold extract_structured_data.
  destruct (_extract_academic_period (clean_text text)) as [y s].
  cbn [units total_units].
  pose proof (_extract_units_not_exempt (clean_text text)
                (clean_text_ascii text Htext)) as Hall.
  split; [exact Hall|]. f_equal. apply filter_all.
  rewrite Forall_forall in *. intros u Hu. specialize (Hall u Hu).
  unfold not_exempt in Hall. destruct (status u); try reflexivity.
  contradiction.
Qed.

End NeverExempt.

Lemma no_unit_is_exempt_witness :
  total_units (@extract_structured_data AsciiData
                 (lit "CIT 3245 - Data Mining - B"))
  = length (units (@extract_structured_data AsciiData
                     (lit "CIT 3245 - Data Mining - B"))).
Proof.
  apply (@no_unit_is_exempt AsciiData (fun c _ => eq_refl)
           (fun c _ => eq_refl) (lit "CIT 3245 - Data Mining - B")).
  apply Forall_forall. intros c Hc. unfold is_ascii.
  cbn in Hc. repeat (destruct Hc as [<- | Hc]; [lia|]). destruct Hc.
Defined.
